(** * L'Oréal routine builder: the page script and its proxy workers

    A shallow embedding of [script.js] (catalog grid, selection tray,
    conversation pipeline) and of [search-proxy-worker.js] (the combined
    chat/search worker and the minimal search worker), with the properties
    the specification states about them.

    Conventions of the embedding.
    - A JavaScript string is a [string] of 8-bit characters; lower-casing
      and white space are those of ASCII.
    - A parsed JSON document is a [JSON] value; a JavaScript value that may
      be [undefined] is an [option JSON].  Numbers are the integers (product
      ids, counters).
    - Module-level variables, the DOM nodes the script touches, local
      storage and the log of network calls are fields of one [State]
      record; a function that assigns to them returns the new record.
    - [await fetch(..)] is answered by the environment ([Env]): each call is
      logged together with the state of the two triggering controls at the
      moment it is issued.
    - An exception is a [Throw] carrying [err.message].
    - A worker is a function from a request to a response, as its module
      writes it, and [Loading] tells whether the module is loaded at all. *)

From Stdlib Require Import ZArith String Ascii List Bool Lia DecimalString.
From stdpp Require Import base option list gmap strings.

Local Open Scope string_scope.
Local Open Scope Z_scope.

(** ** JavaScript strings *)

Module JsString.

Definition is_upper (c : ascii) : bool :=
  let n := nat_of_ascii c in (65 <=? n)%nat && (n <=? 90)%nat.

Definition lower_char (c : ascii) : ascii :=
  if is_upper c then ascii_of_nat (nat_of_ascii c + 32) else c.

(** [s.toLowerCase()] *)
Fixpoint toLowerCase (s : string) : string :=
  match s with
  | EmptyString => EmptyString
  | String c r => String (lower_char c) (toLowerCase r)
  end.

(** White space removed by [trim]: TAB, LF, VT, FF, CR and SPACE. *)
Definition is_space (c : ascii) : bool :=
  let n := nat_of_ascii c in
  ((9 <=? n)%nat && (n <=? 13)%nat) || (n =? 32)%nat.

Fixpoint trimStart (s : string) : string :=
  match s with
  | EmptyString => EmptyString
  | String c r => if is_space c then trimStart r else s
  end.

Fixpoint trimEnd (s : string) : string :=
  match s with
  | EmptyString => EmptyString
  | String c r =>
      match trimEnd r with
      | EmptyString => if is_space c then EmptyString else String c EmptyString
      | r' => String c r'
      end
  end.

(** [s.trim()] *)
Definition trim (s : string) : string := trimEnd (trimStart s).

(** [s.startsWith(t)] *)
Fixpoint startsWith (s t : string) {struct t} : bool :=
  match t, s with
  | EmptyString, _ => true
  | String b t', String a s' => if Ascii.eqb a b then startsWith s' t' else false
  | String _ _, EmptyString => false
  end.

(** [s.includes(t)] *)
Fixpoint includes (s t : string) : bool :=
  startsWith s t ||
  match s with
  | EmptyString => false
  | String _ s' => includes s' t
  end.

(** [s.endsWith(t)] *)
Fixpoint endsWith (s t : string) : bool :=
  String.eqb s t ||
  match s with
  | EmptyString => false
  | String _ s' => endsWith s' t
  end.

(** [parts.join(sep)] *)
Fixpoint join (sep : string) (parts : list string) : string :=
  match parts with
  | [] => EmptyString
  | [p] => p
  | p :: rest => p ++ sep ++ join sep rest
  end.

(** A string is truthy when it is not empty. *)
Definition nonEmpty (s : string) : bool :=
  match s with EmptyString => false | _ => true end.

(** Decimal rendering of an integer, as [String(n)] prints it. *)
Definition ofZ (n : Z) : string := NilZero.string_of_int (Z.to_int n).

(** The line feed and the double quote, which a literal cannot hold. *)
Definition LF : string := String (ascii_of_nat 10) EmptyString.
Definition DQUOTE : string := String (ascii_of_nat 34) EmptyString.

(** [path.replace(/\/$/, ..)] with the empty replacement: one trailing
    slash removed. *)
Fixpoint dropTrailingSlash (s : string) : string :=
  match s with
  | EmptyString => EmptyString
  | String c EmptyString => if Ascii.eqb c "/" then EmptyString else s
  | String c r => String c (dropTrailingSlash r)
  end.

End JsString.

(** ** JSON documents and JavaScript values *)

#[local] Set Warnings "-register-all".

Inductive JSON : Type :=
| JNull
| JBool (b : bool)
| JNum (n : Z)
| JStr (s : string)
| JArr (xs : list JSON)
| JObj (fields : list (string * JSON)).

(** A value that may be [undefined]. *)
Abbreviation JsValue := (option JSON).
Abbreviation undefined := (@None JSON).

(** Result of a computation that may throw; the payload of [Throw] is the
  message of the error. *)
Inductive Res (A : Type) : Type :=
| Ok (a : A)
| Throw (msg : string).
Arguments Ok {A} a.
Arguments Throw {A} msg.

(** What answers a [fetch]: a rejection, or a response with its [ok] flag,
    status, body text and the outcome of [json()] on it ([None] when the
    body does not parse). *)
Inductive FetchOutcome : Type :=
  | NetworkError (msg : string)
  | HttpResponse (ok : bool) (status : Z) (text : string) (json : option JSON).

Module Js.
Import JsString.

(** Message of the [TypeError] raised by a property read on [null] or
    [undefined], and by a call of something that is not a function.  The
    text is chosen by the engine. *)
Definition TypeError_property : string := "Cannot read properties of null".
Definition TypeError_not_a_function : string := "is not a function".

Definition truthy (v : JsValue) : bool :=
  match v with
  | None => false
  | Some JNull => false
  | Some (JBool b) => b
  | Some (JNum n) => negb (n =? 0)
  | Some (JStr s) => nonEmpty s
  | Some (JArr _) => true
  | Some (JObj _) => true
  end.

(** [a || b] *)
Definition or (a b : JsValue) : JsValue := if truthy a then a else b.

Fixpoint lookup_field (k : string) (fields : list (string * JSON)) : JsValue :=
  match fields with
  | [] => None
  | (k', v) :: rest => if String.eqb k' k then Some v else lookup_field k rest
  end.

(** [v.k] for one of the data keys the programs read ([role], [content],
    [title], [snippet], [url], [results], [q], ...): a [TypeError] on
    [null], the own property of an object, [undefined] on anything else. *)
Definition prop (v : JSON) (k : string) : Res JsValue :=
  match v with
  | JNull => Throw TypeError_property
  | JObj fields => Ok (lookup_field k fields)
  | _ => Ok None
  end.

(** Property read on a value that may be [undefined]. *)
Definition prop' (v : JsValue) (k : string) : Res JsValue :=
  match v with
  | None => Throw TypeError_property
  | Some j => prop j k
  end.

(** [Array.isArray(v)] with the elements when it holds. *)
Definition asArray (v : JsValue) : option (list JSON) :=
  match v with
  | Some (JArr xs) => Some xs
  | _ => None
  end.

(** [String(v)], the conversion a template literal applies.  In
    JavaScript the conversion of an object that holds a key [toString]
    throws; here it prints like any object, and the statements about
    printed values are restricted to the values of [Spec.printable]. *)
Fixpoint toString (j : JSON) : string :=
  match j with
  | JNull => "null"
  | JBool true => "true"
  | JBool false => "false"
  | JNum n => ofZ n
  | JStr s => s
  | JArr xs =>
      join "," (map (fun x => match x with JNull => EmptyString | _ => toString x end) xs)
  | JObj _ => "[object Object]"
  end.

Definition template (v : JsValue) : string :=
  match v with
  | None => "undefined"
  | Some j => toString j
  end.

(** A string inside a JSON text: quoted, with the escapes of
    [JSON.stringify]. *)
Definition hex_digit (n : nat) : string :=
  String (ascii_of_nat (if (n <? 10)%nat then 48 + n else 87 + n)) EmptyString.

Definition quote_char (c : ascii) : string :=
  let n := nat_of_ascii c in
  if (n =? 34)%nat then "\" ++ DQUOTE
  else if (n =? 92)%nat then "\\"
  else if (n =? 8)%nat then "\b"
  else if (n =? 9)%nat then "\t"
  else if (n =? 10)%nat then "\n"
  else if (n =? 12)%nat then "\f"
  else if (n =? 13)%nat then "\r"
  else if (n <? 32)%nat then "\u00" ++ hex_digit (n / 16) ++ hex_digit (n mod 16)
  else String c EmptyString.

Fixpoint quote_chars (s : string) : string :=
  match s with
  | EmptyString => EmptyString
  | String c r => quote_char c ++ quote_chars r
  end.

Definition quote (s : string) : string := DQUOTE ++ quote_chars s ++ DQUOTE.

(** [JSON.stringify(j)] *)
Fixpoint JSON_stringify (j : JSON) : string :=
  match j with
  | JNull => "null"
  | JBool true => "true"
  | JBool false => "false"
  | JNum n => ofZ n
  | JStr s => quote s
  | JArr xs => "[" ++ join "," (map JSON_stringify xs) ++ "]"
  | JObj fields =>
      "{" ++ join "," (map (fun kv => quote (fst kv) ++ ":" ++ JSON_stringify (snd kv)) fields)
          ++ "}"
  end.

(** [JSON.stringify(j, null, 2)] at the indentation [ind]. *)
Fixpoint JSON_stringify_indent (ind : string) (j : JSON) : string :=
  let ind' := ind ++ "  " in
  match j with
  | JNull => "null"
  | JBool true => "true"
  | JBool false => "false"
  | JNum n => ofZ n
  | JStr s => quote s
  | JArr [] => "[]"
  | JArr xs =>
      "[" ++ LF
        ++ join ("," ++ LF) (map (fun x => ind' ++ JSON_stringify_indent ind' x) xs)
        ++ LF ++ ind ++ "]"
  | JObj [] => "{}"
  | JObj fields =>
      "{" ++ LF
        ++ join ("," ++ LF)
             (map (fun kv => ind' ++ quote (fst kv) ++ ": "
                               ++ JSON_stringify_indent ind' (snd kv)) fields)
        ++ LF ++ ind ++ "}"
  end.

Definition JSON_stringify_pretty (j : JSON) : string :=
  JSON_stringify_indent EmptyString j.

End Js.

(** ** The page script, [script.js] *)

Module Client.
Import JsString.

(** *** Data *)

(** A product of the catalog.  A field the document leaves out reads
    [undefined], here [None]; the placeholder [{ id }] that
    [loadSelectedFromStorage] builds has every other field undefined. *)
Record Product : Type := mkProduct {
  id : Z;
  name : option string;
  brand : option string;
  category : option string;
  description : option string;
  image : option string
}.

(** An entry [{ role, content }] of the transcript. *)
Record Message : Type := mkMessage {
  role : string;
  content : JsValue
}.

(** A card of the product grid: the product it shows and whether it
    carries the class [selected]. *)
Record Card : Type := mkCard {
  card_product : Product;
  card_selected : bool
}.

(** [Number(cardEl.dataset.id)] *)
Definition card_id (c : Card) : Z := id (card_product c).

(** Content of [#productsContainer]. *)
Inductive Grid : Type :=
  | GridPlaceholder (text : string)
  | GridCards (cards : list Card).

(** A chip of the selection tray: [data-id] and the name it prints. *)
Record Chip : Type := mkChip {
  chip_id : Z;
  chip_label : string
}.

(** Content of [#selectedProductsList]. *)
Inductive Tray : Type :=
  | TrayPlaceholder
  | TrayChips (chips : list Chip).

(** A child of [#chatWindow]. *)
Inductive ChatNode : Type :=
  | ChatMsg (cls : string) (who : string) (body : string)
  | ChatCitations (items : list (string * string * string)).

(** The button [#generateRoutine]. *)
Record Button : Type := mkButton {
  disabled : bool;
  innerHTML : string
}.

(** A request the script sends.  The fixed parts of a body (model name,
    token limit, temperature) are implied by the constructor. *)
Inductive Request : Type :=
  | PostSearch (url : string) (q : string)
      (* POST url, body { q } *)
  | PostMessages (url : string) (messages : list Message)
      (* POST url, body { messages } *)
  | PostCompletions (apiKey : string) (messages : list Message).
      (* POST api.openai.com/v1/chat/completions, Authorization: Bearer apiKey *)

(** A network call, with the [disabled] flags of [#sendBtn] (when the
    page has one) and of [#generateRoutine] at the moment it is issued. *)
Record NetCall : Type := mkNetCall {
  call_request : Request;
  call_sendBtn_disabled : option bool;
  call_generateBtn_disabled : bool
}.

Record State : Type := mkState {
  (* module-level variables *)
  selectedProducts : list Product;
  productsById : gmap Z Product;
  allProducts : list Product;
  conversationMessages : list Message;
  routineGenerated : bool;
  (* the browser *)
  localStorage : gmap string string;
  netlog : list NetCall;
  (* the document; an element the page lacks is [None] *)
  productsContainer : Grid;
  selectedProductsList : option Tray;
  chatWindow : option (list ChatNode);
  categoryFilter : option string;
  productSearch : option string;
  userInput : option string;
  sendBtn : option bool;
  generateBtn : Button
}.

(** The environment of one run: configuration read from [window], the
    catalog document behind [products.json], whether local storage
    accepts a write, and the network. *)
Record Env : Type := mkEnv {
  CF_WORKER_URL : option string;
  CLOUDFLARE_WORKER_URL : option string;
  OPENAI_API_KEY : option string;
  OPENAIKEY : option string;
  SEARCH_PROXY_URL : option string;
  SEARCH_WORKER_URL : option string;
  products_json : option (list Product);
  storage_accepts : bool;
  fetch : Request -> FetchOutcome
}.

(** *** Assignments *)

Definition set_selectedProducts (v : list Product) (st : State) : State :=
  mkState v (productsById st) (allProducts st) (conversationMessages st)
    (routineGenerated st) (localStorage st) (netlog st) (productsContainer st)
    (selectedProductsList st) (chatWindow st) (categoryFilter st)
    (productSearch st) (userInput st) (sendBtn st) (generateBtn st).

Definition set_productsById (v : gmap Z Product) (st : State) : State :=
  mkState (selectedProducts st) v (allProducts st) (conversationMessages st)
    (routineGenerated st) (localStorage st) (netlog st) (productsContainer st)
    (selectedProductsList st) (chatWindow st) (categoryFilter st)
    (productSearch st) (userInput st) (sendBtn st) (generateBtn st).

Definition set_allProducts (v : list Product) (st : State) : State :=
  mkState (selectedProducts st) (productsById st) v (conversationMessages st)
    (routineGenerated st) (localStorage st) (netlog st) (productsContainer st)
    (selectedProductsList st) (chatWindow st) (categoryFilter st)
    (productSearch st) (userInput st) (sendBtn st) (generateBtn st).

Definition set_conversationMessages (v : list Message) (st : State) : State :=
  mkState (selectedProducts st) (productsById st) (allProducts st) v
    (routineGenerated st) (localStorage st) (netlog st) (productsContainer st)
    (selectedProductsList st) (chatWindow st) (categoryFilter st)
    (productSearch st) (userInput st) (sendBtn st) (generateBtn st).

Definition set_routineGenerated (v : bool) (st : State) : State :=
  mkState (selectedProducts st) (productsById st) (allProducts st)
    (conversationMessages st) v (localStorage st) (netlog st)
    (productsContainer st) (selectedProductsList st) (chatWindow st)
    (categoryFilter st) (productSearch st) (userInput st) (sendBtn st)
    (generateBtn st).

Definition set_localStorage (v : gmap string string) (st : State) : State :=
  mkState (selectedProducts st) (productsById st) (allProducts st)
    (conversationMessages st) (routineGenerated st) v (netlog st)
    (productsContainer st) (selectedProductsList st) (chatWindow st)
    (categoryFilter st) (productSearch st) (userInput st) (sendBtn st)
    (generateBtn st).

Definition set_netlog (v : list NetCall) (st : State) : State :=
  mkState (selectedProducts st) (productsById st) (allProducts st)
    (conversationMessages st) (routineGenerated st) (localStorage st) v
    (productsContainer st) (selectedProductsList st) (chatWindow st)
    (categoryFilter st) (productSearch st) (userInput st) (sendBtn st)
    (generateBtn st).

Definition set_productsContainer (v : Grid) (st : State) : State :=
  mkState (selectedProducts st) (productsById st) (allProducts st)
    (conversationMessages st) (routineGenerated st) (localStorage st)
    (netlog st) v (selectedProductsList st) (chatWindow st)
    (categoryFilter st) (productSearch st) (userInput st) (sendBtn st)
    (generateBtn st).

Definition set_selectedProductsList (v : option Tray) (st : State) : State :=
  mkState (selectedProducts st) (productsById st) (allProducts st)
    (conversationMessages st) (routineGenerated st) (localStorage st)
    (netlog st) (productsContainer st) v (chatWindow st)
    (categoryFilter st) (productSearch st) (userInput st) (sendBtn st)
    (generateBtn st).

Definition set_chatWindow (v : option (list ChatNode)) (st : State) : State :=
  mkState (selectedProducts st) (productsById st) (allProducts st)
    (conversationMessages st) (routineGenerated st) (localStorage st)
    (netlog st) (productsContainer st) (selectedProductsList st) v
    (categoryFilter st) (productSearch st) (userInput st) (sendBtn st)
    (generateBtn st).

Definition set_categoryFilter (v : option string) (st : State) : State :=
  mkState (selectedProducts st) (productsById st) (allProducts st)
    (conversationMessages st) (routineGenerated st) (localStorage st)
    (netlog st) (productsContainer st) (selectedProductsList st)
    (chatWindow st) v (productSearch st) (userInput st) (sendBtn st)
    (generateBtn st).

Definition set_productSearch (v : option string) (st : State) : State :=
  mkState (selectedProducts st) (productsById st) (allProducts st)
    (conversationMessages st) (routineGenerated st) (localStorage st)
    (netlog st) (productsContainer st) (selectedProductsList st)
    (chatWindow st) (categoryFilter st) v (userInput st) (sendBtn st)
    (generateBtn st).

Definition set_userInput (v : option string) (st : State) : State :=
  mkState (selectedProducts st) (productsById st) (allProducts st)
    (conversationMessages st) (routineGenerated st) (localStorage st)
    (netlog st) (productsContainer st) (selectedProductsList st)
    (chatWindow st) (categoryFilter st) (productSearch st) v (sendBtn st)
    (generateBtn st).

Definition set_sendBtn (v : option bool) (st : State) : State :=
  mkState (selectedProducts st) (productsById st) (allProducts st)
    (conversationMessages st) (routineGenerated st) (localStorage st)
    (netlog st) (productsContainer st) (selectedProductsList st)
    (chatWindow st) (categoryFilter st) (productSearch st) (userInput st) v
    (generateBtn st).

Definition set_generateBtn (v : Button) (st : State) : State :=
  mkState (selectedProducts st) (productsById st) (allProducts st)
    (conversationMessages st) (routineGenerated st) (localStorage st)
    (netlog st) (productsContainer st) (selectedProductsList st)
    (chatWindow st) (categoryFilter st) (productSearch st) (userInput st)
    (sendBtn st) v.

(** *** Helpers on arrays *)

(** [l.findIndex(f)]; [None] is the index [-1]. *)
Fixpoint findIndex {A : Type} (f : A -> bool) (l : list A) : option nat :=
  match l with
  | [] => None
  | x :: r => if f x then Some 0%nat else S <$> findIndex f r
  end.

(** [l.some(f)] *)
Definition some {A : Type} (f : A -> bool) (l : list A) : bool := existsb f l.

(** [`${s}`] for a string that may be undefined. *)
Definition template_str (s : option string) : string :=
  match s with
  | Some t => t
  | None => "undefined"
  end.

(** [s || ""] for a string that may be undefined. *)
Definition or_empty (s : option string) : string :=
  match s with
  | Some t => t
  | None => EmptyString
  end.

(** *** Selection, tray and storage *)

Definition STORAGE_KEY : string := "selectedProductIds".

(** The JSON array of the ids of a selection. *)
Definition ids_json (sel : list Product) : JSON := JArr (map (fun p => JNum (id p)) sel).

(** [saveSelectedToStorage]: the write is inside [try] and a failure of
    [setItem] is swallowed. *)
Definition saveSelectedToStorage (env : Env) (st : State) : State :=
  let ids := ids_json (selectedProducts st) in
  if storage_accepts env
  then set_localStorage (<[STORAGE_KEY := Js.JSON_stringify ids]> (localStorage st)) st
  else st.

Definition chip_of (p : Product) : Chip := mkChip (id p) (template_str (name p)).

(** [updateSelectedList]: nothing without the tray element; the
    placeholder and an early [return] when the selection is empty;
    otherwise one chip per selected product, then the write to storage. *)
Definition updateSelectedList (env : Env) (st : State) : State :=
  match selectedProductsList st with
  | None => st
  | Some _ =>
      match selectedProducts st with
      | [] => set_selectedProductsList (Some TrayPlaceholder) st
      | _ :: _ =>
          saveSelectedToStorage env
            (set_selectedProductsList
               (Some (TrayChips (map chip_of (selectedProducts st)))) st)
      end
  end.

Definition grid_cards (g : Grid) : list Card :=
  match g with
  | GridPlaceholder _ => []
  | GridCards cards => cards
  end.

Definition tray_chips (t : option Tray) : list Chip :=
  match t with
  | Some (TrayChips chips) => chips
  | _ => []
  end.

(** The class [selected] of the card at index [i] set to [b]. *)
Definition mark_card (i : nat) (b : bool) (g : Grid) : Grid :=
  match g with
  | GridPlaceholder t => GridPlaceholder t
  | GridCards cards =>
      GridCards (alter (fun c => mkCard (card_product c) b) i cards)
  end.

(** [toggleSelection(cardEl)], [cardEl] being the card at index [i] of the
    grid. *)
Definition toggleSelection (env : Env) (i : nat) (st : State) : State :=
  match grid_cards (productsContainer st) !! i with
  | None => st
  | Some cardEl =>
      let id_ := card_id cardEl in
      match productsById st !! id_ with
      | None => st
      | Some product =>
          match findIndex (fun p => id p =? id_) (selectedProducts st) with
          | None =>
              updateSelectedList env
                (set_productsContainer (mark_card i true (productsContainer st))
                   (set_selectedProducts (selectedProducts st ++ [product]) st))
          | Some index =>
              updateSelectedList env
                (set_productsContainer (mark_card i false (productsContainer st))
                   (set_selectedProducts (delete index (selectedProducts st)) st))
          end
      end
  end.

(** The click handler of the remove control of the chip at index [j] of
    the tray. *)
Definition removeChip (env : Env) (j : nat) (st : State) : State :=
  match tray_chips (selectedProductsList st) !! j with
  | None => st
  | Some chip =>
      let id_ := chip_id chip in
      let st1 :=
        match findIndex (fun p => id p =? id_) (selectedProducts st) with
        | Some idx => set_selectedProducts (delete idx (selectedProducts st)) st
        | None => st
        end in
      let st2 :=
        match findIndex (fun c => card_id c =? id_) (grid_cards (productsContainer st1)) with
        | Some k => set_productsContainer (mark_card k false (productsContainer st1)) st1
        | None => st1
        end in
      saveSelectedToStorage env (updateSelectedList env st2)
  end.

(** [clearAllSelections] *)
Definition clearAllSelections (env : Env) (st : State) : State :=
  let st1 := set_selectedProducts [] st in
  let st2 := saveSelectedToStorage env st1 in
  let st3 :=
    match productsContainer st2 with
    | GridPlaceholder _ => st2
    | GridCards cards =>
        set_productsContainer
          (GridCards (map (fun c => mkCard (card_product c) false) cards)) st2
    end in
  updateSelectedList env st3.

(** *** The product grid *)

(** [displayProducts(products)]: the id-to-product map is rebuilt (a later
    product with the same id overwrites an earlier one) and one card per
    product is rendered, marked when its id is in the selection.  The
    markup of a card (image, highlighted title, brand) is not modelled
    here: this is the function for products that have a name, and
    [Markup.displayProducts_markup] is the function with the markup, which
    throws for a product without a name. *)
Definition displayProducts (products : list Product) (st : State) : State :=
  let byId := foldl (fun m p => <[id p := p]> m) (∅ : gmap Z Product) products in
  let cards :=
    map (fun product =>
           mkCard product (some (fun p => id p =? id product) (selectedProducts st)))
        products in
  set_productsContainer (GridCards cards) (set_productsById byId st).

(** The two filters of [updateProductGrid], on the category value and on the
    trimmed, lower-cased search term. *)
Definition filterProducts (products : list Product)
    (selectedCategory searchTerm : string) : list Product :=
  let filtered :=
    if nonEmpty selectedCategory
    then List.filter (fun product =>
                        match category product with
                        | Some c => String.eqb c selectedCategory
                        | None => false
                        end) products
    else products in
  if nonEmpty searchTerm
  then List.filter (fun product =>
                      let title := toLowerCase (or_empty (name product)) in
                      includes title searchTerm) filtered
  else filtered.

(** The catalog a grid update works on: [allProducts] when it is not empty,
    else a new load of [products.json], which may fail. *)
Definition catalog_for_grid (env : Env) (st : State) : Res (list Product) :=
  match allProducts st with
  | _ :: _ => Ok (allProducts st)
  | [] =>
      match products_json env with
      | Some products => Ok products
      | None => Throw "Failed to fetch"
      end
  end.

Definition selectedCategory_of (st : State) : string :=
  match categoryFilter st with
  | Some v => v
  | None => EmptyString
  end.

Definition searchTerm_of (st : State) : string :=
  match productSearch st with
  | Some v => if nonEmpty v then toLowerCase (trim v) else EmptyString
  | None => EmptyString
  end.

(** [updateProductGrid] *)
Definition updateProductGrid (env : Env) (st : State) : Res State :=
  match catalog_for_grid env st with
  | Throw msg => Throw msg
  | Ok products =>
      let filtered := filterProducts products (selectedCategory_of st) (searchTerm_of st) in
      match filtered with
      | [] => Ok (set_productsContainer
                    (GridPlaceholder "No products match your filters.") st)
      | _ :: _ => Ok (displayProducts filtered st)
      end
  end.

(** The products shown by the grid, one per card, in card order. *)
Definition grid_products (g : Grid) : list Product := map card_product (grid_cards g).

(** *** Rehydration *)

Section Rehydration.

(** [JSON.parse]; [None] when it throws. *)
Variable JSON_parse : string -> option JSON.

(** [ids.includes(p.id)] *)
Definition ids_include (ids : list JSON) (n : Z) : bool :=
  existsb (fun v => match v with JNum m => m =? n | _ => false end) ids.

(** [ids.map((id) => ({ id }))].  Product ids are integers; a stored array
    that holds anything else has no placeholder list in this model. *)
Definition placeholders (ids : list JSON) : option (list Product) :=
  mapM (fun v => match v with
                 | JNum n => Some (mkProduct n None None None None None)
                 | _ => None
                 end) ids.

(** [loadSelectedFromStorage]; the result is [None] only where
    [placeholders] is. *)
Definition loadSelectedFromStorage (st : State) : option State :=
  match localStorage st !! STORAGE_KEY with
  | None => Some st
  | Some raw =>
      if negb (nonEmpty raw) then Some st
      else
        match JSON_parse raw with
        | None => Some st
        | Some (JArr ids) =>
            match allProducts st with
            | _ :: _ =>
                Some (set_selectedProducts
                        (List.filter (fun p => ids_include ids (id p)) (allProducts st)) st)
            | [] =>
                match placeholders ids with
                | Some sel => Some (set_selectedProducts sel st)
                | None => None
                end
            end
        | Some _ => Some st
        end
  end.

(** The grid update that ends [init]; it is not awaited, so its failure
    leaves the state as it is. *)
Definition first_grid_update (env : Env) (st : State) : State :=
  match updateProductGrid env st with
  | Ok st' => st'
  | Throw _ => st
  end.

(** [init]: the catalog is loaded, the stored ids are intersected with it,
    the tray is rendered and the grid is updated.  Any exception before
    the grid update ends [init] silently.  (Text direction is not
    modelled.) *)
Definition init (env : Env) (st : State) : State :=
  match products_json env with
  | None => st
  | Some products =>
      let st1 := set_allProducts products st in
      let finish st2 := first_grid_update env (updateSelectedList env st2) in
      match localStorage st1 !! STORAGE_KEY with
      | None => finish st1
      | Some raw =>
          if negb (nonEmpty raw) then finish st1
          else
            match JSON_parse raw with
            | None => st1
            | Some (JArr (v :: ids)) =>
                finish
                  (set_selectedProducts
                     (List.filter (fun p => ids_include (v :: ids) (id p)) products) st1)
            | Some _ => finish st1
            end
      end
  end.

End Rehydration.

(** *** Computations that read and write the state and may throw *)

Definition M (A : Type) : Type := State -> Res A * State.

Definition ret {A : Type} (a : A) : M A := fun st => (Ok a, st).

Definition throw {A : Type} (msg : string) : M A := fun st => (Throw msg, st).

Definition bind {A B : Type} (m : M A) (k : A -> M B) : M B :=
  fun st =>
    match m st with
    | (Ok a, st') => k a st'
    | (Throw msg, st') => (Throw msg, st')
    end.

Notation "'let!' x ':=' m 'in' k" := (bind m (fun x => k))
  (at level 10, x name, m at level 100, k at level 200).
Notation "'do!' m 'in' k" := (bind m (fun _ => k))
  (at level 10, m at level 100, k at level 200).

(** A pure step that may throw. *)
Definition lift {A : Type} (r : Res A) : M A := fun st => (r, st).

(** An assignment. *)
Definition modify (f : State -> State) : M unit := fun st => (Ok tt, f st).

(** [try { body } catch (err) { handler(err.message) }] *)
Definition try_catch {A : Type} (body : M A) (handler : string -> M A) : M A :=
  fun st =>
    match body st with
    | (Ok a, st') => (Ok a, st')
    | (Throw msg, st') => handler msg st'
    end.

(** [try { body } finally { fin }], for a [finally] block of assignments. *)
Definition try_finally {A : Type} (body : M A) (fin : State -> State) : M A :=
  fun st => let (r, st') := body st in (r, fin st').

(** [await fetch(..)]: the call is logged with the state of the controls. *)
Definition do_fetch (env : Env) (rq : Request) : M FetchOutcome :=
  fun st =>
    (Ok (fetch env rq),
     set_netlog (netlog st ++ [mkNetCall rq (sendBtn st) (disabled (generateBtn st))]) st).

(** Bind of [Res]. *)
Definition res_bind {A B : Type} (r : Res A) (k : A -> Res B) : Res B :=
  match r with
  | Ok a => k a
  | Throw msg => Throw msg
  end.

(** [xs.map(f)] for an [f] that may throw. *)
Fixpoint res_map {A B : Type} (f : A -> Res B) (xs : list A) : Res (list B) :=
  match xs with
  | [] => Ok []
  | x :: r => res_bind (f x) (fun y => res_bind (res_map f r) (fun ys => Ok (y :: ys)))
  end.

(** [xs.map((x, i) => f(i, x))] from the index [i] on. *)
Fixpoint res_mapi {A B : Type} (f : nat -> A -> Res B) (i : nat) (xs : list A)
    : Res (list B) :=
  match xs with
  | [] => Ok []
  | x :: r =>
      res_bind (f i x) (fun y => res_bind (res_mapi f (S i) r) (fun ys => Ok (y :: ys)))
  end.

(** *** The chat window *)

Definition escape_char (c : ascii) : string :=
  let n := nat_of_ascii c in
  if (n =? 38)%nat then "&amp;"
  else if (n =? 60)%nat then "&lt;"
  else if (n =? 62)%nat then "&gt;"
  else if (n =? 34)%nat then "&quot;"
  else if (n =? 39)%nat then "&#039;"
  else String c EmptyString.

Fixpoint escape_chars (s : string) : string :=
  match s with
  | EmptyString => EmptyString
  | String c r => escape_char c ++ escape_chars r
  end.

(** [escapeHtml(unsafe)]: the five replacements, none of which produces a
    character a later one looks for, so they act character by character.
    Only a string has [replace]. *)
Definition escapeHtml (unsafe : JsValue) : Res string :=
  match unsafe with
  | Some (JStr s) => Ok (escape_chars s)
  | Some JNull | None => Throw Js.TypeError_property
  | Some _ => Throw Js.TypeError_not_a_function
  end.

(** [html.replace(/\n/g, "<br>")] *)
Fixpoint br_newlines (s : string) : string :=
  match s with
  | EmptyString => EmptyString
  | String c r =>
      (if (nat_of_ascii c =? 10)%nat then "<br>" else String c EmptyString) ++ br_newlines r
  end.

(** [appendMessageToChat(role, content)] *)
Definition appendMessageToChat (role_ : string) (content_ : JsValue) : M unit :=
  fun st =>
    match chatWindow st with
    | None => (Ok tt, st)
    | Some nodes =>
        match escapeHtml content_ with
        | Throw msg => (Throw msg, st)
        | Ok html =>
            let node :=
              if String.eqb role_ "user"
              then ChatMsg "chat-msg user-msg" "You" (br_newlines html)
              else ChatMsg "chat-msg assistant-msg" "Advisor" (br_newlines html) in
            (Ok tt, set_chatWindow (Some (nodes ++ [node])%list) st)
        end
    end.

(** First [n] characters, [s.slice(0, n)]. *)
Definition slice0 (n : nat) (s : string) : string := String.substring 0 n s.

(** One entry of the list of sources: [href], title and snippet. *)
Definition citation_item (r : JSON) : Res (string * string * string) :=
  res_bind (Js.prop r "url") (fun url =>
  res_bind (Js.prop r "title") (fun title =>
  res_bind (escapeHtml (Js.or title url)) (fun title_html =>
  res_bind (Js.prop r "snippet") (fun snippet =>
  res_bind (escapeHtml (Js.or snippet (Some (JStr EmptyString)))) (fun snippet_html =>
  Ok (Js.template url, title_html, slice0 200 snippet_html)))))).

(** [appendCitationsToChat(results)] *)
Definition appendCitationsToChat (results : list JSON) : M unit :=
  fun st =>
    match chatWindow st, results with
    | None, _ => (Ok tt, st)
    | Some _, [] => (Ok tt, st)
    | Some nodes, _ :: _ =>
        match res_map citation_item (firstn 5 results) with
        | Throw msg => (Throw msg, st)
        | Ok items => (Ok tt, set_chatWindow (Some (nodes ++ [ChatCitations items])%list) st)
        end
    end.

(** *** Network helpers *)

(** The first of the values that is a non-empty string, as [a || b || ..]
    picks it. *)
Definition truthy_str (s : option string) : bool :=
  match s with
  | Some t => nonEmpty t
  | None => false
  end.

Definition or_str (a b : option string) : option string :=
  if truthy_str a then a else b.

Definition SyntaxError_json : string := "Unexpected token in JSON".

(** [performWebSearch(query)] *)
Definition performWebSearch (env : Env) (query : string) : M (list JSON) :=
  try_catch
    (match or_str (SEARCH_PROXY_URL env) (SEARCH_WORKER_URL env) with
     | Some proxy =>
         if nonEmpty proxy then
           let! r := do_fetch env (PostSearch proxy query) in
           match r with
           | NetworkError msg => throw msg
           | HttpResponse ok _ _ json =>
               if negb ok then ret []
               else
                 match json with
                 | None => throw SyntaxError_json
                 | Some j =>
                     match Js.asArray (Some j) with
                     | Some xs => ret xs
                     | None =>
                         let! results := lift (Js.prop j "results") in
                         match Js.asArray results with
                         | Some xs => ret xs
                         | None => ret []
                         end
                     end
                 end
           end
         else ret []
     | None => ret []
     end)
    (fun _ => ret []).

(** [v[0]] *)
Definition index0 (v : JSON) : JsValue :=
  match v with
  | JArr xs => head xs
  | JStr (String c _) => Some (JStr (String c EmptyString))
  | JObj fields => Js.lookup_field "0" fields
  | _ => None
  end.

(** The reply read from the body of a chat response:
    [data.choices[0].message.content] when that path exists, else the
    whole body pretty-printed. *)
Definition reply_content (data : JSON) : JsValue :=
  let fallback := Some (JStr (Js.JSON_stringify_pretty data)) in
  if negb (Js.truthy (Some data)) then fallback
  else
    match Js.prop data "choices" with
    | Throw _ => fallback
    | Ok choices =>
        match choices with
        | None => fallback
        | Some ch =>
            if negb (Js.truthy choices) then fallback
            else
              match index0 ch with
              | None => fallback
              | Some c0 =>
                  if negb (Js.truthy (Some c0)) then fallback
                  else
                    match Js.prop c0 "message" with
                    | Throw _ => fallback
                    | Ok message =>
                        match message with
                        | None => fallback
                        | Some m =>
                            if negb (Js.truthy message) then fallback
                            else
                              match Js.prop m "content" with
                              | Throw _ => fallback
                              | Ok c => c
                              end
                        end
                    end
              end
        end
    end.

Definition DEFAULT_WORKER_URL : string :=
  "https://lorealroutinebuilder.sherreo99.workers.dev".

(** [callOpenAIWithMessages(messages)] *)
Definition callOpenAIWithMessages (env : Env) (messages : list Message) : M JsValue :=
  let proxyUrl :=
    match or_str (or_str (CF_WORKER_URL env) (CLOUDFLARE_WORKER_URL env))
                 (Some DEFAULT_WORKER_URL) with
    | Some u => u
    | None => EmptyString
    end in
  let! resp :=
          (if nonEmpty proxyUrl
           then do_fetch env (PostMessages proxyUrl messages)
           else
             match or_str (OPENAI_API_KEY env) (OPENAIKEY env) with
             | Some apiKey =>
                 if nonEmpty apiKey
                 then do_fetch env (PostCompletions apiKey messages)
                 else throw "No OpenAI API key found. Provide a worker URL or window.OPENAI_API_KEY."
             | None =>
                 throw "No OpenAI API key found. Provide a worker URL or window.OPENAI_API_KEY."
             end) in
  match resp with
  | NetworkError msg => throw msg
  | HttpResponse ok status txt json =>
      if negb ok
      then throw ("OpenAI API error: " ++ ofZ status ++ " - " ++ txt)
      else
        match json with
        | None => throw SyntaxError_json
        | Some data => ret (reply_content data)
        end
  end.

(** *** The conversation pipeline *)

Definition systemInstruction : Message :=
  mkMessage "system"
    (Some (JStr "You are a helpful skincare, haircare, makeup, and fragrance assistant. Only answer questions related to the provided routine or to topics like skincare, haircare, makeup, fragrance, and related product advice. Use up-to-date, real-world information when available and include links and short citations for any factual claims about current products, releases, or formulations. If the user asks about unrelated topics, politely decline and steer them back to the subject.")).

(** One line group of the block of search results:
    [`${i + 1}. ${r.title || r.url}\n${r.snippet || ""}\n${r.url}`]. *)
Definition format_result (i : nat) (r : JSON) : Res string :=
  res_bind (Js.prop r "title") (fun title =>
  res_bind (Js.prop r "url") (fun url =>
  res_bind (Js.prop r "snippet") (fun snippet =>
  Ok (ofZ (Z.of_nat i + 1) ++ ". " ++ Js.template (Js.or title url) ++ LF
        ++ Js.template (Js.or snippet (Some (JStr EmptyString))) ++ LF
        ++ Js.template url)))).

(** The system message built from a non-empty list of search results. *)
Definition web_results_message (webResults : list JSON) : Res Message :=
  res_bind (res_mapi format_result 0 (firstn 6 webResults)) (fun lines =>
  Ok (mkMessage "system"
        (Some (JStr ("Web search results (top):" ++ LF ++ LF ++ join (LF ++ LF) lines))))).

(** [if (webResults && webResults.length > 0) conversationMessages.push(..)] *)
Definition push_web_results (webResults : list JSON) : M unit :=
  match webResults with
  | [] => ret tt
  | _ :: _ =>
      let! m := lift (web_results_message webResults) in
      modify (fun st => set_conversationMessages (conversationMessages st ++ [m]) st)
  end.

Definition push_message (m : Message) : M unit :=
  modify (fun st => set_conversationMessages (conversationMessages st ++ [m]) st).

(** [if (webResults && webResults.length > 0) appendCitationsToChat(webResults)] *)
Definition show_citations (webResults : list JSON) : M unit :=
  match webResults with
  | [] => ret tt
  | _ :: _ => appendCitationsToChat webResults
  end.

(** Reading a variable or a node. *)
Definition gets {A : Type} (f : State -> A) : M A := fun st => (Ok (f st), st).

(** [if (sendBtn) sendBtn.disabled = b] *)
Definition sendBtn_disable (b : bool) (st : State) : State :=
  match sendBtn st with
  | Some _ => set_sendBtn (Some b) st
  | None => st
  end.

(** The submit handler of [#chatForm]. *)
Definition chatForm_submit (env : Env) : M unit :=
  fun st =>
    match userInput st with
    | None => (Ok tt, st)
    | Some value =>
        let text := trim value in
        if negb (nonEmpty value && nonEmpty text) then (Ok tt, st)
        else if negb (routineGenerated st) then
          appendMessageToChat "assistant"
            (Some (JStr "Please generate a routine first, then ask follow-up questions about it."))
            st
        else
          (do! appendMessageToChat "user" (Some (JStr text)) in
           do! push_message (mkMessage "user" (Some (JStr text))) in
           let! webResults := performWebSearch env (text ++ " L'Oréal") in
           do! push_web_results webResults in
           do! modify (sendBtn_disable true) in
           try_finally
             (try_catch
                (let! messages := gets conversationMessages in
                 let! reply := callOpenAIWithMessages env messages in
                 do! push_message (mkMessage "assistant" reply) in
                 do! appendMessageToChat "assistant" reply in
                 show_citations webResults)
                (fun msg => appendMessageToChat "assistant" (Some (JStr ("Error: " ++ msg)))))
             (fun s => set_userInput (Some EmptyString) (sendBtn_disable false s))) st
    end.

(** The object [{ name, brand, category, description }] of a selected
    product, as [JSON.stringify] sees it: an undefined field is left out. *)
Definition payload_json (p : Product) : JSON :=
  let field (k : string) (v : option string) : list (string * JSON) :=
    match v with
    | Some s => [(k, JStr s)]
    | None => []
    end in
  JObj (field "name" (name p) ++ field "brand" (brand p)
          ++ field "category" (category p) ++ field "description" (description p)).

(** The user message of a generation request. *)
Definition userMsg_of (sel : list Product) : Message :=
  mkMessage "user"
    (Some (JStr ("Here are the selected products in JSON. Use these only and create a short routine (steps, timing, and brief why) formatted as plain text."
                   ++ LF ++ LF ++ Js.JSON_stringify_pretty (JArr (map payload_json sel))))).

(** The click handler of [#generateRoutine]. *)
Definition generateBtn_click (env : Env) : M unit :=
  fun st =>
    match selectedProducts st with
    | [] =>
        appendMessageToChat "assistant"
          (Some (JStr "Please select one or more products first.")) st
    | _ :: _ =>
        let sel := selectedProducts st in
        let userMsg := userMsg_of sel in
        let prevHtml := innerHTML (generateBtn st) in
        (do! modify (set_conversationMessages [systemInstruction]) in
         do! push_message userMsg in
         do! modify (set_generateBtn (mkButton true "Generating…")) in
         do! appendMessageToChat "assistant" (Some (JStr "Generating routine… Please wait.")) in
         try_finally
           (try_catch
              (let productNames := join ", " (map (fun p => or_empty (name p)) sel) in
               let! webResults :=
                 performWebSearch env
                   ("L'Oréal " ++ productNames
                      ++ " routine, product information, releases, or reviews") in
               do! push_web_results webResults in
               let! messages := gets conversationMessages in
               let! content_ := callOpenAIWithMessages env messages in
               do! push_message (mkMessage "assistant" content_) in
               do! modify (set_routineGenerated true) in
               do! appendMessageToChat "assistant" content_ in
               show_citations webResults)
              (fun msg =>
                 appendMessageToChat "assistant"
                   (Some (JStr ("Error generating routine: " ++ msg)))))
           (set_generateBtn (mkButton false prevHtml))) st
    end.

End Client.

(** ** The proxy workers, [search-proxy-worker.js] *)

Module Worker.
Import JsString.

(** *** Data *)

(** What a handler reads of the incoming request: method, path of the URL,
    [Content-Type] header, and the outcome of each way of reading the query
    ([request.json()], [formData().get("q")], [searchParams.get("q")]). *)
Record Request : Type := mkRequest {
  method : string;
  pathname : string;
  content_type : option string;
  json : option JSON;
  form_q : Res (option string);
  search_q : option string
}.

(** A response: status, body ([None] for the empty body of a preflight
    answer) and whether it is labelled [application/json].  Every response
    carries the CORS headers. *)
Record Response : Type := mkResponse {
  status : Z;
  body : option JSON;
  json_content_type : bool
}.

(** A call to a provider.  The temperature of a Responses call is given in
    tenths. *)
Inductive Outbound : Type :=
  | PostResponses (key input : string) (temperature : Z)
  | GetSerpApi (q key : string)
  | GetGoogle (key cx q : string).

Definition is_search_provider (o : Outbound) : bool :=
  match o with
  | PostResponses _ _ t => t =? 0
  | GetSerpApi _ _ => true
  | GetGoogle _ _ _ => true
  end.

(** The bindings of the worker and the network behind it. *)
Record Env : Type := mkEnv {
  OPENAI_API_KEY : option string;
  SERPAPI_KEY : option string;
  GOOGLE_API_KEY : option string;
  GOOGLE_CX : option string;
  fetch : Outbound -> FetchOutcome
}.

(** *** Computations that log their provider calls and may throw *)

Definition W (A : Type) : Type := list Outbound -> Res A * list Outbound.

Definition ret {A : Type} (a : A) : W A := fun log => (Ok a, log).

Definition throw {A : Type} (msg : string) : W A := fun log => (Throw msg, log).

Definition bind {A B : Type} (m : W A) (k : A -> W B) : W B :=
  fun log =>
    match m log with
    | (Ok a, log') => k a log'
    | (Throw msg, log') => (Throw msg, log')
    end.

Notation "'let!' x ':=' m 'in' k" := (bind m (fun x => k))
  (at level 10, x name, m at level 100, k at level 200).

Definition lift {A : Type} (r : Res A) : W A := fun log => (r, log).

Definition try_catch {A : Type} (body_ : W A) (handler : string -> W A) : W A :=
  fun log =>
    match body_ log with
    | (Ok a, log') => (Ok a, log')
    | (Throw msg, log') => handler msg log'
    end.

Definition do_fetch (env : Env) (o : Outbound) : W FetchOutcome :=
  fun log => (Ok (fetch env o), (log ++ [o])%list).

Definition truthy_str (s : option string) : bool :=
  match s with
  | Some t => nonEmpty t
  | None => false
  end.

Definition SyntaxError_json : string := "Unexpected token in JSON".

Definition MISSING_KEY : string := "Missing OPENAI_API_KEY in worker environment".

(** *** The combined worker *)

Section Combined.

(** Lines 63-115 of [doOpenAISearch]: from the parsed body of the provider's
    answer and [max] to the array [results] the function holds before its
    last statement, or an exception.  (Text extraction, [JSON.parse] and the
    matching of the regular expressions of the fall-back are not modelled:
    any behaviour of theirs is an instance.  The literals themselves are
    read in [Loading].) *)
Variable read_results : JSON -> nat -> Res (list JSON).

(** Lines 149-173 of [callOpenAIResponses]: the assistant text read from the
    parsed body; the source catches every exception of this part. *)
Variable assistant_text : JSON -> JsValue.

(** The instruction sent for a search. *)
Definition search_prompt (max : nat) (q : string) : string :=
  "Perform a live web search for the query below and return up to "
    ++ ofZ (Z.of_nat max)
    ++ " results as a JSON array of objects with keys: title, snippet, url."
    ++ LF ++ LF ++ "Query: " ++ q.

(** [doOpenAISearch(q, env, max)], [q] as the prompt prints it. *)
Definition doOpenAISearch (env : Env) (q : string) (max : nat) : W (list JSON) :=
  if negb (truthy_str (OPENAI_API_KEY env)) then throw MISSING_KEY
  else
    let key := Client.or_empty (OPENAI_API_KEY env) in
    let prompt := search_prompt max q in
    let! resp := do_fetch env (PostResponses key prompt 0) in
    match resp with
    | NetworkError msg => throw msg
    | HttpResponse ok st txt j =>
        if negb ok then throw ("OpenAI search error: " ++ ofZ st ++ " - " ++ txt)
        else
          match j with
          | None => throw SyntaxError_json
          | Some j =>
              let! results := lift (read_results j max) in
              ret (firstn max results)
          end
    end.

(** The line a message contributes to the prompt, if any. *)
Definition prompt_part (m : JSON) : Res (option string) :=
  Client.res_bind (Js.prop m "role") (fun role =>
  Client.res_bind (Js.prop m "content") (fun content =>
  match role with
  | Some (JStr r) =>
      if String.eqb r "system" then Ok (Some ("SYSTEM: " ++ Js.template content))
      else if String.eqb r "user" then Ok (Some ("USER: " ++ Js.template content))
      else if String.eqb r "assistant" then Ok (Some ("ASSISTANT: " ++ Js.template content))
      else Ok None
  | _ => Ok None
  end)).

Fixpoint prompt_parts (messages : list JSON) : Res (list string) :=
  match messages with
  | [] => Ok []
  | m :: rest =>
      Client.res_bind (prompt_part m) (fun p =>
      Client.res_bind (prompt_parts rest) (fun ps =>
      Ok (match p with Some l => l :: ps | None => ps end)))
  end.

(** [callOpenAIResponses(messages, env)]: the pair [(raw, text)]. *)
Definition callOpenAIResponses (env : Env) (messages : list JSON) : W (JSON * JsValue) :=
  if negb (truthy_str (OPENAI_API_KEY env)) then throw MISSING_KEY
  else
    let key := Client.or_empty (OPENAI_API_KEY env) in
    let! parts := lift (prompt_parts messages) in
    let input := join (LF ++ LF) parts in
    let! resp := do_fetch env (PostResponses key input 2) in
    match resp with
    | NetworkError msg => throw msg
    | HttpResponse ok st txt j =>
        if negb ok then throw ("OpenAI Responses API error: " ++ ofZ st ++ " - " ++ txt)
        else
          match j with
          | None => throw SyntaxError_json
          | Some j => ret (j, assistant_text j)
          end
    end.

Definition error_body (msg : string) : JSON := JObj [("error", JStr msg)].

(** The top-level [catch]: [err.message || String(err)]. *)
Definition internal_error (msg : string) : Response :=
  mkResponse 500 (Some (error_body (if nonEmpty msg then msg else "Error"))) false.

Definition expected_json : Response :=
  mkResponse 400 (Some (error_body "Expected application/json")) false.

Definition is_json (request : Request) : bool :=
  includes (Client.or_empty (content_type request)) "application/json".

(** The last element of [messages] whose role is [user]:
    [[...messages].reverse().find((m) => m.role === "user")]. *)
Fixpoint find_user (reversed : list JSON) : Res JsValue :=
  match reversed with
  | [] => Ok None
  | m :: rest =>
      Client.res_bind (Js.prop m "role") (fun role =>
      match role with
      | Some (JStr r) => if String.eqb r "user" then Ok (Some m) else find_user rest
      | _ => find_user rest
      end)
  end.

(** The content of the last user turn of [body.messages], or the empty
    string. *)
Definition last_user_content (body_ : JSON) : Res JsValue :=
  Client.res_bind (Js.prop body_ "messages") (fun ms =>
  match Js.asArray ms with
  | Some (m :: l) =>
      Client.res_bind (find_user (rev (m :: l))) (fun lastUser =>
      match lastUser with
      | Some u =>
          Client.res_bind (Js.prop u "content") (fun c =>
          Ok (Js.or c (Some (JStr EmptyString))))
      | None => Ok (Some (JStr EmptyString))
      end)
  | _ => Ok (Some (JStr EmptyString))
  end).

(** The query of a [/chat] request: the trimmed [message] when it is a
    non-empty string, else the content of the last user turn. *)
Definition messageString_of (body_ : JSON) : Res JsValue :=
  Client.res_bind (Js.prop body_ "message") (fun message =>
  match message with
  | Some (JStr (String c s)) => Ok (Some (JStr (trim (String c s))))
  | _ => last_user_content body_
  end).

(** One line group of the block of search results:
    [`${i + 1}. ${r.title}\n${r.snippet}\n${r.url}`]. *)
Definition format_result (i : nat) (r : JSON) : Res string :=
  Client.res_bind (Js.prop r "title") (fun title =>
  Client.res_bind (Js.prop r "snippet") (fun snippet =>
  Client.res_bind (Js.prop r "url") (fun url =>
  Ok (ofZ (Z.of_nat i + 1) ++ ". " ++ Js.template title ++ LF
        ++ Js.template snippet ++ LF ++ Js.template url)))).

Definition system_message (text : string) : JSON :=
  JObj [("role", JStr "system"); ("content", JStr text)].

Definition results_message (formatted : string) : JSON :=
  system_message ("Web search results (top):" ++ LF ++ LF ++ formatted).

Definition failure_message (msg : string) : JSON :=
  system_message ("Web search failed: " ++ msg).

(** The search step of [/chat]: the results kept for the response and the
    transcript with the system message put in front.  An exception of the
    formatting is caught like one of the search, after [webResults] has been
    assigned. *)
Definition search_step (env : Env) (messageString : JsValue) (messages : list JSON)
    : W (list JSON * list JSON) :=
  if Js.truthy messageString then
    try_catch
      (let! webResults := doOpenAISearch env (Js.template messageString) 6 in
       match Client.res_mapi format_result 0 webResults with
       | Throw msg => ret (webResults, failure_message msg :: messages)
       | Ok lines =>
           let formatted := join (LF ++ LF) lines in
           if nonEmpty formatted
           then ret (webResults, results_message formatted :: messages)
           else ret (webResults, messages)
       end)
      (fun msg => ret ([], failure_message msg :: messages))
  else ret ([], messages).

(** The body [{ reply, web_results, openai }]; an undefined reply is left
    out by [JSON.stringify]. *)
Definition chat_body (text : JsValue) (webResults : list JSON) (raw : JSON) : JSON :=
  JObj ((match text with Some t => [("reply", t)] | None => [] end)
          ++ [("web_results", JArr webResults); ("openai", raw)]).

(** The branch [POST /chat]. *)
Definition chat (env : Env) (request : Request) : W Response :=
  if negb (is_json request) then ret expected_json
  else
    match json request with
    | None => throw SyntaxError_json
    | Some body_ =>
        let! ms := lift (Js.prop body_ "messages") in
        let messages := match Js.asArray ms with Some l => l | None => [] end in
        let! messageString := lift (messageString_of body_) in
        let! found := search_step env messageString messages in
        let! openaiResp := callOpenAIResponses env (snd found) in
        ret (mkResponse 200 (Some (chat_body (snd openaiResp) (fst found) (fst openaiResp)))
               true)
    end.

(** [(v || "").toString().trim()] *)
Definition query_text (v : JsValue) : string :=
  trim (Js.template (Js.or v (Some (JStr EmptyString)))).

Definition results_body (results : list JSON) : JSON := JObj [("results", JArr results)].

(** [body.q || body.query || ""] *)
Definition body_q (body_ : JSON) : Res JsValue :=
  Client.res_bind (Js.prop body_ "q") (fun q1 =>
  Client.res_bind (Js.prop body_ "query") (fun q2 =>
  Ok (Js.or (Js.or q1 q2) (Some (JStr EmptyString))))).

(** The branch [POST /search]. *)
Definition search (env : Env) (request : Request) : W Response :=
  if negb (is_json request) then ret expected_json
  else
    match json request with
    | None => throw SyntaxError_json
    | Some body_ =>
        let! v := lift (body_q body_) in
        let q := query_text v in
        if negb (nonEmpty q) then ret (mkResponse 200 (Some (results_body [])) false)
        else
          let! results := doOpenAISearch env q 8 in
          ret (mkResponse 200 (Some (results_body results)) true)
    end.

Definition preflight : Response := mkResponse 204 None false.

(** [fetch(request, env)] of the combined worker, as it is written: the
    response and the provider calls made, in order.  Whether the module
    that exports it is loaded is the matter of [Loading.serve_combined]. *)
Definition fetch_combined (env : Env) (request : Request) : Response * list Outbound :=
  if String.eqb (method request) "OPTIONS" then (preflight, [])
  else
    let path := dropTrailingSlash (pathname request) in
    let route : W Response :=
      if String.eqb (method request) "POST" && endsWith path "/chat" then chat env request
      else if String.eqb (method request) "POST" && endsWith path "/search"
      then search env request
      else ret (mkResponse 404 (Some (error_body "Not found")) false) in
    match route [] with
    | (Ok resp, log) => (resp, log)
    | (Throw msg, log) => (internal_error msg, log)
    end.

End Combined.

(** *** The minimal search worker *)

(** The query as the request carries it. *)
Definition read_q (request : Request) : Res JsValue :=
  if String.eqb (method request) "POST" then
    if is_json request then
      match json request with
      | None => Throw SyntaxError_json
      | Some body_ => body_q body_
      end
    else
      Client.res_bind (form_q request) (fun f =>
      Ok (Some (JStr (if truthy_str f then Client.or_empty f else EmptyString))))
  else Ok (Some (JStr (if truthy_str (search_q request)
                       then Client.or_empty (search_q request) else EmptyString))).

(** [a || b] with the empty string as the last resort. *)
Definition or_text (a : JsValue) : JSON :=
  match Js.or a (Some (JStr EmptyString)) with
  | Some j => j
  | None => JStr EmptyString
  end.

(** The items of a provider answer: [(items || []).slice(0, 6)].  Only an
    array can be sliced and then mapped. *)
Definition first_items (items : JsValue) : Res (list JSON) :=
  if negb (Js.truthy items) then Ok []
  else
    match Js.asArray items with
    | Some xs => Ok (firstn 6 xs)
    | None => Throw Js.TypeError_not_a_function
    end.

Definition serp_result (i : JSON) : Res JSON :=
  Client.res_bind (Js.prop i "title") (fun title =>
  Client.res_bind (Js.prop i "snippet") (fun snippet =>
  Client.res_bind (Js.prop i "description") (fun description =>
  Client.res_bind (Js.prop i "link") (fun link =>
  Client.res_bind (Js.prop i "url") (fun url =>
  Client.res_bind (Js.prop i "source") (fun source =>
  Ok (JObj [("title", or_text title);
            ("snippet", or_text (Js.or snippet description));
            ("url", or_text (Js.or (Js.or link url) source))]))))))).

Definition google_result (i : JSON) : Res JSON :=
  Client.res_bind (Js.prop i "title") (fun title =>
  Client.res_bind (Js.prop i "snippet") (fun snippet =>
  Client.res_bind (Js.prop i "link") (fun link =>
  Client.res_bind (Js.prop i "formattedUrl") (fun formattedUrl =>
  Ok (JObj [("title", or_text title);
            ("snippet", or_text (Js.or snippet snippet));
            ("url", or_text (Js.or link formattedUrl))]))))).

(** The results read from a provider answer: none unless the response is
    [ok]. *)
Definition provider_results (answer : FetchOutcome) (items_of : JSON -> Res JsValue)
    (result_of : JSON -> Res JSON) : Res (list JSON) :=
  match answer with
  | NetworkError msg => Throw msg
  | HttpResponse ok _ _ j =>
      if negb ok then Ok []
      else
        match j with
        | None => Throw SyntaxError_json
        | Some j =>
            Client.res_bind (items_of j) (fun items =>
            Client.res_bind (first_items items) (fun xs =>
            Client.res_map result_of xs))
        end
  end.

Definition serp_items (j : JSON) : Res JsValue :=
  Client.res_bind (Js.prop j "organic_results") (fun a =>
  Client.res_bind (Js.prop j "organic") (fun b =>
  Ok (Js.or (Js.or a b) a))).

Definition google_items (j : JSON) : Res JsValue := Js.prop j "items".

Definition NO_KEY : string :=
  "No search API key configured (SERPAPI_KEY or GOOGLE_API_KEY+GOOGLE_CX).".

(** The body of the [try] of the minimal worker. *)
Definition search_minimal (env : Env) (request : Request) : W Response :=
  let! v := lift (read_q request) in
  let q := query_text v in
  if negb (nonEmpty q) then ret (mkResponse 200 (Some (results_body [])) false)
  else if truthy_str (SERPAPI_KEY env) then
    let! r := do_fetch env (GetSerpApi q (Client.or_empty (SERPAPI_KEY env))) in
    let! results := lift (provider_results r serp_items serp_result) in
    ret (mkResponse 200 (Some (results_body results)) true)
  else if truthy_str (GOOGLE_API_KEY env) && truthy_str (GOOGLE_CX env) then
    let! r := do_fetch env (GetGoogle (Client.or_empty (GOOGLE_API_KEY env))
                              (Client.or_empty (GOOGLE_CX env)) q) in
    let! results := lift (provider_results r google_items google_result) in
    ret (mkResponse 200 (Some (results_body results)) true)
  else ret (mkResponse 400 (Some (error_body NO_KEY)) false).

(** [fetch(request, env)] of the minimal worker. *)
Definition fetch_minimal (env : Env) (request : Request) : Response * list Outbound :=
  if String.eqb (method request) "OPTIONS" then (preflight, [])
  else
    match search_minimal env request [] with
    | (Ok resp, log) => (resp, log)
    | (Throw msg, log) => (internal_error msg, log)
    end.

End Worker.

(** ** Loading the combined worker *)

Module Loading.
Import JsString.

(** A module is parsed as a whole before any of it runs.  A
    regular-expression literal that is not a valid pattern is an early
    error of the parse: the module is not loaded, and exports no handler.
    Of the rules of a pattern, the one embedded here is the rule of a
    character class: the two ends of a range [a-b] are in order.
    (Hexadecimal, Unicode and control-letter escapes, which the literals of
    the workers do not use, are read as the escaped letter.) *)

(** What a character class is made of: a character written as such, or a
    backslash and a character. *)
Inductive ClassAtom : Type :=
  | Plain (c : ascii)
  | Escaped (c : ascii).

(** [\d], [\D], [\s], [\S], [\w] and [\W] stand for a set of characters. *)
Definition is_class_escape (c : ascii) : bool :=
  existsb (Ascii.eqb c) ["d"; "D"; "s"; "S"; "w"; "W"]%char.

(** The code of the character an atom stands for, when it stands for
    one. *)
Definition atom_value (a : ClassAtom) : option nat :=
  match a with
  | Plain c => Some (nat_of_ascii c)
  | Escaped c =>
      if is_class_escape c then None
      else if Ascii.eqb c "t" then Some 9%nat
      else if Ascii.eqb c "n" then Some 10%nat
      else if Ascii.eqb c "v" then Some 11%nat
      else if Ascii.eqb c "f" then Some 12%nat
      else if Ascii.eqb c "r" then Some 13%nat
      else if Ascii.eqb c "b" then Some 8%nat
      else if Ascii.eqb c "0" then Some 0%nat
      else Some (nat_of_ascii c)
  end.

(** The range from [a] to [b] is in order.  A set at an end of a range is
    tolerated by the grammar of the web. *)
Definition range_in_order (a b : ClassAtom) : bool :=
  match atom_value a, atom_value b with
  | Some x, Some y => (x <=? y)%nat
  | _, _ => true
  end.

(** The ranges of a class, read from left to right: an atom, a hyphen and
    an atom make a range. *)
Fixpoint ranges_in_order (atoms : list ClassAtom) : bool :=
  match atoms with
  | [] => true
  | a :: tail =>
      match tail with
      | Plain dash :: b :: rest =>
          if Ascii.eqb dash "-" then range_in_order a b && ranges_in_order rest
          else ranges_in_order tail
      | _ => ranges_in_order tail
      end
  end.

(** A circumflex that opens a class negates it and is no atom. *)
Definition class_atoms (atoms : list ClassAtom) : list ClassAtom :=
  match atoms with
  | Plain c :: rest => if Ascii.eqb c "^" then rest else atoms
  | _ => atoms
  end.

(** The classes of a pattern are closed and their ranges in order.
    [inside] holds the atoms of the class being read, if any. *)
Fixpoint classes_in_order (pattern : string) (inside : option (list ClassAtom)) : bool :=
  match pattern with
  | EmptyString =>
      match inside with
      | None => true
      | Some _ => false
      end
  | String c rest =>
      match inside with
      | None =>
          if Ascii.eqb c "\" then
            match rest with
            | String _ rest' => classes_in_order rest' None
            | EmptyString => false
            end
          else if Ascii.eqb c "[" then classes_in_order rest (Some [])
          else classes_in_order rest None
      | Some atoms =>
          if Ascii.eqb c "\" then
            match rest with
            | String e rest' => classes_in_order rest' (Some (atoms ++ [Escaped e])%list)
            | EmptyString => false
            end
          else if Ascii.eqb c "]"
          then ranges_in_order (class_atoms atoms) && classes_in_order rest None
          else classes_in_order rest (Some (atoms ++ [Plain c])%list)
      end
  end.

Definition pattern_ok (pattern : string) : bool := classes_in_order pattern None.

(** The four regular-expression literals of the module of the combined
    worker: lines 97, 104 and 108 (in [doOpenAISearch]) and 185 (in
    [fetch]).  The module of the minimal worker has none. *)
Definition JSON_ARRAY_PATTERN : string := "\[\s*{[\s\S]*}\s*\]".
Definition LINES_PATTERN : string := "\n+".
Definition URL_PATTERN : string := "https?:\/\/[\w./?&=%-#]+".
Definition TRAILING_SLASH_PATTERN : string := "\/$".

Definition COMBINED_PATTERNS : list string :=
  [JSON_ARRAY_PATTERN; LINES_PATTERN; URL_PATTERN; TRAILING_SLASH_PATTERN].


Definition loads (patterns : list string) : bool := forallb pattern_ok patterns.

(** The combined worker as it is deployed: a request is answered by
    [fetch] when the module has loaded.  When it has not, no handler runs:
    the request gets no response of the worker and no provider is
    called. *)
Definition serve_combined (read_results : JSON -> nat -> Res (list JSON))
    (assistant_text : JSON -> JsValue) (env : Worker.Env) (request : Worker.Request)
    : option Worker.Response * list Worker.Outbound :=
  if loads COMBINED_PATTERNS then
    (Some (fst (Worker.fetch_combined read_results assistant_text env request)),
     snd (Worker.fetch_combined read_results assistant_text env request))
  else (None, []).


End Loading.

(** ** The properties, as the specification words them *)

Module Spec.
Import JsString Client.

(** The value stored under the key is the JSON array of the ids of the
    current selection, in its order. *)
Definition persisted (st : State) : Prop :=
  localStorage st !! STORAGE_KEY
    = Some (Js.JSON_stringify (ids_json (selectedProducts st))).

(** The selection after a toggle of a card whose product the map knows:
    the product is appended when no selected product has its id, else the
    first selected product with that id is removed. *)
Definition toggled (k : Z) (product : Product) (sel : list Product) : list Product :=
  match findIndex (fun p => id p =? k) sel with
  | None => (sel ++ [product])%list
  | Some index => delete index sel
  end.

(** The ids of the selection, in its order. *)
Definition selected_ids (st : State) : list Z := map id (selectedProducts st).

(** The id-to-product map holds each product under its own id. *)
Definition byId_consistent (st : State) : Prop :=
  forall k p, productsById st !! k = Some p -> id p = k.

(** The invariants of the selection with respect to a catalog: no
    duplicate ids, and every selected id is the id of a product of the
    catalog.  With them, what the selection is fed from: the id-to-product
    map holds products of the catalog under their ids, and [allProducts]
    is empty or the catalog. *)
Record SelectionInv (catalog : list Product) (st : State) : Prop := mkSelectionInv {
  inv_nodup : NoDup (selected_ids st);
  inv_known : forall p, p ∈ selectedProducts st -> id p ∈ map id catalog;
  inv_byId : forall k p, productsById st !! k = Some p -> id p = k /\ p ∈ catalog;
  inv_all : allProducts st = [] \/ allProducts st = catalog
}.

(** What the storage holds under the key reads as a list of distinct integer
    ids, when it reads as a list at all. *)
Definition is_id (v : JSON) : Prop := exists n, v = JNum n.

Definition stored_ids_distinct (parse : string -> option JSON) (st : State) : Prop :=
  forall raw ids,
    localStorage st !! STORAGE_KEY = Some raw -> parse raw = Some (JArr ids) ->
    NoDup ids /\ Forall is_id ids.

(** [name] contains [term] case-insensitively. *)
Definition contains_ci (name_ term : string) : Prop :=
  exists pre post, toLowerCase name_ = (pre ++ toLowerCase term ++ post)%string.

(** A product passes the filter for a category value and a search term:
    its category is the value (any product when the value is empty) and its
    name contains the term case-insensitively. *)
Definition passes (selectedCategory term : string) (p : Product) : Prop :=
  (selectedCategory = EmptyString \/ category p = Some selectedCategory)
  /\ contains_ci (or_empty (name p)) term.

(** The same, as a test. *)
Definition passesb (selectedCategory term : string) (p : Product) : bool :=
  (negb (nonEmpty selectedCategory)
   || match category p with
      | Some c => String.eqb c selectedCategory
      | None => false
      end)
  && includes (toLowerCase (or_empty (name p))) (toLowerCase term).

(** The value of the search box, empty when the page has none. *)
Definition search_value (st : State) : string := or_empty (productSearch st).

(** The search proxy the page is configured with, if any. *)
Definition search_proxy (env : Env) : option string :=
  match or_str (SEARCH_PROXY_URL env) (SEARCH_WORKER_URL env) with
  | Some proxy => if nonEmpty proxy then Some proxy else None
  | None => None
  end.

(** The result list in a well-formed body of the search proxy: the body
    itself when it is an array, its [results] field when the body is an
    object and the field an array; the empty list for any other body. *)
Definition results_of_body (j : JSON) : list JSON :=
  match j with
  | JArr xs => xs
  | JObj fields =>
      match Js.lookup_field "results" fields with
      | Some (JArr xs) => xs
      | _ => []
      end
  | _ => []
  end.

(** What a search is to return for an answer of the proxy: nothing for a
    rejected call, a status outside 2xx or a body that does not parse. *)
Definition proxy_results (answer : FetchOutcome) : list JSON :=
  match answer with
  | NetworkError _ => []
  | HttpResponse ok _ _ j =>
      if ok then match j with Some j => results_of_body j | None => [] end else []
  end.

(** The state after a call has been logged. *)
Definition logged (rq : Request) (st : State) : State :=
  set_netlog (netlog st ++ [mkNetCall rq (sendBtn st) (disabled (generateBtn st))]) st.

(** The results of a search and the state after it, in one environment. *)
Definition search_results (env : Env) (query : string) : list JSON :=
  match search_proxy env with
  | Some proxy => proxy_results (fetch env (PostSearch proxy query))
  | None => []
  end.

Definition after_search (env : Env) (query : string) (st : State) : State :=
  match search_proxy env with
  | Some proxy => logged (PostSearch proxy query) st
  | None => st
  end.

(** The request of a chat call, and the reply read from its answer. *)
Definition chat_request (env : Env) (messages : list Message) : Res Request :=
  match or_str (or_str (CF_WORKER_URL env) (CLOUDFLARE_WORKER_URL env))
               (Some DEFAULT_WORKER_URL) with
  | Some (String c u) => Ok (PostMessages (String c u) messages)
  | _ =>
      match or_str (OPENAI_API_KEY env) (OPENAIKEY env) with
      | Some (String c k) => Ok (PostCompletions (String c k) messages)
      | _ => Throw "No OpenAI API key found. Provide a worker URL or window.OPENAI_API_KEY."
      end
  end.

Definition reply_of (answer : FetchOutcome) : Res JsValue :=
  match answer with
  | NetworkError msg => Throw msg
  | HttpResponse ok status_ txt j =>
      if ok then
        match j with
        | Some data => Ok (reply_content data)
        | None => Throw SyntaxError_json
        end
      else Throw ("OpenAI API error: " ++ ofZ status_ ++ " - " ++ txt)%string
  end.

Definition chat_reply (env : Env) (messages : list Message) : Res JsValue :=
  res_bind (chat_request env messages) (fun rq => reply_of (fetch env rq)).

Definition after_chat (env : Env) (messages : list Message) (st : State) : State :=
  match chat_request env messages with
  | Ok rq => logged rq st
  | Throw _ => st
  end.

(** The system entry a search contributes to the transcript: none without
    results, else the block of the first six. *)
Definition web_entries (webResults : list JSON) : Res (list Message) :=
  match webResults with
  | [] => Ok []
  | _ :: _ => res_bind (web_results_message webResults) (fun m => Ok [m])
  end.

(** The query of the search that precedes a generation. *)
Definition generate_query (sel : list Product) : string :=
  ("L'Oréal " ++ join ", " (map (fun p => or_empty (name p)) sel)
     ++ " routine, product information, releases, or reviews")%string.

(** The query of the search that precedes a follow-up. *)
Definition followup_query (text : string) : string := (text ++ " L'Oréal")%string.

(** What a generation with a non-empty selection does to everything but
    the chat window: the transcript is reset, the button disabled, the
    search and the chat call made and logged, the reply recorded, the
    button restored. *)
Definition generate_effect (env : Env) (st : State) : State :=
  let sel := selectedProducts st in
  let q := generate_query sel in
  let st1 :=
    set_generateBtn (mkButton true "Generating…")
      (set_conversationMessages [systemInstruction; userMsg_of sel] st) in
  let st2 := after_search env q st1 in
  let st3 :=
    match web_entries (search_results env q) with
    | Throw _ => st2
    | Ok web =>
        let msgs := (conversationMessages st2 ++ web)%list in
        let st3 := after_chat env msgs (set_conversationMessages msgs st2) in
        match chat_reply env msgs with
        | Throw _ => st3
        | Ok c =>
            set_routineGenerated true
              (set_conversationMessages (msgs ++ [mkMessage "assistant" c]) st3)
        end
    end in
  set_generateBtn (mkButton false (innerHTML (generateBtn st))) st3.

(** What a follow-up with the question [text] does to everything but the
    chat window, once a routine has been generated. *)
Definition followup_effect (env : Env) (text : string) (st : State) : State :=
  let q := followup_query text in
  let st1 :=
    set_conversationMessages
      (conversationMessages st ++ [mkMessage "user" (Some (JStr text))]) st in
  let st2 := after_search env q st1 in
  match web_entries (search_results env q) with
  | Throw _ => st2
  | Ok web =>
      let msgs := (conversationMessages st2 ++ web)%list in
      let st3 := after_chat env msgs (sendBtn_disable true (set_conversationMessages msgs st2)) in
      let st4 :=
        match chat_reply env msgs with
        | Throw _ => st3
        | Ok c => set_conversationMessages (msgs ++ [mkMessage "assistant" c]) st3
        end in
      set_userInput (Some EmptyString) (sendBtn_disable false st4)
  end.

(** The log entry of the search, and of the chat call, as issued from a
    state. *)
Definition search_call (env : Env) (query : string) (st : State) : list NetCall :=
  match search_proxy env with
  | Some proxy => [mkNetCall (PostSearch proxy query) (sendBtn st) (disabled (generateBtn st))]
  | None => []
  end.

Definition chat_call (env : Env) (messages : list Message) (st : State) : list NetCall :=
  match chat_request env messages with
  | Ok rq => [mkNetCall rq (sendBtn st) (disabled (generateBtn st))]
  | Throw _ => []
  end.

(** A call to the chat proxy or to the provider, as opposed to a search. *)
Definition is_chat_call (c : NetCall) : bool :=
  match call_request c with
  | PostSearch _ _ => false
  | _ => true
  end.

(** The notice of a generation without selection. *)
Definition select_first_notice : ChatNode :=
  ChatMsg "chat-msg assistant-msg" "Advisor" "Please select one or more products first.".

(** A call of the log was issued while the control of the follow-up form
    was enabled. *)
Definition issued_with_send_enabled (c : NetCall) : Prop :=
  call_sendBtn_disabled c = Some false.

(** *** What a template literal can print *)

(** [String(v)], which a template literal applies, throws for an object
    that holds a key [toString]: the value under it, read from JSON, is no
    function.  It throws for an array with such an element too.  The
    embedding prints every value; the statements about printed results are
    about the values the code prints. *)
Fixpoint printable (j : JSON) : bool :=
  match j with
  | JObj fields => negb (existsb (fun kv => String.eqb (fst kv) "toString") fields)
  | JArr xs => forallb printable xs
  | _ => true
  end.

Definition prints (v : JsValue) : bool :=
  match v with
  | Some j => printable j
  | None => true
  end.

(** A search result the block of results can show: it is not [null], and
    its title, its URL and its snippet can be printed. *)
Definition formattable (r : JSON) : bool :=
  match r with
  | JNull => false
  | JObj fields =>
      prints (Js.lookup_field "title" fields) && prints (Js.lookup_field "url" fields)
      && prints (Js.lookup_field "snippet" fields)
  | _ => true
  end.

(** *** The entries of the transcript *)







End Spec.

(** ** The properties of the workers, as the specification words them *)

Module WorkerSpec.
Import JsString Worker.

(** [v.k] of a value that is not [null]. *)
Definition field (v : JSON) (k : string) : JsValue :=
  match v with
  | JObj fields => Js.lookup_field k fields
  | _ => None
  end.

(** The turn [m] has the role [user]. *)
Definition is_user (m : JSON) : bool :=
  match field m "role" with
  | Some (JStr r) => String.eqb r "user"
  | _ => false
  end.

(** The label of a turn in the prompt: its role in capitals, for the three
    roles of a transcript. *)
Definition role_label (m : JSON) : option string :=
  match field m "role" with
  | Some (JStr r) =>
      if String.eqb r "system" then Some "SYSTEM"
      else if String.eqb r "user" then Some "USER"
      else if String.eqb r "assistant" then Some "ASSISTANT"
      else None
  | _ => None
  end.

(** The line [ROLE: content] of a turn. *)
Definition line_of (m : JSON) : option string :=
  match role_label m with
  | Some label => Some (label ++ ": " ++ Js.template (field m "content"))
  | None => None
  end.

(** A transcript as one prompt: its lines, in order, a blank line between
    two of them. *)
Definition flatten (messages : list JSON) : string :=
  join (LF ++ LF) (omap line_of messages).

(** The text of the result numbered [i + 1]. *)
Definition result_text (i : nat) (r : JSON) : string :=
  ofZ (Z.of_nat i + 1) ++ ". " ++ Js.template (field r "title") ++ LF
    ++ Js.template (field r "snippet") ++ LF ++ Js.template (field r "url").

Fixpoint result_texts (i : nat) (results : list JSON) : list string :=
  match results with
  | [] => []
  | r :: rest => result_text i r :: result_texts (S i) rest
  end.

(** The system message that carries a block of results. *)
Definition results_block (results : list JSON) : JSON :=
  results_message (join (LF ++ LF) (result_texts 0 results)).

(** The transcript a [/chat] body carries: its [messages] when that is an
    array, else none. *)
Definition transcript_of (fields : list (string * JSON)) : list JSON :=
  match Js.asArray (Js.lookup_field "messages" fields) with
  | Some l => l
  | None => []
  end.

(** The value is not [null], so that its properties can be read. *)
Definition not_null (v : JSON) : bool :=
  match v with
  | JNull => false
  | _ => true
  end.

End WorkerSpec.

(** ** A small catalog and page, for the examples *)

Module Sample.
Import Client.

Definition gel : Product :=
  mkProduct 1 (Some "Gel") (Some "CeraVe") (Some "cleanser") (Some "Foaming gel") None.

Definition cream : Product :=
  mkProduct 2 (Some "Cream") (Some "CeraVe") (Some "moisturizer") (Some "Rich cream") None.

Definition catalog : list Product := [gel; cream].

(** No configuration on [window], a catalog behind [products.json], a
    storage that accepts writes, and a network that answers [answer]. *)
Definition env_with (search_proxy : option string) (answer : Request -> FetchOutcome) : Env :=
  mkEnv None None None None search_proxy None (Some catalog) true answer.

Definition offline : Request -> FetchOutcome := fun _ => NetworkError "Failed to fetch".

Definition env0 : Env := env_with None offline.

(** The page as the script finds it. *)
Definition blank : State :=
  mkState [] ∅ [] [] false ∅ []
    (GridPlaceholder "Select a category to view products")
    (Some TrayPlaceholder) (Some []) (Some EmptyString) (Some EmptyString)
    (Some EmptyString) (Some false) (mkButton false "Generate Routine").

(** A parser of stored id lists good enough for the examples: it knows the
    texts the examples store. *)
Definition parse_sample (raw : string) : option JSON :=
  if String.eqb raw "[1]" then Some (JArr [JNum 1])
  else if String.eqb raw "[2]" then Some (JArr [JNum 2])
  else if String.eqb raw "[1,2]" then Some (JArr [JNum 1; JNum 2])
  else if String.eqb raw "[1,1]" then Some (JArr [JNum 1; JNum 1])
  else if String.eqb raw "[]" then Some (JArr [])
  else None.

(** The page as the script finds it when an earlier visit left [raw] under
    the storage key. *)
Definition revisited (raw : string) : State :=
  set_localStorage {[ STORAGE_KEY := raw ]} blank.

(** A catalog in which two products carry the id 1. *)
Definition gel_mini : Product :=
  mkProduct 1 (Some "Gel Mini") (Some "CeraVe") (Some "cleanser") (Some "Travel size") None.

Definition twins : list Product := [gel; gel_mini].

Definition env_twins : Env :=
  mkEnv None None None None None None (Some twins) true offline.

(** The page after [init], with [v] typed in the search box. *)
Definition searching (v : string) : State :=
  set_productSearch (Some v) (init parse_sample env0 blank).

(** The page after [init]: the whole catalog is shown. *)
Definition loaded : State := init parse_sample env0 blank.

(** Gel selected. *)
Definition gel_selected : State := toggleSelection env0 0 loaded.

(** Gel, then cream selected. *)
Definition both_selected : State := toggleSelection env0 1 gel_selected.

(** A search proxy that finds one page and a chat proxy that answers. *)
Definition search_hit : JSON :=
  JObj [("title", JStr "Gel review"); ("snippet", JStr "A gentle cleanser");
        ("url", JStr "https://example.com/gel")].

Definition chat_ok (text : string) : FetchOutcome :=
  HttpResponse true 200 EmptyString
    (Some (JObj [("choices", JArr [JObj [("message", JObj [("content", JStr text)])]])])).

Definition answers (rq : Request) : FetchOutcome :=
  match rq with
  | PostSearch _ _ =>
      HttpResponse true 200 EmptyString (Some (JObj [("results", JArr [search_hit])]))
  | _ => chat_ok "Use the gel first."
  end.

(** The page configured with a search proxy, and without one. *)
Definition env_search : Env := env_with (Some "https://search.example/search") answers.


(** The page after a routine has been generated for gel, with a search
    proxy and without one, and then with a question typed in. *)
Definition generated : State := snd (generateBtn_click env_search gel_selected).


Definition asking (value : string) (st : State) : State := set_userInput (Some value) st.


Definition hit (n : Z) : JSON :=
  JObj [("title", JStr ("Page " ++ JsString.ofZ n)); ("snippet", JStr "About the serum");
        ("url", JStr ("https://example.com/" ++ JsString.ofZ n))].

Definition eight_hits : list JSON := map hit [1; 2; 3; 4; 5; 6; 7; 8].

Definition with_key : Worker.Env :=
  Worker.mkEnv (Some "sk-test") None None None
    (fun o =>
       match o with
       | Worker.PostResponses _ _ 0 => HttpResponse true 200 EmptyString (Some (JArr eight_hits))
       | _ => HttpResponse true 200 EmptyString (Some (JObj [("output_text", JStr "Twice a day.")]))
       end).

(** Stand-ins for the two parts of the combined worker that are not
    modelled: the results are the array the provider answered, the
    assistant text its [output_text]. *)
Definition read_results (j : JSON) (max : nat) : Res (list JSON) :=
  match j with
  | JArr xs => Ok xs
  | _ => Ok []
  end.

Definition assistant_text (j : JSON) : JsValue := WorkerSpec.field j "output_text".

Definition post (path : string) (body_ : JSON) : Worker.Request :=
  Worker.mkRequest "POST" path (Some "application/json") (Some body_)
    (Throw "not a form") None.

Definition turn (role_ content_ : string) : JSON :=
  JObj [("role", JStr role_); ("content", JStr content_)].

Definition chat_request : Worker.Request :=
  post "/chat" (JObj [("messages", JArr [turn "user" "Which serum?"; turn "assistant" "The blue one.";
                                          turn "user" "How often?"])]).

End Sample.

(** ** More of the page script *)

Module Events.
Import JsString Client.

(** The click handler of a chip of the tray, for a click outside its
    remove control: the category filter is emptied and the grid updated (the
    update is not awaited; the scrolling to the card and its highlight,
    which follow on timers, are not modelled). *)
Definition chipClick (env : Env) (st : State) : State :=
  let st1 :=
    match categoryFilter st with
    | Some _ => set_categoryFilter (Some EmptyString) st
    | None => st
    end in
  first_grid_update env st1.

End Events.

(** ** Further properties of the page *)

Module PageSpec.
Import JsString Client Spec.

(** The transcript is empty and no routine has been generated, or it starts
    with the system instruction. *)
Definition transcript_ok (st : State) : Prop :=
  match conversationMessages st with
  | [] => routineGenerated st = false
  | m :: _ => m = systemInstruction
  end.

(** A product with the id [k] is selected. *)
Definition is_selected (k : Z) (sel : list Product) : bool :=
  some (fun p => id p =? k) sel.

(** Every card of the grid carries the class [selected] exactly when its
    product is in the selection, and no two cards show the same id. *)
Record GridInv (st : State) : Prop := mkGridInv {
  grid_nodup : NoDup (map card_id (grid_cards (productsContainer st)));
  grid_marks :
    Forall (fun c => card_selected c = is_selected (card_id c) (selectedProducts st))
           (grid_cards (productsContainer st));
  grid_known :
    Forall (fun c => productsById st !! card_id c = Some (card_product c))
           (grid_cards (productsContainer st))
}.


(** The environment with a storage that refuses every write (a full or a
    disabled storage). *)
Definition refusing (env : Env) : Env :=
  mkEnv (CF_WORKER_URL env) (CLOUDFLARE_WORKER_URL env) (OPENAI_API_KEY env) (OPENAIKEY env)
    (SEARCH_PROXY_URL env) (SEARCH_WORKER_URL env) (products_json env) false (fetch env).


(** A character that opens or closes a tag or an attribute value. *)
Definition is_markup (c : ascii) : bool :=
  let n := nat_of_ascii c in
  (n =? 60)%nat || (n =? 62)%nat || (n =? 34)%nat || (n =? 39)%nat.

Fixpoint chars (s : string) : list ascii :=
  match s with
  | EmptyString => []
  | String c r => c :: chars r
  end.

(** A text of ASCII characters: on such a text the lower-casing, the
    trimming and the counting of characters of JavaScript are those of the
    embedding. *)
Definition ascii_only (s : string) : bool :=
  forallb (fun c => (nat_of_ascii c <? 128)%nat) (chars s).



End PageSpec.

(** ** Further properties of the workers, and of the page with them *)

Module ProxySpec.
Import JsString Worker.

(** A call to the provider that carries the configured key. *)
Definition keyed (env : Env) (o : Outbound) : Prop :=
  exists input t, o = PostResponses (Client.or_empty (OPENAI_API_KEY env)) input t.

(** What the [fetch] of the page sees of a response of a worker: [ok] for a
    status from 200 to 299, the status, the text of the body and the
    document it parses to. *)
Definition delivered (r : Response) : FetchOutcome :=
  HttpResponse ((200 <=? status r) && (status r <=? 299)) (status r)
    (match body r with Some b => Js.JSON_stringify b | None => EmptyString end)
    (body r).

(** The request [performWebSearch] sends to its proxy, as a worker at
    [path] receives it: a POST of [{ q }] labelled [application/json]. *)
Definition search_request (path q : string) : Request :=
  mkRequest "POST" path (Some "application/json") (Some (JObj [("q", JStr q)]))
    (Throw "not a form") None.

(** A request with another path. *)
Definition at_path (path : string) (request : Request) : Request :=
  mkRequest (method request) path (content_type request) (json request)
    (form_q request) (search_q request).

(** The list under the key [k] of a response body. *)
Definition listed (k : string) (r : Response) : option (list JSON) :=
  match body r with
  | Some (JObj fields) => Js.asArray (Js.lookup_field k fields)
  | _ => None
  end.

(** An answer to a search: the list [rs] under [results] with the status
    200, or an error body with the status 400, 404 or 500, for which [rs]
    is empty. *)
Definition search_answer (r : Response) (rs : list JSON) : Prop :=
  (status r = 200 /\ body r = Some (results_body rs))
  \/ ((status r = 400 \/ status r = 404 \/ status r = 500)
      /\ rs = [] /\ exists msg, body r = Some (error_body msg)).

End ProxySpec.

(** ** The markup of the cards *)

Module Markup.
Import JsString Client.

(** [s.slice(a, b)] for [a <= b]; the end is clamped to the length. *)
Definition slice (a b : nat) (s : string) : string := String.substring a (b - a) s.

(** [s.indexOf(t, pos)], searched from the index [i] of the text whose
    rest is [s]; [None] is [-1]. *)
Fixpoint indexOf_from (s t : string) (i : nat) : option nat :=
  if startsWith s t then Some i
  else
    match s with
    | EmptyString => None
    | String _ s' => indexOf_from s' t (S i)
    end.

Definition indexOf (s t : string) (pos : nat) : option nat :=
  let start := Nat.min pos (String.length s) in
  indexOf_from (slice start (String.length s) s) t start.

Definition MARK_OPEN : string := "<mark class=" ++ DQUOTE ++ "search-hit" ++ DQUOTE ++ ">".
Definition MARK_CLOSE : string := "</mark>".

(** The loop of [highlightMatch]: [fuel] bounds the number of turns. *)
Fixpoint highlight_loop (fuel : nat) (text lower t : string) (pos : nat) (out : string)
    : option string :=
  match fuel with
  | O => None
  | S fuel' =>
      match indexOf lower t pos with
      | None => Some (out ++ escape_chars (slice pos (String.length text) text))
      | Some idx =>
          highlight_loop fuel' text lower t (idx + String.length t)
            (out ++ escape_chars (slice pos idx text)
                 ++ MARK_OPEN
                 ++ escape_chars (slice idx (idx + String.length t) text)
                 ++ MARK_CLOSE)
      end
  end.

(** [highlightMatch(text, term)] for a text that is a string; each turn of
    the loop moves on by the length of the term, so that one turn more than
    the text has characters is enough.  [None] stands for a loop that has
    not ended within that bound. *)
Definition highlightMatch (text term : string) : option string :=
  if negb (nonEmpty term) then Some (escape_chars text)
  else
    highlight_loop (S (String.length text)) text (toLowerCase text) (toLowerCase term)
      0 EmptyString.

(** A card as [displayProducts] writes it: the class [selected] and
    [aria-pressed], [data-id], the source and the alternative text of the
    image, the title with its highlights, the brand, and the label of the
    button. *)
Record CardView : Type := mkCardView {
  view_selected : bool;
  view_id : Z;
  view_src : string;
  view_alt : string;
  view_title : string;
  view_brand : string;
  view_label : string
}.

(** A field of a product as the value [escapeHtml] receives. *)
Definition str_value (s : option string) : JsValue :=
  match s with
  | Some t => Some (JStr t)
  | None => None
  end.

(** The markup of one card.  [escapeHtml(product.name)] throws for a
    product without a name. *)
Definition render_card (currentSearch : string) (sel : list Product) (product : Product)
    : Res CardView :=
  let isSelected := some (fun p => id p =? id product) sel in
  match highlightMatch (or_empty (name product)) currentSearch with
  | None => Throw "highlightMatch does not return"
  | Some titleHtml =>
      res_bind (escapeHtml (str_value (name product))) (fun alt =>
      res_bind (escapeHtml (Some (JStr (or_empty (brand product))))) (fun brandHtml =>
      res_bind (escapeHtml (str_value (name product))) (fun label =>
      Ok (mkCardView isSelected (id product) (template_str (image product)) alt
            titleHtml brandHtml ("Learn more about " ++ label)))))
  end.

(** [displayProducts(products)] with the markup: the id-to-product map is
    rebuilt first; the cards replace the content of the grid only when the
    markup of every card could be written. *)
Definition displayProducts_markup (products : list Product) : M (list CardView) :=
  fun st =>
    let currentSearch :=
      match productSearch st with
      | Some v => if nonEmpty v then trim v else EmptyString
      | None => EmptyString
      end in
    match res_map (render_card currentSearch (selectedProducts st)) products with
    | Throw msg =>
        (Throw msg,
         set_productsById
           (foldl (fun m p => <[id p := p]> m) (∅ : gmap Z Product) products) st)
    | Ok views => (Ok views, displayProducts products st)
    end.

(** [out] is [text] with the occurrences of [t], compared in lower case,
    wrapped in marks from left to right: between two marks, and after the
    last, [t] does not occur. *)
Inductive Highlighted (t : string) : string -> string -> Prop :=
  | HL_none (text : string) :
      includes (toLowerCase text) t = false ->
      Highlighted t text (escape_chars text)
  | HL_hit (pre hit rest out : string) :
      includes (toLowerCase pre) t = false ->
      toLowerCase hit = t ->
      Highlighted t rest out ->
      Highlighted t (pre ++ hit ++ rest)
        (escape_chars pre ++ MARK_OPEN ++ escape_chars hit ++ MARK_CLOSE ++ out).

End Markup.

(** ** The text of an answer of the Responses API *)

Module Responses.
Import JsString Worker WorkerSpec.

(** [v === t] for a string [t]. *)
Definition is_text (v : JsValue) (t : string) : bool :=
  match v with
  | Some (JStr s) => String.eqb s t
  | _ => false
  end.

(** What an element [c] of the [content] array of an [output_text] item
    adds to the text: [c.text] and a line feed when [c] is truthy, of type
    [output_text] and with a truthy text; [c] and a line feed when [c] is a
    string; nothing otherwise. *)
Definition content_piece (c : JSON) : string :=
  if Js.truthy (Some c) && is_text (field c "type") "output_text"
     && Js.truthy (field c "text")
  then Js.template (field c "text") ++ LF
  else
    match c with
    | JStr s => s ++ LF
    | _ => EmptyString
    end.

(** [(c) => c.text || (empty string)], an element of the array that is joined. *)
Definition message_part (c : JSON) : Res string :=
  Client.res_bind (Js.prop c "text") (fun text =>
  Ok (if Js.truthy text then Js.template text else EmptyString)).

(** What an element [o] of [j.output] adds to the text. *)
Definition output_piece (o : JSON) : Res string :=
  Client.res_bind (Js.prop o "type") (fun type_ =>
  if is_text type_ "output_text" then
    match field o "content" with
    | Some (JStr s) => Ok (s ++ LF)
    | Some (JArr cs) => Ok (join EmptyString (map content_piece cs))
    | _ =>
        if Js.truthy (field o "text") then Ok (Js.template (field o "text") ++ LF)
        else Ok EmptyString
    end
  else if is_text type_ "message" && Js.truthy (field o "content") then
    match field o "content" with
    | Some (JArr cs) =>
        Client.res_bind (Client.res_map message_part cs) (fun parts =>
        Ok (join LF parts ++ LF))
    | _ => Throw Js.TypeError_not_a_function
    end
  else Ok EmptyString).

(** Lines 149-173 of [callOpenAIResponses]: the assistant text read from
    the parsed body [j]; any exception gives [JSON.stringify(j)]. *)
Definition assistantText_of (j : JSON) : JsValue :=
  let fallback := Some (JStr (Js.JSON_stringify j)) in
  match Js.prop j "output" with
  | Throw _ => fallback
  | Ok (Some (JArr (o :: os))) =>
      match Client.res_map output_piece (o :: os) with
      | Ok pieces => Some (JStr (join EmptyString pieces))
      | Throw _ => fallback
      end
  | Ok _ =>
      if Js.truthy (field j "output_text") then field j "output_text"
      else Some (JStr EmptyString)
  end.

(** An item of the output as the Responses API writes it: a message whose
    content is a list of texts. *)
Definition text_part (t : string) : JSON :=
  JObj [("type", JStr "output_text"); ("text", JStr t)].

Definition message_item (ts : list string) : JSON :=
  JObj [("type", JStr "message"); ("content", JArr (map text_part ts))].

End Responses.

(** ** Text direction *)

Module Direction.
Import JsString.

(** What [detectAndApplyRTL] reads and writes: the [lang] attribute of the
    document element (empty when absent), the language of the browser, the
    [dir] attribute and the classes of the document element. *)
Record Document : Type := mkDocument {
  lang : string;
  navigator_language : string;
  dir : option string;
  classList : list string
}.

Definition RTL_LANGS : list string :=
  ["ar"; "he"; "fa"; "ur"; "ps"; "sd"; "ug"; "yi"; "dv"].

(** [s.split("-")[0]] *)
Fixpoint before_hyphen (s : string) : string :=
  match s with
  | EmptyString => EmptyString
  | String c r => if Ascii.eqb c "-" then EmptyString else String c (before_hyphen r)
  end.

(** [list.includes(x)] *)
Definition list_includes (l : list string) (x : string) : bool :=
  existsb (String.eqb x) l.

(** [classList.add(token)] and [classList.remove(token)] *)
Definition classList_add (token : string) (l : list string) : list string :=
  if list_includes l token then l else (l ++ [token])%list.

Definition classList_remove (token : string) (l : list string) : list string :=
  List.filter (fun t => negb (String.eqb t token)) l.

(** [detectAndApplyRTL] *)
Definition detectAndApplyRTL (d : Document) : Document :=
  let docLang :=
    toLowerCase (if nonEmpty (lang d) then lang d else navigator_language d) in
  let lang_ := before_hyphen docLang in
  if list_includes RTL_LANGS lang_
  then mkDocument (lang d) (navigator_language d) (Some "rtl")
         (classList_add "rtl" (classList d))
  else mkDocument (lang d) (navigator_language d) (Some "ltr")
         (classList_remove "rtl" (classList d)).

(** The language tag the detection works on. *)
Definition language_tag (d : Document) : string :=
  if nonEmpty (lang d) then lang d else navigator_language d.

(** The language is one of those written from right to left. *)
Definition is_rtl (d : Document) : bool :=
  list_includes RTL_LANGS (before_hyphen (toLowerCase (language_tag d))).

(** The document with another [lang] attribute. *)
Definition with_lang (tag : string) (d : Document) : Document :=
  mkDocument tag (navigator_language d) (dir d) (classList d).

End Direction.

(** ** The product overlay *)

Module Overlay.
Import JsString Client.

(** The elements that take the focus: the Learn-more button of the card of
    a product, the close button of the overlay, any other element. *)
Inductive Element : Type :=
  | LearnMore (id : Z)
  | ModalClose
  | OtherElement (name : string).

(** The overlay element: whether it carries the class [open], and what was
    written in its title, body and brand and on its image. *)
Record Modal : Type := mkModal {
  modal_open : bool;
  modal_title : option string;
  modal_body : string;
  modal_brand : string;
  image_src : string;
  image_alt : string;
  image_shown : bool
}.

(** The variables [modalEl] and [lastFocused], the element that has the
    focus, the number of timers set by [closeProductModal] that have not
    fired yet, and the number of [keydown] listeners on the document. *)
Record Page : Type := mkPage {
  modalEl : option Modal;
  lastFocused : option Element;
  activeElement : option Element;
  timers : nat;
  keydown_listeners : nat
}.

(** The page before any overlay was shown, with the focus on [e]. *)
Definition start (e : option Element) : Page := mkPage None None e 0 0.

(** [createModal]: the element is built, empty and closed, and the
    [keydown] listener added to the document. *)
Definition createModal (p : Page) : Page :=
  mkPage (Some (mkModal false None EmptyString EmptyString EmptyString EmptyString true))
    (lastFocused p) (activeElement p) (timers p) (S (keydown_listeners p)).

(** [closeProductModal]: the class [open] is removed and a timer set that
    gives the focus back. *)
Definition closeProductModal (p : Page) : Page :=
  match modalEl p with
  | None => p
  | Some m =>
      mkPage (Some (mkModal false (modal_title m) (modal_body m) (modal_brand m)
                      (image_src m) (image_alt m) (image_shown m)))
        (lastFocused p) (activeElement p) (S (timers p)) (keydown_listeners p)
  end.

(** The callback of the timer: [lastFocused.focus()] when there is an
    element to focus. *)
Definition timer_fires (p : Page) : Page :=
  match timers p with
  | O => p
  | S n =>
      mkPage (modalEl p) (lastFocused p)
        (match lastFocused p with Some e => Some e | None => activeElement p end)
        n (keydown_listeners p)
  end.

(** [showProductModal(product, opener)] *)
Definition showProductModal (product : Product) (opener : option Element) (p : Page)
    : Page :=
  let p1 := match modalEl p with None => createModal p | Some _ => p end in
  let focused := match opener with Some e => Some e | None => activeElement p1 end in
  match modalEl p1 with
  | None => p1
  | Some m =>
      let with_image := truthy_str (image product) in
      mkPage
        (Some (mkModal true (name product)
                 (if truthy_str (description product) then or_empty (description product)
                  else "No description.")
                 (if truthy_str (brand product) then or_empty (brand product)
                  else EmptyString)
                 (if with_image then or_empty (image product) else image_src m)
                 (if with_image
                  then (if truthy_str (name product) then or_empty (name product)
                        else "Product image")
                  else image_alt m)
                 with_image))
        focused (Some ModalClose) (timers p1) (keydown_listeners p1)
  end.

(** [onKeyDownForModal(e)] *)
Definition onKeyDownForModal (key : string) (p : Page) : Page :=
  match modalEl p with
  | None => p
  | Some _ => if String.eqb key "Escape" then closeProductModal p else p
  end.

(** What happens on the page. *)
Inductive Event : Type :=
  | LearnMoreClick (product : Product)
      (* the Learn-more button of the card of [product] *)
  | CloseClick
      (* the close button of the overlay *)
  | OverlayClick (on_overlay : bool)
      (* a click in the overlay: on the overlay itself, or inside the dialog *)
  | KeyDown (key : string)
  | TimerFires.

(** The listeners run by an event.  A [keydown] runs [onKeyDownForModal]
    once per listener on the document. *)
Definition step (ev : Event) (p : Page) : Page :=
  match ev with
  | LearnMoreClick product => showProductModal product (Some (LearnMore (id product))) p
  | CloseClick => closeProductModal p
  | OverlayClick on_overlay => if on_overlay then closeProductModal p else p
  | KeyDown key => Nat.iter (keydown_listeners p) (onKeyDownForModal key) p
  | TimerFires => timer_fires p
  end.

Definition run (events : list Event) (p : Page) : Page :=
  foldl (fun q ev => step ev q) p events.

(** The overlay has been created together with its one listener, or not
    at all. *)
Definition listening (p : Page) : Prop :=
  match modalEl p with
  | None => keydown_listeners p = 0%nat
  | Some _ => keydown_listeners p = 1%nat
  end.



End Overlay.

(** ** More concrete data *)

Module Cases.
Import Client.

(** A parser of stored id lists that also knows the list left by a visit
    in which cream was selected before gel. *)
Definition parse_ids (raw : string) : option JSON :=
  if String.eqb raw "[2,1]" then Some (JArr [JNum 2; JNum 1])
  else Sample.parse_sample raw.

(** The page behind a worker that answers [w] to whatever it is sent. *)
Definition behind (w : Worker.Response) : Env :=
  Sample.env_with (Some "https://search.example/search") (fun _ => ProxySpec.delivered w).

(** A minimal worker with a SerpAPI key: the provider cannot be reached,
    or answers 503. *)
Definition serp_down : Worker.Env :=
  Worker.mkEnv None (Some "serp-test") None None (fun _ => NetworkError "unreachable").

Definition serp_busy : Worker.Env :=
  Worker.mkEnv None (Some "serp-test") None None
    (fun _ => HttpResponse false 503 "Service Unavailable" None).

(** A minimal worker with a SerpAPI key, whose provider finds one page. *)
Definition serp_finds : Worker.Env :=
  Worker.mkEnv None (Some "serp-test") None None
    (fun _ =>
       HttpResponse true 200 EmptyString
         (Some (JObj [("organic_results",
                       JArr [JObj [("title", JStr "Gel review");
                                   ("snippet", JStr "A gentle cleanser");
                                   ("link", JStr "https://example.com/gel")]])]))).

End Cases.

(** ** Facts about the selection *)

Module SelectionFacts.
Import JsString Client Spec.
Local Open Scope list_scope.

(** *** Arrays *)

Lemma findIndex_None {A : Type} (f : A -> bool) (l : list A) :
  findIndex f l = None <-> forall x, x ∈ l -> f x = false.
Proof.
  induction l as [|a l IH]; simpl.
  - split; [intros _ x Hx; inversion Hx | done].
  - destruct (f a) eqn:Ha.
    + split; [done|]. intros H. rewrite (H a) in Ha; [done | left].
    + destruct (findIndex f l) eqn:E; simpl.
      * split; [done|]. intros H.
        assert (Some n = @None nat) as Hn; [|done].
        apply IH. intros x Hx. apply H. by right.
      * split; [|done]. intros _ x Hx.
        apply elem_of_cons in Hx as [->|Hx]; [done|]. by apply IH.
Qed.

Lemma findIndex_Some {A : Type} (f : A -> bool) (l : list A) (i : nat) :
  findIndex f l = Some i ->
  exists x, l !! i = Some x /\ f x = true /\ forall y, y ∈ take i l -> f y = false.
Proof.
  revert i. induction l as [|a l IH]; intros i; simpl; [done|].
  destruct (f a) eqn:Ha.
  - intros [= <-]. exists a. repeat split; [done|]. intros y Hy. inversion Hy.
  - destruct (findIndex f l) as [n|] eqn:E; simpl; [|done].
    intros [= <-]. destruct (IH n eq_refl) as (x & Hx & Hfx & Hbefore).
    exists x. repeat split; [done..|]. simpl. intros y Hy.
    apply elem_of_cons in Hy as [->|Hy]; [done | by apply Hbefore].
Qed.

Lemma findIndex_app_last {A : Type} (f : A -> bool) (l : list A) (x : A) :
  findIndex f l = None -> f x = true -> findIndex f (l ++ [x]) = Some (length l).
Proof.
  induction l as [|a l IH]; simpl; intros Hl Hx.
  - by rewrite Hx.
  - destruct (f a); [done|]. destruct (findIndex f l); [done|].
    by rewrite IH.
Qed.

Lemma delete_app_last {A : Type} (l : list A) (x : A) :
  delete (length l) (l ++ [x]) = l.
Proof. induction l as [|a l IH]; simpl; [done | by rewrite IH]. Qed.

Lemma NoDup_ids_delete (i : nat) (sel : list Product) :
  NoDup (map id sel) -> NoDup (map id (delete i sel)).
Proof.
  intros H. apply (sublist_NoDup _ _ H), (fmap_sublist id), sublist_delete.
Qed.

(** After the first product with the id is removed from a selection without
    duplicate ids, no product with that id is left. *)
Lemma findIndex_delete_NoDup (k : Z) (sel : list Product) (i : nat) :
  NoDup (map id sel) ->
  findIndex (fun p => id p =? k) sel = Some i ->
  findIndex (fun p => id p =? k) (delete i sel) = None.
Proof.
  revert i. induction sel as [|a sel IH]; intros i Hnd; simpl; [done|].
  apply NoDup_cons in Hnd as [Ha Hnd].
  destruct (id a =? k) eqn:E.
  - intros [= <-]. simpl. apply findIndex_None. intros x Hx.
    apply Z.eqb_eq in E. apply Z.eqb_neq. intros Hk. apply Ha.
    rewrite E, <- Hk. apply list_elem_of_fmap. by exists x.
  - destruct (findIndex _ sel) as [n|] eqn:F; simpl; [|done].
    intros [= <-]. simpl. rewrite E. by rewrite (IH n).
Qed.

(** *** What the tray update and the write to storage leave alone *)

Lemma saveSelectedToStorage_selected env st :
  selectedProducts (saveSelectedToStorage env st) = selectedProducts st.
Proof. unfold saveSelectedToStorage. by destruct (storage_accepts env). Qed.

Lemma updateSelectedList_selected env st :
  selectedProducts (updateSelectedList env st) = selectedProducts st.
Proof.
  unfold updateSelectedList.
  destruct (selectedProductsList st); [|done].
  destruct (selectedProducts st) eqn:E; [by rewrite <- E|].
  by rewrite saveSelectedToStorage_selected.
Qed.

Lemma saveSelectedToStorage_byId env st :
  productsById (saveSelectedToStorage env st) = productsById st.
Proof. unfold saveSelectedToStorage. by destruct (storage_accepts env). Qed.

Lemma updateSelectedList_byId env st :
  productsById (updateSelectedList env st) = productsById st.
Proof.
  unfold updateSelectedList.
  destruct (selectedProductsList st); [|done].
  destruct (selectedProducts st); [done|].
  by rewrite saveSelectedToStorage_byId.
Qed.

Lemma saveSelectedToStorage_all env st :
  allProducts (saveSelectedToStorage env st) = allProducts st.
Proof. unfold saveSelectedToStorage. by destruct (storage_accepts env). Qed.

Lemma updateSelectedList_all env st :
  allProducts (updateSelectedList env st) = allProducts st.
Proof.
  unfold updateSelectedList.
  destruct (selectedProductsList st); [|done].
  destruct (selectedProducts st); [done|].
  by rewrite saveSelectedToStorage_all.
Qed.

Lemma saveSelectedToStorage_grid env st :
  productsContainer (saveSelectedToStorage env st) = productsContainer st.
Proof. unfold saveSelectedToStorage. by destruct (storage_accepts env). Qed.

Lemma updateSelectedList_grid env st :
  productsContainer (updateSelectedList env st) = productsContainer st.
Proof.
  unfold updateSelectedList.
  destruct (selectedProductsList st); [|done].
  destruct (selectedProducts st); [done|].
  by rewrite saveSelectedToStorage_grid.
Qed.

(** A write that storage accepts leaves the ids of the selection under the
    key. *)
Lemma saveSelectedToStorage_persisted env st :
  storage_accepts env = true -> persisted (saveSelectedToStorage env st).
Proof.
  intros H. unfold persisted, saveSelectedToStorage. rewrite H. simpl.
  apply lookup_insert_eq.
Qed.

(** *** One toggle *)

Lemma grid_cards_mark (i : nat) (b : bool) (g : Grid) (card : Card) :
  grid_cards g !! i = Some card ->
  grid_cards (mark_card i b g) !! i = Some (mkCard (card_product card) b).
Proof.
  destruct g as [t|cards]; simpl; intros H; [by rewrite lookup_nil in H|].
  by rewrite list_lookup_alter_eq, H.
Qed.

Lemma toggleSelection_spec env i st card product :
  grid_cards (productsContainer st) !! i = Some card ->
  productsById st !! card_id card = Some product ->
  let st' := toggleSelection env i st in
  selectedProducts st' = toggled (card_id card) product (selectedProducts st)
  /\ productsById st' = productsById st
  /\ allProducts st' = allProducts st
  /\ exists b, grid_cards (productsContainer st') !! i = Some (mkCard (card_product card) b).
Proof.
  intros Hcard Hprod. unfold toggleSelection, toggled. rewrite Hcard, Hprod.
  destruct (findIndex _ (selectedProducts st)) as [index|];
    rewrite updateSelectedList_selected, updateSelectedList_byId,
      updateSelectedList_all, updateSelectedList_grid; simpl;
    (repeat split; [done..|]); eexists; by apply grid_cards_mark.
Qed.

(** A toggle of a card the grid lacks, or whose product the map lacks,
    changes nothing. *)
Lemma toggleSelection_no_card env i st :
  grid_cards (productsContainer st) !! i = None -> toggleSelection env i st = st.
Proof. intros H. unfold toggleSelection. by rewrite H. Qed.

Lemma toggleSelection_no_product env i st card :
  grid_cards (productsContainer st) !! i = Some card ->
  productsById st !! card_id card = None -> toggleSelection env i st = st.
Proof. intros H1 H2. unfold toggleSelection. by rewrite H1, H2. Qed.

Lemma findIndex_ids_None (k : Z) (sel : list Product) :
  findIndex (fun p => id p =? k) sel = None <-> k ∉ map id sel.
Proof.
  rewrite findIndex_None. split.
  - intros H Hin. apply list_elem_of_fmap in Hin as (p & -> & Hp).
    specialize (H p Hp). by apply Z.eqb_neq in H.
  - intros H p Hp. apply Z.eqb_neq. intros <-. apply H.
    apply list_elem_of_fmap. by exists p.
Qed.

(** Two toggles with the same id. *)
Lemma toggled_twice_absent (k : Z) (product : Product) (sel : list Product) :
  id product = k -> k ∉ map id sel ->
  toggled k product (toggled k product sel) = sel.
Proof.
  intros Hid Habs. apply findIndex_ids_None in Habs.
  unfold toggled at 2. rewrite Habs.
  unfold toggled. rewrite (findIndex_app_last _ _ _ Habs).
  - apply delete_app_last.
  - by apply Z.eqb_eq.
Qed.

Lemma toggled_twice_present (k : Z) (product : Product) (sel : list Product) :
  NoDup (map id sel) -> k ∈ map id sel ->
  exists index q,
    sel !! index = Some q /\ id q = k
    /\ toggled k product (toggled k product sel) = delete index sel ++ [product].
Proof.
  intros Hnd Hin.
  destruct (findIndex (fun p => id p =? k) sel) as [index|] eqn:E.
  - destruct (findIndex_Some _ _ _ E) as (q & Hq & Hk & _).
    exists index, q. repeat split; [done | by apply Z.eqb_eq|].
    unfold toggled at 2. rewrite E. unfold toggled.
    by rewrite (findIndex_delete_NoDup k sel index Hnd E).
  - by apply findIndex_ids_None in E.
Qed.

(** *** The id-to-product map *)

Lemma byId_foldl (products : list Product) (m : gmap Z Product) (k : Z) (p : Product) :
  foldl (fun m p => <[id p := p]> m) m products !! k = Some p ->
  (id p = k /\ p ∈ products) \/ m !! k = Some p.
Proof.
  revert m. induction products as [|a products IH]; intros m; simpl; [by right|].
  intros H. destruct (IH _ H) as [[Hid Hin]|Hm].
  - left. split; [done | by right].
  - destruct (decide (id a = k)) as [Ha|Ha].
    + rewrite Ha, lookup_insert_eq in Hm. injection Hm as <-. left. split; [done | left].
    + rewrite lookup_insert_ne in Hm by done. by right.
Qed.

Lemma displayProducts_byId (products : list Product) st k p :
  productsById (displayProducts products st) !! k = Some p -> id p = k /\ p ∈ products.
Proof.
  unfold displayProducts. simpl. intros H.
  destruct (byId_foldl _ _ _ _ H) as [?|Hm]; [done|].
  by rewrite lookup_empty in Hm.
Qed.

(** *** The two filters *)

Lemma filterProducts_sublist (products : list Product) (c t : string) :
  filterProducts products c t `sublist_of` products.
Proof.
  unfold filterProducts.
  assert (forall (f : Product -> bool) l, List.filter f l `sublist_of` l) as Hf.
  { intros f l. induction l as [|a l IH]; simpl; [done|].
    destruct (f a); [by apply sublist_skip | by apply sublist_cons]. }
  destruct (nonEmpty t), (nonEmpty c); try done; try apply Hf.
  etrans; apply Hf.
Qed.

(** *** The invariants of the selection *)

Lemma SelectionInv_frame catalog st st' :
  selectedProducts st' = selectedProducts st ->
  productsById st' = productsById st ->
  allProducts st' = allProducts st ->
  SelectionInv catalog st -> SelectionInv catalog st'.
Proof.
  intros Hs Hb Ha [H1 H2 H3 H4].
  split; unfold selected_ids; rewrite ?Hs, ?Hb, ?Ha; done.
Qed.

Lemma SelectionInv_sublist catalog st st' :
  selectedProducts st' `sublist_of` selectedProducts st ->
  productsById st' = productsById st ->
  allProducts st' = allProducts st ->
  SelectionInv catalog st -> SelectionInv catalog st'.
Proof.
  intros Hs Hb Ha [H1 H2 H3 H4]. split; rewrite ?Hb, ?Ha; try done.
  - apply (sublist_NoDup _ _ H1), (fmap_sublist id), Hs.
  - intros p Hp. apply H2. by eapply elem_of_sublist.
Qed.

Lemma toggleSelection_inv catalog env i st :
  SelectionInv catalog st -> SelectionInv catalog (toggleSelection env i st).
Proof.
  intros Hinv.
  destruct (grid_cards (productsContainer st) !! i) as [card|] eqn:Hcard;
    [|by rewrite toggleSelection_no_card].
  destruct (productsById st !! card_id card) as [product|] eqn:Hprod;
    [|by rewrite (toggleSelection_no_product env i st card)].
  destruct (toggleSelection_spec env i st card product Hcard Hprod)
    as (Hsel & Hby & Hall & _).
  unfold toggled in Hsel.
  destruct (findIndex _ (selectedProducts st)) as [index|] eqn:E.
  - apply (SelectionInv_sublist catalog st); try done.
    rewrite Hsel. apply sublist_delete.
  - destruct Hinv as [H1 H2 H3 H4]. destruct (H3 _ _ Hprod) as [Hid Hcat].
    split; rewrite ?Hby, ?Hall; try done.
    + unfold selected_ids. rewrite Hsel, map_app. simpl.
      apply NoDup_app. repeat split; [done| |apply NoDup_singleton].
      intros x Hx Hx'. apply list_elem_of_singleton in Hx'. subst x.
      apply findIndex_ids_None in E. apply E. by rewrite <- Hid.
    + intros p Hp. rewrite Hsel in Hp. apply elem_of_app in Hp as [Hp|Hp]; [by apply H2|].
      apply list_elem_of_singleton in Hp. subst p.
      apply list_elem_of_fmap. by exists product.
Qed.

Lemma removeChip_selected env j st chip :
  tray_chips (selectedProductsList st) !! j = Some chip ->
  let st' := removeChip env j st in
  selectedProducts st'
    = match findIndex (fun p => id p =? chip_id chip) (selectedProducts st) with
      | Some idx => delete idx (selectedProducts st)
      | None => selectedProducts st
      end
  /\ productsById st' = productsById st
  /\ allProducts st' = allProducts st.
Proof.
  intros Hchip. unfold removeChip. rewrite Hchip.
  rewrite saveSelectedToStorage_selected, updateSelectedList_selected,
    saveSelectedToStorage_byId, updateSelectedList_byId,
    saveSelectedToStorage_all, updateSelectedList_all.
  destruct (findIndex _ (selectedProducts st)) as [idx|]; simpl;
    destruct (findIndex _ _); done.
Qed.

Lemma removeChip_inv catalog env j st :
  SelectionInv catalog st -> SelectionInv catalog (removeChip env j st).
Proof.
  intros Hinv.
  destruct (tray_chips (selectedProductsList st) !! j) as [chip|] eqn:Hchip.
  - destruct (removeChip_selected env j st chip Hchip) as (Hsel & Hby & Hall).
    apply (SelectionInv_sublist catalog st); try done.
    rewrite Hsel. destruct (findIndex _ _); [apply sublist_delete | done].
  - unfold removeChip. by rewrite Hchip.
Qed.

Lemma clearAllSelections_selected env st :
  let st' := clearAllSelections env st in
  selectedProducts st' = []
  /\ productsById st' = productsById st
  /\ allProducts st' = allProducts st.
Proof.
  unfold clearAllSelections.
  rewrite updateSelectedList_selected, updateSelectedList_byId, updateSelectedList_all.
  destruct (productsContainer _); simpl;
    by rewrite saveSelectedToStorage_selected, saveSelectedToStorage_byId,
         saveSelectedToStorage_all.
Qed.

Lemma clearAllSelections_inv catalog env st :
  SelectionInv catalog st -> SelectionInv catalog (clearAllSelections env st).
Proof.
  intros Hinv. destruct (clearAllSelections_selected env st) as (Hsel & Hby & Hall).
  apply (SelectionInv_sublist catalog st); try done.
  rewrite Hsel. apply sublist_nil_l.
Qed.

(** A grid update keeps the invariants: the map it rebuilds holds products
    of the catalog. *)
Lemma updateProductGrid_inv catalog env st st' :
  (forall c, products_json env = Some c -> c = catalog) ->
  SelectionInv catalog st ->
  updateProductGrid env st = Ok st' -> SelectionInv catalog st'.
Proof.
  intros Henv Hinv. unfold updateProductGrid, catalog_for_grid.
  assert (forall products, products = catalog ->
            match filterProducts products (selectedCategory_of st) (searchTerm_of st) with
            | [] => Ok (set_productsContainer
                          (GridPlaceholder "No products match your filters.") st)
            | _ :: _ =>
                Ok (displayProducts
                      (filterProducts products (selectedCategory_of st) (searchTerm_of st)) st)
            end = Ok st' -> SelectionInv catalog st') as Hgrid.
  { intros products -> H.
    destruct (filterProducts catalog (selectedCategory_of st) (searchTerm_of st)) eqn:E.
    - injection H as <-. by apply (SelectionInv_frame catalog st).
    - injection H as <-. destruct Hinv as [H1 H2 H3 H4]. split; try done.
      intros k q Hq. apply displayProducts_byId in Hq as [Hid Hin]. split; [done|].
      eapply elem_of_sublist; [exact Hin|]. rewrite <- E. apply filterProducts_sublist. }
  destruct (allProducts st) as [|a l] eqn:Hall.
  - destruct (products_json env) as [products|] eqn:Hp; [|done].
    apply Hgrid. by apply Henv.
  - apply Hgrid. destruct Hinv as [_ _ _ [H4|H4]]; by rewrite Hall in H4.
Qed.

Lemma first_grid_update_inv catalog env st :
  (forall c, products_json env = Some c -> c = catalog) ->
  SelectionInv catalog st -> SelectionInv catalog (first_grid_update env st).
Proof.
  intros Henv Hinv. unfold first_grid_update.
  destruct (updateProductGrid env st) eqn:E; [|done].
  by eapply updateProductGrid_inv.
Qed.

Lemma updateSelectedList_inv catalog env st :
  SelectionInv catalog st -> SelectionInv catalog (updateSelectedList env st).
Proof.
  apply SelectionInv_frame;
    [apply updateSelectedList_selected | apply updateSelectedList_byId
    | apply updateSelectedList_all].
Qed.

(** The products of a catalog without duplicate ids whose id is in a stored
    array satisfy the invariants. *)
Lemma rehydrated_inv catalog ids st st' :
  NoDup (map id catalog) ->
  selectedProducts st' = List.filter (fun p => ids_include ids (id p)) catalog ->
  productsById st' = productsById st ->
  allProducts st' = catalog ->
  SelectionInv catalog st -> SelectionInv catalog st'.
Proof.
  intros Hnd Hs Hb Ha [H1 H2 H3 H4].
  assert (forall (f : Product -> bool) l, List.filter f l `sublist_of` l) as Hf.
  { intros f l. induction l as [|a l IH]; simpl; [done|].
    destruct (f a); [by apply sublist_skip | by apply sublist_cons]. }
  split; unfold selected_ids; rewrite ?Hs, ?Hb, ?Ha; try done.
  - apply (sublist_NoDup _ _ Hnd), (fmap_sublist id), Hf.
  - intros p Hp. apply list_elem_of_fmap. exists p. split; [done|].
    eapply elem_of_sublist; [exact Hp | apply Hf].
  - by right.
Qed.

Lemma init_inv parse catalog env st :
  NoDup (map id catalog) ->
  (forall c, products_json env = Some c -> c = catalog) ->
  SelectionInv catalog st -> SelectionInv catalog (init parse env st).
Proof.
  intros Hnd Henv Hinv. unfold init.
  assert (forall st2, SelectionInv catalog st2 ->
            SelectionInv catalog (first_grid_update env (updateSelectedList env st2))) as Hfin.
  { intros st2 H2. apply first_grid_update_inv; [done|]. by apply updateSelectedList_inv. }
  destruct (products_json env) as [products|] eqn:Hp; [|done].
  assert (products = catalog) as -> by (by apply Henv).
  assert (SelectionInv catalog (set_allProducts catalog st)) as Hinv1.
  { destruct Hinv as [H1 H2 H3 H4]. split; try done. by right. }
  simpl. destruct (localStorage st !! STORAGE_KEY) as [raw|]; [|by apply Hfin].
  destruct (nonEmpty raw); simpl; [|by apply Hfin].
  destruct (parse raw) as [[| | | |[|v ids]|]|]; try by apply Hfin.
  - apply Hfin. by apply (rehydrated_inv catalog (v :: ids) (set_allProducts catalog st)).
  - done.
Qed.

Lemma loadSelectedFromStorage_inv parse catalog st :
  NoDup (map id catalog) ->
  allProducts st <> [] ->
  SelectionInv catalog st ->
  exists st', loadSelectedFromStorage parse st = Some st' /\ SelectionInv catalog st'.
Proof.
  intros Hnd Hloaded Hinv. unfold loadSelectedFromStorage.
  destruct (localStorage st !! STORAGE_KEY) as [raw|]; [|by exists st].
  destruct (nonEmpty raw); simpl; [|by exists st].
  destruct (parse raw) as [[| | | |ids|]|]; try by exists st.
  assert (allProducts st = catalog) as Hcat by (by destruct Hinv as [_ _ _ [H4|H4]]).
  destruct (allProducts st) as [|a l] eqn:Hall; [done|]. rewrite <- Hall.
  eexists. split; [done|].
  apply (rehydrated_inv catalog ids st); try done; simpl; by rewrite Hall, Hcat.
Qed.

(** The placeholders carry the stored ids, in the stored order. *)
Lemma placeholders_ids ids sel :
  placeholders ids = Some sel -> JNum <$> map id sel = ids.
Proof.
  revert sel. induction ids as [|v ids IH]; intros sel H.
  - by injection H as <-.
  - unfold placeholders in H. simpl in H.
    destruct v as [| |n| | |]; try done. simpl in H.
    fold (placeholders ids) in H.
    destruct (placeholders ids) as [sel0|] eqn:E; [|done].
    injection H as <-. simpl. f_equal. by apply IH.
Qed.

Lemma placeholders_defined ids :
  Forall is_id ids -> exists sel, placeholders ids = Some sel.
Proof.
  induction 1 as [|v ids [n ->] _ [sel IH]].
  - by exists [].
  - exists (mkProduct n None None None None None :: sel).
    unfold placeholders in *. simpl. by rewrite IH.
Qed.

(** Before the catalog is loaded, [loadSelectedFromStorage] copies the
    stored ids: the selection has no duplicate id when the stored list has
    none. *)
Lemma loadSelectedFromStorage_unloaded parse st :
  allProducts st = [] ->
  NoDup (selected_ids st) ->
  stored_ids_distinct parse st ->
  exists st', loadSelectedFromStorage parse st = Some st'
              /\ NoDup (selected_ids st') /\ allProducts st' = [].
Proof.
  intros Hall Hnd Hst. unfold loadSelectedFromStorage.
  destruct (localStorage st !! STORAGE_KEY) as [raw|] eqn:Hraw; [|by exists st].
  destruct (nonEmpty raw); simpl; [|by exists st].
  destruct (parse raw) as [[| | | |ids|]|] eqn:Hp; try by exists st.
  rewrite Hall. destruct (Hst raw ids Hraw Hp) as [Hd Hn].
  destruct (placeholders_defined ids Hn) as [sel Hsel]. rewrite Hsel.
  eexists. split; [done|]. split; [|done].
  unfold selected_ids. simpl. apply (NoDup_fmap_1 JNum).
  by rewrite (placeholders_ids ids sel Hsel).
Qed.

(** *** Where the selection is persisted *)

Lemma persisted_frame st st' :
  selectedProducts st' = selectedProducts st ->
  localStorage st' = localStorage st ->
  persisted st -> persisted st'.
Proof. unfold persisted. by intros -> ->. Qed.

(** The removal of a chip ends with a write to storage. *)
Lemma removeChip_persisted env j st chip :
  storage_accepts env = true ->
  tray_chips (selectedProductsList st) !! j = Some chip ->
  persisted (removeChip env j st).
Proof.
  intros Hacc Hchip. unfold removeChip. rewrite Hchip.
  by apply saveSelectedToStorage_persisted.
Qed.

(** The clearing of the selection writes the empty array first; the tray
    update that follows leaves it. *)
Lemma clearAllSelections_persisted env st :
  storage_accepts env = true -> persisted (clearAllSelections env st).
Proof.
  intros Hacc. unfold clearAllSelections.
  set (st2 := saveSelectedToStorage env (set_selectedProducts [] st)).
  assert (persisted st2) as H2 by (by apply saveSelectedToStorage_persisted).
  assert (selectedProducts st2 = []) as Hsel
    by (unfold st2; by rewrite saveSelectedToStorage_selected).
  set (st3 := match productsContainer st2 with
              | GridPlaceholder _ => st2
              | GridCards cards =>
                  set_productsContainer
                    (GridCards (map (fun c => mkCard (card_product c) false) cards)) st2
              end).
  assert (persisted st3 /\ selectedProducts st3 = []) as [H3 Hsel3].
  { unfold st3. by destruct (productsContainer st2). }
  unfold updateSelectedList. destruct (selectedProductsList st3); [|done].
  rewrite Hsel3. by apply (persisted_frame st3).
Qed.

(** A toggle that leaves a product selected, on a page with the tray, ends
    with a write to storage. *)
Lemma toggleSelection_persisted env i st card product :
  storage_accepts env = true ->
  selectedProductsList st <> None ->
  grid_cards (productsContainer st) !! i = Some card ->
  productsById st !! card_id card = Some product ->
  selectedProducts (toggleSelection env i st) <> [] ->
  persisted (toggleSelection env i st).
Proof.
  intros Hacc Htray Hcard Hprod Hne.
  destruct (toggleSelection_spec env i st card product Hcard Hprod) as (Hsel & _).
  rewrite Hsel in Hne. clear Hsel.
  unfold toggleSelection, toggled in *. rewrite Hcard, Hprod.
  destruct (findIndex _ (selectedProducts st)) as [index|];
    unfold updateSelectedList; simpl;
    (destruct (selectedProductsList st); [|done]);
    match goal with
    | |- context [match ?l with [] => _ | _ :: _ => _ end] => destruct l eqn:E; [done|]
    end; by apply saveSelectedToStorage_persisted.
Qed.

End SelectionFacts.

Module SelectionClaims.
Import JsString Client Spec SelectionFacts.
Local Open Scope list_scope.

(** The scenario of the specification: gel then cream selected gives the
    selection [1, 2]; removing gel by its chip gives [2], persisted as
    such. *)
Example scenario_select_remove :
  selected_ids Sample.both_selected = [1; 2]
  /\ selected_ids (removeChip Sample.env0 0 Sample.both_selected) = [2]
  /\ localStorage (removeChip Sample.env0 0 Sample.both_selected) !! STORAGE_KEY
       = Some "[2]".
Proof. by vm_compute. Qed.

(** C1, at the input where the code departs from it: with gel the only
    selected product, toggling its card off empties the selection, yet the
    value under the storage key is still the array that holds gel's id,
    not the array of the ids of the (empty) selection. *)
Theorem C1_toggle_last_off_keeps_stale_ids :
  let st := toggleSelection Sample.env0 0 Sample.gel_selected in
  selectedProducts Sample.gel_selected = [Sample.gel]
  /\ selectedProducts st = []
  /\ localStorage st !! STORAGE_KEY = Some "[1]"
  /\ Js.JSON_stringify (ids_json (selectedProducts st)) = "[]"
  /\ ~ persisted st.
Proof. by vm_compute. Qed.

(** The claim C2 as it is worded fails: with gel and cream selected in that
    order, toggling gel's card twice leaves cream before gel. *)
Lemma C2_counterexample :
  let st := Sample.both_selected in
  let st2 := toggleSelection Sample.env0 0 (toggleSelection Sample.env0 0 st) in
  selected_ids st = [1; 2] /\ selected_ids st2 = [2; 1]
  /\ selectedProducts st2 <> selectedProducts st.
Proof. by vm_compute. Qed.

(** C2, amended: in a selection without duplicate ids, two toggles of the
    card of a product give back the same ids (the same membership); the
    selection itself, order included, when the product was not selected
    before; and, when it was, the selection with that product taken out of
    its place and put last. *)
Theorem C2_toggle_twice env i st card product :
  NoDup (selected_ids st) ->
  byId_consistent st ->
  grid_cards (productsContainer st) !! i = Some card ->
  productsById st !! card_id card = Some product ->
  let st2 := toggleSelection env i (toggleSelection env i st) in
  selected_ids st2 ≡ₚ selected_ids st
  /\ (card_id card ∉ selected_ids st -> selectedProducts st2 = selectedProducts st)
  /\ (card_id card ∈ selected_ids st ->
      exists index q,
        selectedProducts st !! index = Some q /\ id q = card_id card
        /\ selectedProducts st2 = delete index (selectedProducts st) ++ [product]).
Proof.
  intros Hnd Hcons Hcard Hprod st2.
  destruct (toggleSelection_spec env i st card product Hcard Hprod)
    as (Hsel1 & Hby1 & _ & b & Hcard1).
  assert (productsById (toggleSelection env i st) !! card_id (mkCard (card_product card) b)
          = Some product) as Hprod1 by (by rewrite Hby1).
  destruct (toggleSelection_spec env i _ _ product Hcard1 Hprod1) as (Hsel2 & _).
  change (card_id (mkCard (card_product card) b)) with (card_id card) in Hsel2.
  fold st2 in Hsel2. rewrite Hsel1 in Hsel2.
  assert (id product = card_id card) as Hid by (by apply Hcons).
  assert (card_id card ∉ selected_ids st -> selectedProducts st2 = selectedProducts st) as Habs.
  { intros H. rewrite Hsel2. by apply toggled_twice_absent. }
  assert (card_id card ∈ selected_ids st ->
          exists index q,
            selectedProducts st !! index = Some q /\ id q = card_id card
            /\ selectedProducts st2 = delete index (selectedProducts st) ++ [product]) as Hpres.
  { intros H. destruct (toggled_twice_present _ product _ Hnd H) as (index & q & Hq & Hk & Heq).
    exists index, q. by rewrite Hsel2. }
  split; [|done].
  destruct (decide (card_id card ∈ selected_ids st)) as [Hin|Hnin].
  - destruct (Hpres Hin) as (index & q & Hq & Hk & Heq).
    unfold selected_ids at 1. rewrite Heq, map_app. simpl.
    rewrite Hid, <- Hk. unfold selected_ids.
    rewrite (delete_Permutation (map id (selectedProducts st)) index (id q)).
    + rewrite <- Permutation_cons_append. by rewrite <- list_fmap_delete.
    + change (map id (selectedProducts st)) with (id <$> selectedProducts st).
      by rewrite list_lookup_fmap, Hq.
  - unfold selected_ids at 1. by rewrite (Habs Hnin).
Qed.

(** The page of the examples satisfies the invariants from the start. *)
Lemma sample_catalog_NoDup : NoDup (map id Sample.catalog).
Proof. apply (bool_decide_unpack _). by vm_compute. Defined.

Lemma sample_env_catalog :
  forall c, products_json Sample.env0 = Some c -> c = Sample.catalog.
Proof. intros c H. by injection H. Defined.

Lemma blank_inv : SelectionInv Sample.catalog Sample.blank.
Proof.
  split; simpl.
  - constructor.
  - intros p Hp. inversion Hp.
  - intros k p H. by rewrite lookup_empty in H.
  - by left.
Defined.

Lemma loaded_inv : SelectionInv Sample.catalog Sample.loaded.
Proof.
  apply init_inv;
    [exact sample_catalog_NoDup | exact sample_env_catalog | exact blank_inv].
Defined.

Lemma both_selected_inv : SelectionInv Sample.catalog Sample.both_selected.
Proof. apply toggleSelection_inv, toggleSelection_inv, loaded_inv. Defined.

(** C2 at the page of the examples: gel's card toggled twice from the
    empty selection gives the empty selection back, and from the selection
    [gel, cream] the same ids in another order. *)
Lemma C2_toggle_twice_witness :
  selectedProducts
    (toggleSelection Sample.env0 0 (toggleSelection Sample.env0 0 Sample.loaded))
    = selectedProducts Sample.loaded
  /\ selected_ids
       (toggleSelection Sample.env0 0 (toggleSelection Sample.env0 0 Sample.both_selected))
       ≡ₚ selected_ids Sample.both_selected.
Proof.
  split.
  - refine (proj1 (proj2 (C2_toggle_twice Sample.env0 0 Sample.loaded
                            (mkCard Sample.gel false) Sample.gel _ _ _ _)) _).
    + apply (inv_nodup _ _ loaded_inv).
    + intros k p H. apply (inv_byId _ _ loaded_inv k p H).
    + by vm_compute.
    + by vm_compute.
    + vm_compute. intros H. inversion H.
  - refine (proj1 (C2_toggle_twice Sample.env0 0 Sample.both_selected
                     (mkCard Sample.gel true) Sample.gel _ _ _ _)).
    + apply (inv_nodup _ _ both_selected_inv).
    + intros k p H. apply (inv_byId _ _ both_selected_inv k p H).
    + by vm_compute.
    + by vm_compute.
Defined.

(** The claim C9 as it is worded fails in two places.  Before the catalog
    is loaded, [loadSelectedFromStorage] copies the stored ids: a storage
    that holds the id 1 twice gives a selection with that id twice.  And
    the rehydration of [init] keeps every product of the catalog whose id
    is stored: over a catalog in which two products carry the id 1, a
    storage that holds that id gives a selection with both of them. *)
Lemma C9_counterexample :
  (NoDup (selected_ids (Sample.revisited "[1,1]"))
   /\ exists st',
        loadSelectedFromStorage Sample.parse_sample (Sample.revisited "[1,1]") = Some st'
        /\ selected_ids st' = [1; 1] /\ ~ NoDup (selected_ids st'))
  /\ (NoDup (selected_ids (Sample.revisited "[1]"))
      /\ selected_ids (init Sample.parse_sample Sample.env_twins (Sample.revisited "[1]"))
           = [1; 1]
      /\ ~ NoDup (selected_ids
                    (init Sample.parse_sample Sample.env_twins (Sample.revisited "[1]")))).
Proof.
  assert (~ NoDup [1; 1]) as Hdup.
  { intros H. apply NoDup_cons in H as [H _]. apply H. by left. }
  split.
  - split; [constructor|]. eexists. split; [by vm_compute|]. by split.
  - split; [constructor|]. split; [by vm_compute|].
    by replace (selected_ids (init Sample.parse_sample Sample.env_twins
                                (Sample.revisited "[1]"))) with [1; 1]
      by (by vm_compute).
Qed.

(** C9, amended: over a catalog whose ids are distinct, from a state that
    satisfies the invariants of the selection (no duplicate ids; every
    selected id is the id of a product of the catalog), every operation
    that produces a selection gives a state that satisfies them: a toggle
    of any card, the removal of any chip, the clearing of the selection,
    the rehydration of [init], and [loadSelectedFromStorage] once the
    catalog is loaded.  Before the catalog is loaded,
    [loadSelectedFromStorage] gives a selection without duplicate ids when
    the stored list is one of distinct ids. *)
Theorem C9_selection_invariants_preserved parse catalog env st :
  NoDup (map id catalog) ->
  (forall c, products_json env = Some c -> c = catalog) ->
  SelectionInv catalog st ->
  (forall i, SelectionInv catalog (toggleSelection env i st))
  /\ (forall j, SelectionInv catalog (removeChip env j st))
  /\ SelectionInv catalog (clearAllSelections env st)
  /\ SelectionInv catalog (init parse env st)
  /\ (allProducts st <> [] ->
      exists st', loadSelectedFromStorage parse st = Some st' /\ SelectionInv catalog st')
  /\ (allProducts st = [] -> stored_ids_distinct parse st ->
      exists st', loadSelectedFromStorage parse st = Some st'
                  /\ NoDup (selected_ids st') /\ allProducts st' = []).
Proof.
  intros Hnd Henv Hinv. split; [|split; [|split; [|split; [|split]]]].
  - intros i. by apply toggleSelection_inv.
  - intros j. by apply removeChip_inv.
  - by apply clearAllSelections_inv.
  - by apply init_inv.
  - intros Hloaded. by apply loadSelectedFromStorage_inv.
  - intros Hall Hst. apply loadSelectedFromStorage_unloaded; try done.
    apply (inv_nodup _ _ Hinv).
Qed.

(** A page revisited satisfies the invariants from the start, and what an
    earlier visit stored for gel and cream is a list of distinct ids. *)
Lemma revisited_inv raw : SelectionInv Sample.catalog (Sample.revisited raw).
Proof.
  split; simpl.
  - constructor.
  - intros p Hp. inversion Hp.
  - intros k p H. by rewrite lookup_empty in H.
  - by left.
Defined.

Lemma revisited_stored_distinct :
  stored_ids_distinct Sample.parse_sample (Sample.revisited "[1,2]").
Proof.
  intros raw ids Hraw Hparse. simpl in Hraw.
  rewrite lookup_singleton_eq in Hraw. injection Hraw as <-.
  vm_compute in Hparse. injection Hparse as <-. split.
  - apply NoDup_cons. split; [|apply NoDup_singleton].
    intros H. apply list_elem_of_singleton in H. discriminate H.
  - repeat constructor; by eexists.
Defined.

(** C9 at the page of the examples.  With gel and cream selected, the
    selection after gel's chip is removed has the single id 2, without
    duplicate, and it is an id of the catalog.  On a page revisited before
    its catalog is loaded, with the ids of gel and cream in storage,
    [loadSelectedFromStorage] gives a selection without duplicate. *)
Lemma C9_selection_invariants_witness :
  (let st := removeChip Sample.env0 0 Sample.both_selected in
   selected_ids st = [2]
   /\ NoDup (selected_ids st)
   /\ (forall p, p ∈ selectedProducts st -> id p ∈ map id Sample.catalog))
  /\ (exists st',
        loadSelectedFromStorage Sample.parse_sample (Sample.revisited "[1,2]") = Some st'
        /\ NoDup (selected_ids st') /\ allProducts st' = []).
Proof.
  split.
  - pose proof (proj1 (proj2 (C9_selection_invariants_preserved Sample.parse_sample
                                Sample.catalog Sample.env0 Sample.both_selected
                                sample_catalog_NoDup sample_env_catalog both_selected_inv))
                  0%nat) as H.
    split; [by vm_compute|]. split; [apply (inv_nodup _ _ H) | apply (inv_known _ _ H)].
  - apply (C9_selection_invariants_preserved Sample.parse_sample
             Sample.catalog Sample.env0 (Sample.revisited "[1,2]")
             sample_catalog_NoDup sample_env_catalog (revisited_inv "[1,2]"));
      [reflexivity | exact revisited_stored_distinct].
Defined.

End SelectionClaims.

(** ** Facts about the grid filter *)

Module GridClaims.
Import JsString Client Spec SelectionFacts.
Local Open Scope list_scope.

Lemma startsWith_spec (s t : string) :
  startsWith s t = true <-> exists post, s = (t ++ post)%string.
Proof.
  revert s. induction t as [|b t IH]; intros s; simpl.
  - split; [by exists s | done].
  - destruct s as [|a s].
    + split; [done | by intros [post H]].
    + destruct (Ascii.eqb a b) eqn:E.
      * apply Ascii.eqb_eq in E as ->. rewrite IH.
        split; intros [post H]; exists post; [by rewrite H | by injection H].
      * split; [done|]. intros [post H]. injection H as -> _.
        by rewrite Ascii.eqb_refl in E.
Qed.

Lemma includes_startsWith (s t : string) :
  startsWith s t = true -> includes s t = true.
Proof. intros H. destruct s; simpl; by rewrite H. Qed.

Lemma includes_spec (s t : string) :
  includes s t = true <-> exists pre post, s = (pre ++ t ++ post)%string.
Proof.
  split.
  - induction s as [|a s IH]; simpl; rewrite orb_true_iff.
    + intros [H|H]; [|done]. apply startsWith_spec in H as [post H].
      by exists EmptyString, post.
    + intros [H|H].
      * apply startsWith_spec in H as [post H]. by exists EmptyString, post.
      * destruct (IH H) as (pre & post & ->). by exists (String a pre), post.
  - intros (pre & post & ->). induction pre as [|a pre IH].
    + change (includes (t ++ post)%string t = true).
      apply includes_startsWith, startsWith_spec. by exists post.
    + change (includes (String a (pre ++ t ++ post)%string) t = true).
      simpl. rewrite orb_true_iff. by right.
Qed.

Lemma passesb_spec (c t : string) (p : Product) :
  passesb c t p = true <-> passes c t p.
Proof.
  unfold passesb, passes, contains_ci.
  rewrite andb_true_iff, orb_true_iff, includes_spec.
  apply and_iff_compat_r. split.
  - intros [H|H].
    + left. by destruct c.
    + right. destruct (category p) as [c'|]; [|done]. by apply String.eqb_eq in H as ->.
  - intros [->|H]; [by left|]. right. rewrite H. apply String.eqb_refl.
Qed.

Lemma nonEmpty_toLowerCase (s : string) : nonEmpty (toLowerCase s) = nonEmpty s.
Proof. by destruct s. Qed.

(** The term the grid update searches for is the trimmed value of the
    search box, lower-cased. *)
Lemma searchTerm_of_trim st : searchTerm_of st = toLowerCase (trim (search_value st)).
Proof.
  unfold searchTerm_of, search_value. destruct (productSearch st) as [v|]; [|done].
  by destruct v.
Qed.

Lemma filter_all {A : Type} (f : A -> bool) (l : list A) :
  (forall x, f x = true) -> List.filter f l = l.
Proof. intros H. induction l as [|a l IH]; simpl; [done|]. by rewrite H, IH. Qed.

Lemma filter_twice {A : Type} (f g : A -> bool) (l : list A) :
  List.filter g (List.filter f l) = List.filter (fun x => f x && g x) l.
Proof.
  induction l as [|a l IH]; simpl; [done|].
  destruct (f a); simpl; [|done]. destruct (g a); by rewrite IH.
Qed.

Lemma includes_empty (s : string) : includes s EmptyString = true.
Proof. by destruct s. Qed.

Lemma filterProducts_passesb (products : list Product) (c t : string) :
  filterProducts products c (toLowerCase t) = List.filter (passesb c t) products.
Proof.
  unfold filterProducts, passesb. rewrite nonEmpty_toLowerCase.
  destruct (nonEmpty c) eqn:Ec, (nonEmpty t) eqn:Et; simpl.
  - apply filter_twice.
  - destruct t; [|done]. simpl. apply List.filter_ext. intros p.
    by rewrite includes_empty, andb_true_r.
  - done.
  - destruct t; [|done]. simpl. symmetry. apply filter_all. intros p.
    apply includes_empty.
Qed.

Lemma displayProducts_grid (products : list Product) st :
  grid_products (productsContainer (displayProducts products st)) = products.
Proof.
  unfold displayProducts, grid_products. simpl. rewrite map_map. simpl. apply map_id.
Qed.

Lemma List_filter_sublist {A : Type} (f : A -> bool) (l : list A) :
  List.filter f l `sublist_of` l.
Proof.
  induction l as [|a l IH]; simpl; [done|].
  destruct (f a); [by apply sublist_skip | by apply sublist_cons].
Qed.

(** The claim C3 as it is worded fails: with [" re"] in the search box (a
    space, then "re") and no category, the grid shows the product named
    Cream, whose name does not contain the term. *)
Lemma C3_counterexample :
  exists st',
    updateProductGrid Sample.env0 (Sample.searching " re") = Ok st'
    /\ search_value (Sample.searching " re") = " re"
    /\ selectedCategory_of (Sample.searching " re") = EmptyString
    /\ Sample.cream ∈ grid_products (productsContainer st')
    /\ ~ passes EmptyString " re" Sample.cream.
Proof.
  eexists. split; [by vm_compute|]. split; [done|]. split; [done|]. split.
  - vm_compute. apply list_elem_of_here.
  - intros H. apply passesb_spec in H. by vm_compute in H.
Qed.

(** C3, amended: whatever the catalog, the category value and the content
    of the search box, when every product that passes the filter has a
    name (the card of a product cannot be written without one), the grid
    shows exactly the products whose category is the selected one (all of
    them when the value is empty) and whose name contains,
    case-insensitively, the search term with the white space at its two
    ends removed; they are shown in catalog order, as a subsequence of the
    catalog. *)
Theorem C3_grid_filter env st products :
  catalog_for_grid env st = Ok products ->
  (forall p, p ∈ products ->
             passes (selectedCategory_of st) (trim (search_value st)) p ->
             name p <> None) ->
  exists st',
    updateProductGrid env st = Ok st'
    /\ let shown := grid_products (productsContainer st') in
       let c := selectedCategory_of st in
       let t := trim (search_value st) in
       shown = List.filter (passesb c t) products
       /\ (forall p, p ∈ shown <-> p ∈ products /\ passes c t p)
       /\ shown `sublist_of` products.
Proof.
  intros Hcat _. unfold updateProductGrid. rewrite Hcat.
  rewrite searchTerm_of_trim, filterProducts_passesb.
  set (c := selectedCategory_of st). set (t := trim (search_value st)).
  assert (exists st', match List.filter (passesb c t) products with
                      | [] => Ok (set_productsContainer
                                    (GridPlaceholder "No products match your filters.") st)
                      | _ :: _ => Ok (displayProducts (List.filter (passesb c t) products) st)
                      end = Ok st'
                      /\ grid_products (productsContainer st')
                           = List.filter (passesb c t) products) as (st' & Hst' & Hshown).
  { destruct (List.filter (passesb c t) products) as [|p l] eqn:E.
    - by eexists.
    - eexists. split; [done|]. apply displayProducts_grid. }
  exists st'. split; [done|]. simpl. rewrite Hshown. split; [done|]. split.
  - intros p. rewrite list_elem_of_In, List.filter_In, <- list_elem_of_In, passesb_spec.
    tauto.
  - apply List_filter_sublist.
Qed.

(** C3 on the catalog of the examples with ["  RE "] in the search box:
    the grid shows cream alone. *)
Lemma C3_grid_filter_witness :
  exists st',
    updateProductGrid Sample.env0 (Sample.searching "  RE ") = Ok st'
    /\ grid_products (productsContainer st') = [Sample.cream].
Proof.
  assert (forall p, p ∈ Sample.catalog ->
                    passes (selectedCategory_of (Sample.searching "  RE "))
                      (trim (search_value (Sample.searching "  RE "))) p ->
                    name p <> None) as Hnamed.
  { intros p Hp _. apply elem_of_cons in Hp as [->|Hp]; [done|].
    apply elem_of_cons in Hp as [->|Hp]; [done|]. by apply elem_of_nil in Hp. }
  destruct (C3_grid_filter Sample.env0 (Sample.searching "  RE ") Sample.catalog eq_refl
              Hnamed) as (st' & Hst' & Hshown & _).
  exists st'. split; [exact Hst' | exact Hshown].
Defined.

(** The scenario of the specification: the category "cleanser" shows gel
    alone, and the term "re" without category shows cream alone. *)
Example scenario_filter :
  filterProducts Sample.catalog "cleanser" EmptyString = [Sample.gel]
  /\ filterProducts Sample.catalog EmptyString "re" = [Sample.cream].
Proof. by vm_compute. Qed.

End GridClaims.

(** ** Facts about the conversation pipeline *)

Module PipelineFacts.
Import JsString Client Spec.
Local Open Scope list_scope.

(** *** The search from the page *)

Lemma performWebSearch_run env query st :
  performWebSearch env query st = (Ok (search_results env query), after_search env query st).
Proof.
  unfold performWebSearch, search_results, after_search, search_proxy, try_catch.
  destruct (or_str (SEARCH_PROXY_URL env) (SEARCH_WORKER_URL env)) as [proxy|]; [|done].
  destruct (nonEmpty proxy); [|done].
  unfold bind, do_fetch, logged. simpl.
  destruct (fetch env (PostSearch proxy query)) as [msg|ok status_ txt j]; [done|].
  destruct ok; simpl; [|done].
  destruct j as [j|]; [|done].
  destruct j as [| | | |xs|fields]; try done.
  unfold bind, lift, ret. simpl.
  destruct (Js.lookup_field "results" fields) as [[| | | |xs|]|]; done.
Qed.

(** *** The chat call *)

Lemma callOpenAIWithMessages_run env messages st :
  callOpenAIWithMessages env messages st
  = (chat_reply env messages, after_chat env messages st).
Proof.
  unfold callOpenAIWithMessages, chat_reply, after_chat, chat_request.
  assert (forall rq, 
            bind (do_fetch env rq)
              (fun resp =>
                 match resp with
                 | NetworkError msg => throw msg
                 | HttpResponse ok status_ txt j =>
                     if negb ok
                     then throw ("OpenAI API error: " ++ ofZ status_ ++ " - " ++ txt)%string
                     else match j with
                          | Some data => ret (reply_content data)
                          | None => throw SyntaxError_json
                          end
                 end) st
            = (reply_of (fetch env rq), logged rq st)) as Hcall.
  { intros rq. unfold bind, do_fetch, reply_of, logged.
    destruct (fetch env rq) as [msg|[] status_ txt [data|]]; done. }
  destruct (or_str (or_str (CF_WORKER_URL env) (CLOUDFLARE_WORKER_URL env))
              (Some DEFAULT_WORKER_URL)) as [[|c u]|]; simpl.
  - destruct (or_str (OPENAI_API_KEY env) (OPENAIKEY env)) as [[|c k]|]; simpl;
      [done | apply Hcall | done].
  - apply Hcall.
  - destruct (or_str (OPENAI_API_KEY env) (OPENAIKEY env)) as [[|c k]|]; simpl;
      [done | apply Hcall | done].
Qed.

(** *** Steps that touch the chat window only *)

Lemma appendMessageToChat_frame role_ v st :
  exists r w, appendMessageToChat role_ v st = (r, set_chatWindow w st).
Proof.
  unfold appendMessageToChat. destruct st; simpl.
  destruct chatWindow0; [|by eexists _, _].
  destruct (escapeHtml v); by eexists _, _.
Qed.

Lemma appendMessageToChat_str role_ s st :
  exists w, appendMessageToChat role_ (Some (JStr s)) st = (Ok tt, set_chatWindow w st).
Proof.
  unfold appendMessageToChat. destruct st; simpl.
  destruct chatWindow0; by eexists.
Qed.

Lemma show_citations_frame webResults st :
  exists r w, show_citations webResults st = (r, set_chatWindow w st).
Proof.
  unfold show_citations, appendCitationsToChat, ret. destruct st; simpl.
  destruct webResults; [by eexists _, _|].
  destruct chatWindow0; [|by eexists _, _].
  destruct (res_map _ _); by eexists _, _.
Qed.

Lemma chat_twice w w' st : set_chatWindow w (set_chatWindow w' st) = set_chatWindow w st.
Proof. done. Qed.

Lemma chat_conv w st : conversationMessages (set_chatWindow w st) = conversationMessages st.
Proof. done. Qed.

Lemma chat_generateBtn w st : generateBtn (set_chatWindow w st) = generateBtn st.
Proof. done. Qed.

Lemma comm_conv w v st :
  set_conversationMessages v (set_chatWindow w st)
  = set_chatWindow w (set_conversationMessages v st).
Proof. done. Qed.

Lemma comm_generateBtn w v st :
  set_generateBtn v (set_chatWindow w st) = set_chatWindow w (set_generateBtn v st).
Proof. done. Qed.

Lemma comm_routine w v st :
  set_routineGenerated v (set_chatWindow w st) = set_chatWindow w (set_routineGenerated v st).
Proof. done. Qed.

Lemma comm_userInput w v st :
  set_userInput v (set_chatWindow w st) = set_chatWindow w (set_userInput v st).
Proof. done. Qed.

Lemma comm_sendBtn w b st :
  sendBtn_disable b (set_chatWindow w st) = set_chatWindow w (sendBtn_disable b st).
Proof. unfold sendBtn_disable. simpl. by destruct (sendBtn st). Qed.

Lemma comm_after_search env q w st :
  after_search env q (set_chatWindow w st) = set_chatWindow w (after_search env q st).
Proof. unfold after_search. by destruct (search_proxy env). Qed.

Lemma comm_after_chat env ms w st :
  after_chat env ms (set_chatWindow w st) = set_chatWindow w (after_chat env ms st).
Proof. unfold after_chat. by destruct (chat_request env ms). Qed.

Create Rewrite HintDb chat_out.

Lemma conv_after_search env q st :
  conversationMessages (after_search env q st) = conversationMessages st.
Proof. unfold after_search. by destruct (search_proxy env). Qed.

Lemma conv_after_chat env ms st :
  conversationMessages (after_chat env ms st) = conversationMessages st.
Proof. unfold after_chat. by destruct (chat_request env ms). Qed.

Lemma conv_set v st : conversationMessages (set_conversationMessages v st) = v.
Proof. done. Qed.

Lemma conv_set_generateBtn v st :
  conversationMessages (set_generateBtn v st) = conversationMessages st.
Proof. done. Qed.

Lemma conv_sendBtn_disable b st :
  conversationMessages (sendBtn_disable b st) = conversationMessages st.
Proof. unfold sendBtn_disable. by destruct (sendBtn st). Qed.

Lemma conv_set_userInput v st :
  conversationMessages (set_userInput v st) = conversationMessages st.
Proof. done. Qed.

Lemma chat_routine w st : routineGenerated (set_chatWindow w st) = routineGenerated st.
Proof. done. Qed.

Lemma chat_netlog w st : netlog (set_chatWindow w st) = netlog st.
Proof. done. Qed.

Lemma chat_sendBtn w st : sendBtn (set_chatWindow w st) = sendBtn st.
Proof. done. Qed.

Lemma conv_set_routine v st :
  conversationMessages (set_routineGenerated v st) = conversationMessages st.
Proof. done. Qed.

#[export] Hint Rewrite conv_after_search conv_after_chat conv_set conv_set_generateBtn
  conv_sendBtn_disable conv_set_userInput conv_set_routine chat_routine chat_netlog
  chat_sendBtn : chat_out.
#[export] Hint Rewrite chat_twice chat_conv chat_generateBtn comm_conv comm_generateBtn comm_routine
  comm_userInput comm_sendBtn comm_after_search comm_after_chat : chat_out.

(** A step on the chat window is replaced by its frame. *)
Ltac chat_step :=
  match goal with
  | |- context [appendMessageToChat ?r (Some (JStr ?v)) ?s] =>
      let w := fresh "w" in
      destruct (appendMessageToChat_str r v s) as (w & ->)
  | |- context [appendMessageToChat ?r ?v ?s] =>
      let w := fresh "w" in
      let res := fresh "res" in
      destruct (appendMessageToChat_frame r v s) as (res & w & ->)
  | |- context [show_citations ?ws ?s] =>
      let w := fresh "w" in
      let res := fresh "res" in
      destruct (show_citations_frame ws s) as (res & w & ->)
  end.

Ltac norm := cbv beta iota zeta; autorewrite with chat_out; rewrite ?app_nil_r.

Ltac run_step :=
  first
    [ chat_step
    | rewrite performWebSearch_run
    | rewrite callOpenAIWithMessages_run ];
  norm.

Ltac split_res :=
  match goal with
  | |- context [match ?r with Ok _ => _ | Throw _ => _ end] =>
      is_var r; destruct r; norm
  end.

Ltac finish env st :=
  unfold after_search, after_chat, sendBtn_disable; cbn [app];
  destruct (search_proxy env);
  repeat match goal with
         | |- context [chat_request ?e ?m] => destruct (chat_request e m)
         end;
  simpl; destruct (sendBtn st);
  by eexists _, _.

Lemma generateBtn_click_run env st p l :
  selectedProducts st = p :: l ->
  exists r w, generateBtn_click env st = (r, set_chatWindow w (generate_effect env st)).
Proof.
  intros Hsel. unfold generateBtn_click, generate_effect. rewrite Hsel.
  fold (generate_query (p :: l)). set (q := generate_query (p :: l)).
  unfold push_message, push_web_results, show_citations.
  unfold bind, try_finally, try_catch, modify, gets, lift, web_entries, res_bind.
  norm. run_step. run_step.
  destruct (search_results env q) as [|r0 rs] eqn:Hws; unfold ret; norm.
  - run_step.
    destruct (chat_reply env _) as [c|msg] eqn:Hc; norm.
    + run_step. destruct res; norm; [|run_step]; finish env st.
    + run_step. finish env st.
  - destruct (web_results_message (r0 :: rs)) as [m|msg]; norm.
    + run_step.
      destruct (chat_reply env _) as [c|msg] eqn:Hc; norm.
      * run_step. destruct res; norm.
        -- match goal with
           | |- context [appendCitationsToChat ?ws ?s] =>
               destruct (show_citations_frame ws s) as (res & w1 & E)
           end.
           unfold show_citations in E. rewrite E. norm.
           destruct res; norm; [|run_step]; finish env st.
        -- run_step. finish env st.
      * run_step. finish env st.
    + run_step. finish env st.
Qed.

Lemma chatForm_submit_run env st value :
  userInput st = Some value ->
  nonEmpty value && nonEmpty (trim value) = true ->
  routineGenerated st = true ->
  exists r w,
    chatForm_submit env st = (r, set_chatWindow w (followup_effect env (trim value) st)).
Proof.
  intros Hin Htext Hgen. unfold chatForm_submit, followup_effect.
  rewrite Hin, Htext, Hgen. simpl negb. cbv iota.
  fold (followup_query (trim value)). set (q := followup_query (trim value)).
  unfold push_message, push_web_results, show_citations.
  unfold bind, try_finally, try_catch, modify, gets, lift, web_entries, res_bind.
  norm. run_step. run_step.
  destruct (search_results env q) as [|r0 rs] eqn:Hws; unfold ret; norm.
  - run_step.
    destruct (chat_reply env _) as [c|msg] eqn:Hc; norm.
    + run_step. destruct res; norm; [|run_step]; finish env st.
    + run_step. finish env st.
  - destruct (web_results_message (r0 :: rs)) as [m|msg]; norm.
    + run_step.
      destruct (chat_reply env _) as [c|msg] eqn:Hc; norm.
      * run_step. destruct res; norm.
        -- match goal with
           | |- context [appendCitationsToChat ?ws ?s] =>
               destruct (show_citations_frame ws s) as (res & w1 & E)
           end.
           unfold show_citations in E. rewrite E. norm.
           destruct res; norm; [|run_step]; finish env st.
        -- run_step. finish env st.
      * run_step. finish env st.
    + finish env st.
Qed.

(** *** What each step leaves of the log and of the controls *)

Lemma netlog_after_search env q st :
  netlog (after_search env q st) = netlog st ++ search_call env q st.
Proof.
  unfold after_search, search_call. destruct (search_proxy env); simpl; [done|].
  by rewrite app_nil_r.
Qed.

Lemma netlog_after_chat env ms st :
  netlog (after_chat env ms st) = netlog st ++ chat_call env ms st.
Proof.
  unfold after_chat, chat_call. destruct (chat_request env ms); simpl; [done|].
  by rewrite app_nil_r.
Qed.

Lemma netlog_sendBtn_disable b st : netlog (sendBtn_disable b st) = netlog st.
Proof. unfold sendBtn_disable. by destruct (sendBtn st). Qed.

Lemma sendBtn_sendBtn_disable b st :
  sendBtn (sendBtn_disable b st) = (fun _ => b) <$> sendBtn st.
Proof. unfold sendBtn_disable. by destruct (sendBtn st) eqn:E; simpl. Qed.

Lemma sendBtn_after_search env q st : sendBtn (after_search env q st) = sendBtn st.
Proof. unfold after_search. by destruct (search_proxy env). Qed.

Lemma sendBtn_after_chat env ms st : sendBtn (after_chat env ms st) = sendBtn st.
Proof. unfold after_chat. by destruct (chat_request env ms). Qed.

Lemma generateBtn_after_search env q st : generateBtn (after_search env q st) = generateBtn st.
Proof. unfold after_search. by destruct (search_proxy env). Qed.

Lemma generateBtn_after_chat env ms st : generateBtn (after_chat env ms st) = generateBtn st.
Proof. unfold after_chat. by destruct (chat_request env ms). Qed.

Lemma generateBtn_sendBtn_disable b st : generateBtn (sendBtn_disable b st) = generateBtn st.
Proof. unfold sendBtn_disable. by destruct (sendBtn st). Qed.

Lemma search_call_frame env q st st' :
  sendBtn st' = sendBtn st -> generateBtn st' = generateBtn st ->
  search_call env q st' = search_call env q st.
Proof. intros H1 H2. unfold search_call. by rewrite H1, H2. Qed.

Lemma chat_call_frame env ms st st' :
  sendBtn st' = sendBtn st -> generateBtn st' = generateBtn st ->
  chat_call env ms st' = chat_call env ms st.
Proof. intros H1 H2. unfold chat_call. by rewrite H1, H2. Qed.

Lemma netlog_set_conv v st : netlog (set_conversationMessages v st) = netlog st.
Proof. done. Qed.

Lemma netlog_set_generateBtn v st : netlog (set_generateBtn v st) = netlog st.
Proof. done. Qed.

Lemma netlog_set_routine v st : netlog (set_routineGenerated v st) = netlog st.
Proof. done. Qed.

Lemma netlog_set_userInput v st : netlog (set_userInput v st) = netlog st.
Proof. done. Qed.

Lemma sendBtn_set_conv v st : sendBtn (set_conversationMessages v st) = sendBtn st.
Proof. done. Qed.

Lemma sendBtn_set_generateBtn v st : sendBtn (set_generateBtn v st) = sendBtn st.
Proof. done. Qed.

Lemma sendBtn_set_routine v st : sendBtn (set_routineGenerated v st) = sendBtn st.
Proof. done. Qed.

Lemma sendBtn_set_userInput v st : sendBtn (set_userInput v st) = sendBtn st.
Proof. done. Qed.

Lemma generateBtn_set_conv v st : generateBtn (set_conversationMessages v st) = generateBtn st.
Proof. done. Qed.

Lemma generateBtn_set_generateBtn v st : generateBtn (set_generateBtn v st) = v.
Proof. done. Qed.

Lemma generateBtn_set_routine v st : generateBtn (set_routineGenerated v st) = generateBtn st.
Proof. done. Qed.

Lemma generateBtn_set_userInput v st : generateBtn (set_userInput v st) = generateBtn st.
Proof. done. Qed.

Create Rewrite HintDb log_out.
#[export] Hint Rewrite netlog_set_conv netlog_set_generateBtn netlog_set_routine
  netlog_set_userInput netlog_after_search netlog_after_chat netlog_sendBtn_disable
  sendBtn_set_conv sendBtn_set_generateBtn sendBtn_set_routine sendBtn_set_userInput
  sendBtn_after_search sendBtn_after_chat sendBtn_sendBtn_disable
  generateBtn_set_conv generateBtn_set_generateBtn generateBtn_set_routine
  generateBtn_set_userInput generateBtn_after_search generateBtn_after_chat
  generateBtn_sendBtn_disable : log_out.

(** A chat request is never a search. *)
Lemma chat_request_kind env ms rq :
  chat_request env ms = Ok rq -> is_chat_call (mkNetCall rq None false) = true.
Proof.
  unfold chat_request.
  destruct (or_str _ (Some DEFAULT_WORKER_URL)) as [[|c u]|];
    destruct (or_str (OPENAI_API_KEY env) (OPENAIKEY env)) as [[|c' k]|];
    by intros [= <-].
Qed.

Lemma search_call_Forall env q st (P : NetCall -> Prop) :
  (forall proxy, P (mkNetCall (PostSearch proxy q) (sendBtn st) (disabled (generateBtn st)))) ->
  Forall P (search_call env q st).
Proof. intros H. unfold search_call. destruct (search_proxy env); by repeat constructor. Qed.

Lemma chat_call_Forall env ms st (P : NetCall -> Prop) :
  (forall rq, is_chat_call (mkNetCall rq None false) = true ->
              P (mkNetCall rq (sendBtn st) (disabled (generateBtn st)))) ->
  Forall P (chat_call env ms st).
Proof.
  intros H. unfold chat_call. destruct (chat_request env ms) as [rq|] eqn:E; [|constructor].
  repeat constructor. by eapply H, chat_request_kind.
Qed.

(** *** The block of search results *)

(** A search result can be formatted unless it is [null]. *)
Lemma format_result_defined (i : nat) (r : JSON) :
  r <> JNull -> exists line, format_result i r = Ok line.
Proof. intros H. destruct r; try done; by eexists. Qed.

Lemma res_mapi_format_defined (i : nat) (rs : list JSON) :
  Forall (fun r => r <> JNull) rs -> exists lines, res_mapi format_result i rs = Ok lines.
Proof.
  revert i. induction rs as [|r rs IH]; intros i H; [by eexists|].
  apply Forall_cons in H as [Hr Hrs].
  destruct (format_result_defined i r Hr) as [line Hl].
  destruct (IH (S i) Hrs) as [lines Hls].
  simpl. rewrite Hl. simpl. rewrite Hls. by eexists.
Qed.

Lemma res_mapi_format_null (i : nat) (rs : list JSON) :
  JNull ∈ rs -> exists msg, res_mapi format_result i rs = Throw msg.
Proof.
  revert i. induction rs as [|r rs IH]; intros i H; [by apply elem_of_nil in H|].
  apply elem_of_cons in H as [<-|H]; [by eexists|].
  simpl. destruct (format_result i r); simpl; [|by eexists].
  destruct (IH (S i) H) as [msg ->]. by eexists.
Qed.

Lemma web_entries_defined (ws : list JSON) :
  Forall (fun r => r <> JNull) (firstn 6 ws) -> exists web, web_entries ws = Ok web.
Proof.
  intros H. unfold web_entries, web_results_message. destruct ws as [|r rs]; [by eexists|].
  destruct (res_mapi_format_defined 0 _ H) as [lines ->]. by eexists.
Qed.

Lemma web_entries_null (ws : list JSON) :
  JNull ∈ firstn 6 ws -> exists msg, web_entries ws = Throw msg.
Proof.
  intros H. unfold web_entries, web_results_message.
  destruct ws as [|r rs]; [by apply elem_of_nil in H|].
  destruct (res_mapi_format_null 0 _ H) as [msg ->]. by eexists.
Qed.

Lemma formattable_not_null (r : JSON) : formattable r = true -> r <> JNull.
Proof. by destruct r. Qed.




End PipelineFacts.

Module PipelineClaims.
Import JsString Client Spec PipelineFacts.
Local Open Scope list_scope.

(** C10: whatever the query and the behaviour of the search proxy,
    [performWebSearch] does not throw and returns a list: the empty list
    when no proxy is configured, when the call is rejected, when the status
    is not 2xx, when the body does not parse or is neither an array nor an
    object with an array under [results]; the result list of the proxy
    otherwise. *)
Theorem C10_performWebSearch_never_throws env query st :
  exists results st',
    performWebSearch env query st = (Ok results, st')
    /\ (search_proxy env = None -> results = [] /\ st' = st)
    /\ (forall proxy, search_proxy env = Some proxy ->
        results = proxy_results (fetch env (PostSearch proxy query))
        /\ match fetch env (PostSearch proxy query) with
           | NetworkError _ => results = []
           | HttpResponse false _ _ _ => results = []
           | HttpResponse true _ _ None => results = []
           | HttpResponse true _ _ (Some (JArr xs)) => results = xs
           | HttpResponse true _ _ (Some (JObj fields)) =>
               match Js.lookup_field "results" fields with
               | Some (JArr xs) => results = xs
               | _ => results = []
               end
           | HttpResponse true _ _ (Some _) => results = []
           end).
Proof.
  exists (search_results env query), (after_search env query st).
  split; [apply performWebSearch_run|].
  unfold search_results, after_search. split.
  - by intros ->.
  - intros proxy ->. split; [done|].
    destruct (fetch env (PostSearch proxy query)) as [msg|[] status_ txt [[| | | |xs|fields]|]];
      simpl; try done.
    by destruct (Js.lookup_field "results" fields) as [[| | | |xs|]|].
Qed.

(** Without the chat window there is nowhere to put a notice: a generation
    without selection changes nothing at all. *)
Lemma generate_without_selection_no_window env st :
  selectedProducts st = [] -> chatWindow st = None ->
  generateBtn_click env st = (Ok tt, st).
Proof.
  intros Hsel Hchat. unfold generateBtn_click, appendMessageToChat. by rewrite Hsel, Hchat.
Qed.

(** C5: a generation with an empty selection makes no network call, puts
    the notice in the chat window, and leaves the transcript and the flag
    of the generated routine as they were. *)
Theorem C5_generate_without_selection env st nodes :
  selectedProducts st = [] ->
  chatWindow st = Some nodes ->
  exists st',
    generateBtn_click env st = (Ok tt, st')
    /\ netlog st' = netlog st
    /\ chatWindow st' = Some (nodes ++ [select_first_notice])
    /\ conversationMessages st' = conversationMessages st
    /\ routineGenerated st' = routineGenerated st.
Proof.
  intros Hsel Hchat. unfold generateBtn_click, appendMessageToChat.
  rewrite Hsel, Hchat. simpl. by eexists.
Qed.

(** C5 on the page of the examples, where nothing is selected yet. *)
Lemma C5_generate_without_selection_witness :
  exists st',
    generateBtn_click Sample.env_search Sample.loaded = (Ok tt, st')
    /\ netlog st' = []
    /\ chatWindow st' = Some [select_first_notice]
    /\ conversationMessages st' = []
    /\ routineGenerated st' = false.
Proof.
  exact (C5_generate_without_selection Sample.env_search Sample.loaded [] eq_refl eq_refl).
Defined.

(** *** The transcript *)

(** A search contributes no entry, or one system entry. *)
Lemma web_entries_shape (ws : list JSON) (web : list Message) :
  web_entries ws = Ok web ->
  (ws = [] /\ web = []) \/ (ws <> [] /\ exists m, web = [m] /\ role m = "system").
Proof.
  unfold web_entries, web_results_message, res_bind. destruct ws as [|r rs].
  - intros [= <-]. by left.
  - destruct (res_mapi format_result 0 (firstn 6 (r :: rs))) as [lines|msg]; [|done].
    intros [= <-]. right. split; [done|]. by eexists.
Qed.








(** *** The triggering controls *)

(** During a generation every call is issued with the button disabled, and
    the button is enabled, with its label back, when the handler ends. *)
Lemma generate_controls env st :
  selectedProducts st <> [] ->
  let st' := snd (generateBtn_click env st) in
  generateBtn st' = mkButton false (innerHTML (generateBtn st))
  /\ exists calls,
       netlog st' = netlog st ++ calls
       /\ Forall (fun c => call_generateBtn_disabled c = true) calls.
Proof.
  intros Hsel. destruct (selectedProducts st) as [|p l] eqn:E; [done|].
  destruct (generateBtn_click_run env st p l E) as (r & w & Hrun).
  rewrite Hrun. cbn [snd]. rewrite chat_generateBtn, chat_netlog.
  unfold generate_effect. cbv zeta. split; [by autorewrite with log_out|].
  destruct (web_entries _) as [web|]; [destruct (chat_reply _ _)|];
    autorewrite with log_out; rewrite <- ?app_assoc; eexists; (split; [reflexivity|]);
    rewrite ?Forall_app; repeat split;
    first [apply search_call_Forall | apply chat_call_Forall]; intros;
    simpl; by autorewrite with log_out.
Qed.

(** During a follow-up the chat call is issued with the send button
    disabled, and the button is enabled when the handler ends; the search
    that precedes it is issued with the button as the handler found it. *)
Lemma followup_controls env st value web :
  userInput st = Some value ->
  trim value <> EmptyString ->
  routineGenerated st = true ->
  web_entries (search_results env (followup_query (trim value))) = Ok web ->
  let st' := snd (chatForm_submit env st) in
  sendBtn st' = (fun _ => false) <$> sendBtn st
  /\ exists calls,
       netlog st' = netlog st ++ calls
       /\ Forall (fun c =>
                    call_sendBtn_disabled c
                    = if is_chat_call c then (fun _ => true) <$> sendBtn st else sendBtn st)
                 calls.
Proof.
  intros Hin Htext Hgen Hweb.
  assert (nonEmpty value && nonEmpty (trim value) = true) as Hne.
  { destruct value; [done|]. simpl. by destruct (trim _). }
  destruct (chatForm_submit_run env st value Hin Hne Hgen) as (r & w & Hrun).
  rewrite Hrun. cbn [snd]. rewrite chat_sendBtn, chat_netlog.
  unfold followup_effect. cbv zeta. rewrite Hweb. split.
  - destruct (chat_reply _ _); autorewrite with log_out; by destruct (sendBtn st).
  - destruct (chat_reply _ _); autorewrite with log_out; rewrite <- ?app_assoc; eexists;
      (split; [reflexivity|]); rewrite ?Forall_app; repeat split;
      first [ apply search_call_Forall; intros; simpl; by autorewrite with log_out
            | apply chat_call_Forall; intros rq Hrq; unfold is_chat_call in *; simpl in *;
              rewrite Hrq; by autorewrite with log_out ].
Qed.

(** C8, at the input where the code departs from it: with a search proxy
    configured, a follow-up issues its first network call, the search,
    while the send button is enabled; only the chat call that follows is
    issued with the button disabled.  The button is enabled at the end. *)
Theorem C8_followup_search_issued_with_send_enabled :
  let st := Sample.asking "How often?" Sample.generated in
  let st' := snd (chatForm_submit Sample.env_search st) in
  sendBtn st = Some false
  /\ sendBtn st' = Some false
  /\ exists search_call chat_call,
       netlog st' = netlog st ++ [search_call; chat_call]
       /\ call_request search_call
            = PostSearch "https://search.example/search" "How often? L'Oréal"
       /\ issued_with_send_enabled search_call
       /\ call_sendBtn_disabled chat_call = Some true.
Proof.
  split; [by vm_compute|]. split; [by vm_compute|].
  eexists _, _. split; [by vm_compute|]. by vm_compute.
Qed.

End PipelineClaims.

(** ** Facts about the proxy workers *)

Module WorkerClaims.
Import JsString Worker Loading WorkerSpec.
Local Open Scope list_scope.

(** *** Paths *)

Lemma endsWith_search_not_chat (path : string) :
  endsWith path "/search" = true -> endsWith path "/chat" = false.
Proof.
  induction path as [|a path IH]; [done|].
  cbn [endsWith]. rewrite orb_true_iff, orb_false_iff. intros [H|H].
  - apply String.eqb_eq in H. injection H as -> ->. by vm_compute.
  - split; [|by apply IH].
    apply String.eqb_neq. intros E. injection E as -> ->. by vm_compute in H.
Qed.

(** *** The search without a key *)

Lemma doOpenAISearch_no_key rr env q max log :
  truthy_str (OPENAI_API_KEY env) = false ->
  doOpenAISearch rr env q max log = (Throw MISSING_KEY, log).
Proof. intros H. unfold doOpenAISearch. by rewrite H. Qed.

(** A search with an empty query is answered with an empty result list,
    whatever the keys, by both workers. *)
Lemma empty_query_no_results rr at_ env request body_ v :
  method request = "POST" ->
  is_json request = true ->
  json request = Some body_ ->
  body_q body_ = Ok v ->
  query_text v = EmptyString ->
  endsWith (dropTrailingSlash (pathname request)) "/search" = true ->
  fetch_combined rr at_ env request = (mkResponse 200 (Some (results_body [])) false, [])
  /\ fetch_minimal env request = (mkResponse 200 (Some (results_body [])) false, []).
Proof.
  intros Hm Hj Hb Hv Hq Hp. unfold fetch_combined, fetch_minimal. rewrite Hm. simpl.
  rewrite Hp, (endsWith_search_not_chat _ Hp).
  unfold search, search_minimal, read_q, bind, lift, ret.
  rewrite Hm, Hj, Hb. simpl. rewrite Hv. simpl. by rewrite Hq.
Qed.





(** *** The chat branch *)

Lemma prop_not_null (v : JSON) (k : string) :
  not_null v = true -> Js.prop v k = Ok (field v k).
Proof. by destruct v. Qed.

Lemma format_result_not_null (i : nat) (r : JSON) :
  not_null r = true -> format_result i r = Ok (result_text i r).
Proof.
  intros H. unfold format_result. by rewrite !prop_not_null.
Qed.

Lemma res_mapi_format (i : nat) (results : list JSON) :
  Forall (fun r => not_null r = true) results ->
  Client.res_mapi format_result i results = Ok (result_texts i results).
Proof.
  intros H. revert i. induction H as [|r rs Hr Hrs IH]; intros i; simpl; [done|].
  by rewrite format_result_not_null, IH.
Qed.

Lemma prompt_part_not_null (m : JSON) :
  not_null m = true -> prompt_part m = Ok (line_of m).
Proof.
  intros H. unfold prompt_part, line_of, role_label. rewrite !prop_not_null by done. simpl.
  destruct (field m "role") as [[| | |r| |]|]; try done.
  by destruct (String.eqb r "system"), (String.eqb r "user"), (String.eqb r "assistant").
Qed.

Lemma prompt_parts_not_null (messages : list JSON) :
  Forall (fun m => not_null m = true) messages ->
  prompt_parts messages = Ok (omap line_of messages).
Proof.
  induction 1 as [|m ms Hm Hms IH]; simpl; [done|].
  rewrite prompt_part_not_null, IH by done. simpl. by destruct (line_of m).
Qed.

Lemma find_user_spec (before : list JSON) (u : JSON) (rest : list JSON) :
  Forall (fun m => not_null m = true) before ->
  Forall (fun m => is_user m = false) before ->
  not_null u = true -> is_user u = true ->
  find_user (before ++ u :: rest) = Ok (Some u).
Proof.
  intros Hnn Hnu Hu Huser. induction before as [|m before IH]; simpl.
  - rewrite prop_not_null by done. simpl. unfold is_user in Huser.
    destruct (field u "role") as [[| | |r| |]|]; try done. by rewrite Huser.
  - apply Forall_cons in Hnn as [Hm Hnn]. apply Forall_cons in Hnu as [Hmu Hnu].
    rewrite prop_not_null by done. simpl. unfold is_user in Hmu.
    destruct (field m "role") as [[| | |r| |]|]; try by apply IH.
    rewrite Hmu. by apply IH.
Qed.

Lemma nonEmpty_app (a b : string) : nonEmpty (a ++ b)%string = nonEmpty a || nonEmpty b.
Proof. by destruct a. Qed.

Lemma result_text_nonEmpty (i : nat) (r : JSON) : nonEmpty (result_text i r) = true.
Proof.
  unfold result_text. rewrite nonEmpty_app. apply orb_true_iff. by right.
Qed.

Lemma join_nonEmpty (sep x : string) (rest : list string) :
  nonEmpty x = true -> nonEmpty (join sep (x :: rest)) = true.
Proof.
  intros H. destruct rest as [|y rest]; simpl; [done|].
  rewrite nonEmpty_app. by rewrite H.
Qed.

Lemma block_nonEmpty (results : list JSON) :
  results <> [] ->
  nonEmpty (join (LF ++ LF) (result_texts 0 (firstn 6 results))) = true.
Proof.
  destruct results as [|r rs]; [done|]. intros _.
  change (firstn 6 (r :: rs)) with (r :: firstn 5 rs).
  change (result_texts 0 (r :: firstn 5 rs))
    with (result_text 0 r :: result_texts 1 (firstn 5 rs)).
  apply join_nonEmpty, result_text_nonEmpty.
Qed.

(** With the key configured and an answer that holds results, the search
    step keeps the first six and puts the block that lists them in front of
    the transcript. *)
Lemma search_step_results rr env key q messages status_ txt j results log :
  OPENAI_API_KEY env = Some key -> nonEmpty key = true ->
  Js.truthy q = true ->
  fetch env (PostResponses key (search_prompt 6 (Js.template q)) 0)
    = HttpResponse true status_ txt (Some j) ->
  rr j 6%nat = Ok results ->
  results <> [] ->
  Forall (fun r => not_null r = true) (firstn 6 results) ->
  search_step rr env q messages log
  = (Ok (firstn 6 results, results_block (firstn 6 results) :: messages),
     log ++ [PostResponses key (search_prompt 6 (Js.template q)) 0]).
Proof.
  intros Hkey Hne Hq Hfetch Hrr Hres Hnn.
  unfold search_step, doOpenAISearch. unfold try_catch, bind, do_fetch, lift, ret, throw.
  rewrite Hq, Hkey. simpl. rewrite Hne. simpl. rewrite Hfetch. simpl. rewrite Hrr.
  simpl. rewrite res_mapi_format by done.
  by rewrite block_nonEmpty.
Qed.

(** With the key configured, the chat call sends the flattened transcript,
    whatever the provider answers. *)
Lemma callOpenAIResponses_call at_ env key messages log :
  OPENAI_API_KEY env = Some key -> nonEmpty key = true ->
  Forall (fun m => not_null m = true) messages ->
  snd (callOpenAIResponses at_ env messages log)
  = log ++ [PostResponses key (flatten messages) 2].
Proof.
  intros Hkey Hne Hnn. unfold callOpenAIResponses. unfold bind, lift, do_fetch, flatten.
  rewrite Hkey. simpl. rewrite Hne. simpl. rewrite prompt_parts_not_null by done.
  destruct (fetch env _) as [msg|[] status_ txt [j|]]; done.
Qed.

(** The query is the trimmed [message] when the body has one that is a
    non-empty string. *)
Lemma messageString_explicit (fields : list (string * JSON)) (c : ascii) (s : string) :
  Js.lookup_field "message" fields = Some (JStr (String c s)) ->
  messageString_of (JObj fields) = Ok (Some (JStr (trim (String c s)))).
Proof. intros H. unfold messageString_of. simpl. by rewrite H. Qed.

(** Failing that, it is the content of the last turn whose role is [user]. *)
Lemma messageString_last_user (fields : list (string * JSON)) (pre post : list JSON) (u : JSON) :
  (forall c s, Js.lookup_field "message" fields <> Some (JStr (String c s))) ->
  Js.lookup_field "messages" fields = Some (JArr (pre ++ u :: post)) ->
  Forall (fun m => not_null m = true) post ->
  Forall (fun m => is_user m = false) post ->
  is_user u = true ->
  messageString_of (JObj fields)
  = Ok (Js.or (field u "content") (Some (JStr EmptyString))).
Proof.
  intros Hmsg Hms Hnn Hnu Hu.
  assert (not_null u = true) as Hun by (by destruct u).
  assert (last_user_content (JObj fields)
          = Ok (Js.or (field u "content") (Some (JStr EmptyString)))) as Hlast.
  { assert (find_user (rev (pre ++ u :: post)) = Ok (Some u)) as Hfind.
    { rewrite rev_app_distr. cbn [rev]. rewrite <- app_assoc.
      apply find_user_spec; try done; by apply Forall_rev. }
    unfold last_user_content. cbn [Js.prop Client.res_bind]. rewrite Hms.
    cbn [Js.asArray]. destruct (pre ++ u :: post) as [|m l] eqn:E; [by destruct pre|].
    rewrite Hfind. cbn [Client.res_bind]. by rewrite prop_not_null. }
  unfold messageString_of. simpl.
  destruct (Js.lookup_field "message" fields) as [[| | |[|c s]| |]|] eqn:E; try done.
  by destruct (Hmsg c s).
Qed.

(** Every message of known role has its line in the prompt, in order. *)
Lemma flatten_lines (messages : list JSON) :
  Forall (fun m => is_Some (line_of m)) messages ->
  Forall2 (fun m l => line_of m = Some l) messages (omap line_of messages).
Proof.
  induction 1 as [|m ms [l Hl] Hms IH]; simpl; [constructor|].
  rewrite Hl. simpl. by constructor.
Qed.

(** The chat branch as it is written (the module that holds it is not
    loaded as it stands, see [Loading]): for a POST chat request with a JSON
    body, the key configured and turns that are not null, (1) the query is
    the trimmed [message] when
    the body has one that is a non-empty string, and the content of the last
    user turn of [messages] when it has none; (2) when the search for it
    answers results, the first six at most are formatted as a block that is
    put in front of the transcript as a system message; (3) the transcript
    so obtained is sent to the language-model API as one prompt, the lines
    [ROLE: content] of its turns in order, a blank line between two. *)
Lemma chat_pipeline_as_written rr at_ env request fields key q status_ txt j results :
  method request = "POST" ->
  endsWith (dropTrailingSlash (pathname request)) "/chat" = true ->
  is_json request = true ->
  json request = Some (JObj fields) ->
  Forall (fun m => not_null m = true) (transcript_of fields) ->
  OPENAI_API_KEY env = Some key ->
  nonEmpty key = true ->
  messageString_of (JObj fields) = Ok q ->
  Js.truthy q = true ->
  fetch env (PostResponses key (search_prompt 6 (Js.template q)) 0)
    = HttpResponse true status_ txt (Some j) ->
  rr j 6%nat = Ok results ->
  results <> [] ->
  Forall (fun r => not_null r = true) (firstn 6 results) ->
  let shown := firstn 6 results in
  let transcript := results_block shown :: transcript_of fields in
  (forall c s, Js.lookup_field "message" fields = Some (JStr (String c s)) ->
     q = Some (JStr (trim (String c s))))
  /\ (forall pre u post,
        (forall c s, Js.lookup_field "message" fields <> Some (JStr (String c s))) ->
        transcript_of fields = pre ++ u :: post ->
        is_user u = true -> Forall (fun m => is_user m = false) post ->
        q = Js.or (field u "content") (Some (JStr EmptyString)))
  /\ (length shown <= 6)%nat
  /\ field (results_block shown) "role" = Some (JStr "system")
  /\ snd (fetch_combined rr at_ env request)
       = [PostResponses key (search_prompt 6 (Js.template q)) 0;
          PostResponses key (flatten transcript) 2]
  /\ (Forall (fun m => is_Some (line_of m)) (transcript_of fields) ->
       Forall2 (fun m l => line_of m = Some l) transcript (omap line_of transcript)).
Proof.
  intros Hm Hp Hj Hb Hnn Hkey Hne Hq Htruthy Hfetch Hrr Hres Hshown shown transcript.
  split; [|split; [|split; [|split; [|split]]]].
  - intros c s H. rewrite (messageString_explicit _ _ _ H) in Hq. by injection Hq.
  - intros pre u post Hmsg Hts Hu Hpost.
    assert (Js.lookup_field "messages" fields = Some (JArr (pre ++ u :: post))) as Hms.
    { unfold transcript_of in Hts.
      destruct (Js.lookup_field "messages" fields) as [[| | | |l|]|]; simpl in Hts;
        try by destruct pre.
      by rewrite Hts. }
    assert (Forall (fun m => not_null m = true) post) as Hpn.
    { rewrite Hts in Hnn. apply Forall_app in Hnn as [_ Hnn].
      by apply Forall_cons in Hnn as [_ Hnn]. }
    rewrite (messageString_last_user fields pre post u Hmsg Hms Hpn Hpost Hu) in Hq.
    by injection Hq.
  - unfold shown. rewrite length_take. lia.
  - done.
  - unfold fetch_combined. rewrite Hm. simpl. rewrite Hp. simpl.
    unfold chat. rewrite Hj, Hb. simpl. unfold bind at 1. unfold lift at 1.
    unfold bind at 1. unfold lift at 1. rewrite Hq.
    fold (transcript_of fields). unfold bind at 1.
    rewrite (search_step_results rr env key q (transcript_of fields) status_ txt j results []
               Hkey Hne Htruthy Hfetch Hrr Hres Hshown).
    unfold bind. cbn [snd fst].
    assert (Forall (fun m => not_null m = true) transcript) as Hall by (by constructor).
    pose proof (callOpenAIResponses_call at_ env key transcript
                  ([] ++ [PostResponses key (search_prompt 6 (Js.template q)) 0])
                  Hkey Hne Hall) as Hcall.
    fold shown. fold transcript.
    destruct (callOpenAIResponses at_ env transcript _) as [[resp|msg] log]; exact Hcall.
  - intros Hknown. apply flatten_lines. by constructor; [eexists|].
Qed.

(** The chat branch as it is written, for a chat request with three turns
    and a search that answers eight results: six are listed in the block,
    and the prompt holds the block and the three turns. *)
Lemma chat_pipeline_as_written_example :
  let block :=
    ("Web search results (top):" ++ LF ++ LF
       ++ join (LF ++ LF) (result_texts 0 (firstn 6 Sample.eight_hits)))%string in
  snd (fetch_combined Sample.read_results Sample.assistant_text Sample.with_key
         Sample.chat_request)
  = [PostResponses "sk-test" (search_prompt 6 "How often?") 0;
     PostResponses "sk-test"
       (join (LF ++ LF)
          ["SYSTEM: " ++ block; "USER: Which serum?"; "ASSISTANT: The blue one.";
           "USER: How often?"])%string 2]
  /\ length (firstn 6 Sample.eight_hits) = 6%nat.
Proof.
  assert (Forall (fun m => not_null m = true)
            (transcript_of [("messages", JArr [Sample.turn "user" "Which serum?";
                                               Sample.turn "assistant" "The blue one.";
                                               Sample.turn "user" "How often?"])])) as H1
    by (by repeat constructor).
  assert (Sample.eight_hits <> []) as H2 by (by vm_compute).
  assert (Forall (fun r => not_null r = true) (firstn 6 Sample.eight_hits)) as H3
    by (by repeat constructor).
  destruct (chat_pipeline_as_written Sample.read_results Sample.assistant_text Sample.with_key
              Sample.chat_request _ "sk-test" (Some (JStr "How often?")) 200 EmptyString
              (JArr Sample.eight_hits) Sample.eight_hits
              eq_refl eq_refl eq_refl eq_refl H1 eq_refl eq_refl eq_refl eq_refl eq_refl
              eq_refl H2 H3) as (_ & _ & _ & _ & Hcalls & _).
  split; [|reflexivity]. rewrite Hcalls. by vm_compute.
Defined.

(** *** The module of the combined worker *)

(** C7, at an input where the code departs from it.  The module of the
    combined worker holds, in [doOpenAISearch] (line 108), a
    regular-expression literal whose class [[\w./?&=%-#]] has the range
    [%-#], from the code 37 down to the code 35: the literal is no pattern
    and the module is not loaded, while its three other literals are well
    formed, and so would this one be with the hyphen at the end of its
    class.  A chat request with three turns, sent to the worker as it is
    deployed with the key configured, gets no response from it and no
    provider is called: no query is derived, nothing is searched, no prompt
    is forwarded. *)
Theorem C7_combined_worker_is_not_loaded :
  pattern_ok URL_PATTERN = false
  /\ pattern_ok "https?:\/\/[\w./?&=%#-]+" = true
  /\ Forall (fun p => pattern_ok p = true)
            [JSON_ARRAY_PATTERN; LINES_PATTERN; TRAILING_SLASH_PATTERN]
  /\ loads COMBINED_PATTERNS = false
  /\ forall rr at_,
       serve_combined rr at_ Sample.with_key Sample.chat_request = (None, []).
Proof.
  split; [by vm_compute|]. split; [by vm_compute|].
  split; [by repeat constructor|]. split; [by vm_compute|].
  intros rr at_. unfold serve_combined.
  by change (loads COMBINED_PATTERNS) with false.
Qed.

End WorkerClaims.

(** ** Facts about escaping *)

Module EscapeFacts.
Import JsString Client Spec PageSpec.
Local Open Scope list_scope.

(** *** Escaping *)

Lemma chars_app (a b : string) : chars (a ++ b)%string = chars a ++ chars b.
Proof. induction a as [|c a IH]; [done|]. simpl. by rewrite IH. Qed.

Lemma escape_char_no_markup (c : ascii) :
  Forall (fun x => is_markup x = false) (chars (escape_char c)).
Proof.
  unfold escape_char.
  destruct (nat_of_ascii c =? 38)%nat eqn:E1; [by repeat constructor|].
  destruct (nat_of_ascii c =? 60)%nat eqn:E2; [by repeat constructor|].
  destruct (nat_of_ascii c =? 62)%nat eqn:E3; [by repeat constructor|].
  destruct (nat_of_ascii c =? 34)%nat eqn:E4; [by repeat constructor|].
  destruct (nat_of_ascii c =? 39)%nat eqn:E5; [by repeat constructor|].
  repeat constructor. unfold is_markup. by rewrite E2, E3, E4, E5.
Qed.

Lemma escape_chars_no_markup (s : string) :
  Forall (fun x => is_markup x = false) (chars (escape_chars s)).
Proof.
  induction s as [|c s IH]; [constructor|].
  simpl. rewrite chars_app. apply Forall_app. split; [apply escape_char_no_markup|done].
Qed.

Lemma escape_chars_plain (s : string) :
  Forall (fun c => is_markup c = false /\ nat_of_ascii c <> 38%nat) (chars s) ->
  escape_chars s = s.
Proof.
  induction s as [|c s IH]; [done|]. simpl. intros H.
  apply Forall_cons in H as [[Hm Ha] Hs]. rewrite (IH Hs).
  unfold escape_char. unfold is_markup in Hm.
  apply orb_false_iff in Hm as [Hm H39]. apply orb_false_iff in Hm as [Hm H34].
  apply orb_false_iff in Hm as [H60 H62].
  apply Nat.eqb_neq in Ha. by rewrite Ha, H60, H62, H34, H39.
Qed.

(** X1: whatever the text, [escapeHtml] gives a text without any of the
    characters that open or close a tag or an attribute value; a text that
    holds none of them and no ampersand is returned as it is; and what is
    not a string makes it throw. *)
Theorem escapeHtml_safe (s : string) :
  (exists out, escapeHtml (Some (JStr s)) = Ok out
               /\ Forall (fun c => is_markup c = false) (chars out))
  /\ (Forall (fun c => is_markup c = false /\ nat_of_ascii c <> 38%nat) (chars s) ->
      escapeHtml (Some (JStr s)) = Ok s)
  /\ (forall v, (forall t, v <> Some (JStr t)) -> exists msg, escapeHtml v = Throw msg).
Proof.
  split; [|split].
  - exists (escape_chars s). split; [done|]. apply escape_chars_no_markup.
  - intros H. simpl. by rewrite escape_chars_plain.
  - intros v Hv. destruct v as [[| | |t| |]|]; simpl; try by eexists.
    by destruct (Hv t).
Qed.

End EscapeFacts.

(** ** Facts about the two conversations *)

Module ConversationFacts.
Import JsString Client Spec PageSpec PipelineFacts.
Local Open Scope list_scope.

(** Before any routine has been generated, a submission changes neither the
    transcript nor the flag. *)
Lemma followup_before_generation env st :
  routineGenerated st = false ->
  conversationMessages (snd (chatForm_submit env st)) = conversationMessages st
  /\ routineGenerated (snd (chatForm_submit env st)) = routineGenerated st.
Proof.
  intros Hgen. unfold chatForm_submit.
  destruct (userInput st) as [value|]; [|done].
  destruct (nonEmpty value && nonEmpty (trim value)); simpl; [|done].
  rewrite Hgen. simpl. unfold appendMessageToChat.
  by destruct (chatWindow st).
Qed.

(** X2: a follow-up that cannot be sent.  Without the input element, with
    a blank question, or before any routine has been generated, the submit
    handler makes no network call and leaves the transcript, the flag, the
    input and the send button as they are; in the first two cases it does
    nothing at all, in the third it puts one notice in the chat window. *)
Theorem followup_not_sent env st :
  (userInput st = None
   \/ (exists value, userInput st = Some value /\ trim value = EmptyString)
   \/ routineGenerated st = false) ->
  let st' := snd (chatForm_submit env st) in
  fst (chatForm_submit env st) = Ok tt
  /\ netlog st' = netlog st
  /\ conversationMessages st' = conversationMessages st
  /\ routineGenerated st' = routineGenerated st
  /\ userInput st' = userInput st
  /\ sendBtn st' = sendBtn st
  /\ (userInput st = None \/ (exists value, userInput st = Some value /\ trim value = EmptyString) ->
      st' = st)
  /\ (forall value nodes,
        userInput st = Some value -> trim value <> EmptyString ->
        chatWindow st = Some nodes ->
        chatWindow st'
        = Some (nodes ++ [ChatMsg "chat-msg assistant-msg" "Advisor"
                            "Please generate a routine first, then ask follow-up questions about it."])).
Proof.
  intros H. unfold chatForm_submit.
  destruct (userInput st) as [value|] eqn:Hin; [|by repeat split].
  destruct (nonEmpty value && nonEmpty (trim value)) eqn:Hne; simpl.
  - assert (trim value <> EmptyString) as Ht.
    { apply andb_true_iff in Hne as [_ Hne]. by destruct (trim value). }
    destruct H as [H|[(v & [= <-] & Hv)|Hgen]]; [done|done|].
    rewrite Hgen. simpl. unfold appendMessageToChat.
    destruct (chatWindow st) as [nodes|] eqn:Hw; simpl.
    + repeat split; try done.
      * intros [H|(v & [= <-] & Hv)]; done.
      * by intros v nodes' [= <-] _ [= <-].
    + repeat split; try done.
  - repeat split; try done.
    intros v nodes [= <-] Ht. exfalso.
    destruct value as [|c value]; [by apply Ht|]. simpl in Hne.
    destruct (trim (String c value)); [by apply Ht|done].
Qed.

(** A follow-up before any generation, on the page of the examples. *)
Lemma followup_not_sent_witness :
  let st := Sample.asking "How often?" Sample.gel_selected in
  let st' := snd (chatForm_submit Sample.env_search st) in
  netlog st' = [] /\ conversationMessages st' = [] /\ routineGenerated st' = false.
Proof.
  intros st st'.
  destruct (followup_not_sent Sample.env_search st (or_intror (or_intror eq_refl)))
    as (_ & H1 & H2 & H3 & _).
  split; [exact H1|]. split; [exact H2|exact H3].
Defined.

(** *** The chat endpoint *)

(** The URL a chat call goes to: the first of [window.CF_WORKER_URL],
    [window.CLOUDFLARE_WORKER_URL] that is a non-empty string, else the
    built-in one. *)
Lemma chat_request_worker env messages :
  exists url,
    chat_request env messages = Ok (PostMessages url messages)
    /\ nonEmpty url = true
    /\ url = or_empty (or_str (or_str (CF_WORKER_URL env) (CLOUDFLARE_WORKER_URL env))
                          (Some DEFAULT_WORKER_URL)).
Proof.
  unfold chat_request, or_str.
  destruct (CF_WORKER_URL env) as [[|c u]|]; simpl;
    destruct (CLOUDFLARE_WORKER_URL env) as [[|c' u']|]; simpl; by eexists.
Qed.

(** X3: every chat call goes to a worker.  The request is a POST of
    [{ messages }] to the configured worker URL or to the built-in one,
    logged once; the script never calls the provider with an API key, and
    the keys on [window] make no difference to what it does. *)
Theorem chat_call_through_worker env messages st :
  exists url,
    url = or_empty (or_str (or_str (CF_WORKER_URL env) (CLOUDFLARE_WORKER_URL env))
                      (Some DEFAULT_WORKER_URL))
    /\ nonEmpty url = true
    /\ netlog (snd (callOpenAIWithMessages env messages st))
       = netlog st ++ [mkNetCall (PostMessages url messages) (sendBtn st)
                         (disabled (generateBtn st))]
    /\ fst (callOpenAIWithMessages env messages st)
       = reply_of (fetch env (PostMessages url messages))
    /\ forall key1 key2,
         callOpenAIWithMessages
           (mkEnv (CF_WORKER_URL env) (CLOUDFLARE_WORKER_URL env) key1 key2
              (SEARCH_PROXY_URL env) (SEARCH_WORKER_URL env) (products_json env)
              (storage_accepts env) (fetch env)) messages st
         = callOpenAIWithMessages env messages st.
Proof.
  destruct (chat_request_worker env messages) as (url & Hrq & Hne & Hurl).
  exists url. split; [done|]. split; [done|].
  rewrite callOpenAIWithMessages_run. cbn [fst snd].
  unfold after_chat, chat_reply. rewrite Hrq. simpl. split; [done|]. split; [done|].
  intros key1 key2. rewrite ?callOpenAIWithMessages_run.
  unfold after_chat, chat_reply.
  destruct (chat_request_worker
              (mkEnv (CF_WORKER_URL env) (CLOUDFLARE_WORKER_URL env) key1 key2
                 (SEARCH_PROXY_URL env) (SEARCH_WORKER_URL env) (products_json env)
                 (storage_accepts env) (fetch env)) messages) as (url' & Hrq' & _ & Hurl').
  simpl in Hurl'. rewrite <- Hurl in Hurl'. subst url'.
  by rewrite ?Hrq, Hrq'.
Qed.

(** *** What the steps of a handler leave alone *)

Lemma routine_sendBtn_disable b st :
  routineGenerated (sendBtn_disable b st) = routineGenerated st.
Proof. unfold sendBtn_disable. by destruct (sendBtn st). Qed.

Lemma routine_after_search env q st :
  routineGenerated (after_search env q st) = routineGenerated st.
Proof. unfold after_search. by destruct (search_proxy env). Qed.

Lemma routine_after_chat env ms st :
  routineGenerated (after_chat env ms st) = routineGenerated st.
Proof. unfold after_chat. by destruct (chat_request env ms). Qed.

Lemma routine_set_conv v st :
  routineGenerated (set_conversationMessages v st) = routineGenerated st.
Proof. done. Qed.

Lemma routine_set_userInput v st :
  routineGenerated (set_userInput v st) = routineGenerated st.
Proof. done. Qed.

Lemma routine_set_generateBtn v st :
  routineGenerated (set_generateBtn v st) = routineGenerated st.
Proof. done. Qed.

Create Rewrite HintDb flag_out.
#[export] Hint Rewrite routine_sendBtn_disable routine_after_search routine_after_chat
  routine_set_conv routine_set_userInput routine_set_generateBtn : flag_out.

(** *** What the handlers return *)

Lemma generateBtn_click_returns env st : fst (generateBtn_click env st) = Ok tt.
Proof.
  unfold generateBtn_click. destruct (selectedProducts st) as [|p l] eqn:E.
  - by destruct (appendMessageToChat_str "assistant"
                   "Please select one or more products first." st) as (w & ->).
  - unfold bind at 1 2 3 4, push_message. cbv beta iota zeta.
    unfold modify at 1 2 3. cbv beta iota zeta.
    chat_step. cbv beta iota zeta. unfold try_finally, try_catch.
    match goal with |- context [(let (r, st') := let (r0, st'0) := ?b ?s in _ in _)] =>
      destruct (b s) as [[[]|msg] st1] end.
    + done.
    + by destruct (appendMessageToChat_str "assistant" ("Error generating routine: " ++ msg) st1)
        as (w' & ->).
Qed.

Lemma web_entries_push ws web st :
  web_entries ws = Ok web ->
  push_web_results ws st = (Ok tt, set_conversationMessages (conversationMessages st ++ web) st)
  \/ (ws = [] /\ web = [] /\ push_web_results ws st = (Ok tt, st)).
Proof.
  unfold web_entries, push_web_results. destruct ws as [|r rs].
  - intros [= <-]. right. by repeat split.
  - unfold res_bind, bind, lift, modify.
    destruct (web_results_message (r :: rs)) as [m|]; [|done]. intros [= <-]. by left.
Qed.

Lemma chatForm_submit_returns env st :
  (forall value, userInput st = Some value ->
     exists web, web_entries (search_results env (followup_query (trim value))) = Ok web) ->
  fst (chatForm_submit env st) = Ok tt.
Proof.
  intros Hweb. unfold chatForm_submit.
  destruct (userInput st) as [value|] eqn:Hin; [|done].
  destruct (Hweb value eq_refl) as [web Hw].
  destruct (nonEmpty value && nonEmpty (trim value)); simpl; [|done].
  destruct (routineGenerated st); simpl.
  - unfold bind at 1 2 3 4 5, push_message. cbv beta iota zeta. chat_step.
    unfold modify at 1. cbv beta iota zeta.
    rewrite performWebSearch_run. cbv beta iota zeta.
    fold (followup_query (trim value)).
    match goal with |- context [push_web_results ?ws ?s] =>
      destruct (web_entries_push ws web s Hw) as [->|(_ & _ & ->)] end;
      unfold modify at 1; cbv beta iota zeta; unfold try_finally, try_catch;
      match goal with |- context [(let (r, st') := let (r0, st'0) := ?b ?s in _ in _)] =>
        destruct (b s) as [[[]|msg] st1] end; try done;
      by match goal with |- context [appendMessageToChat ?r (Some (JStr ?v)) ?s] =>
        destruct (appendMessageToChat_str r v s) as (w' & ->) end.
  - by destruct (appendMessageToChat_str "assistant"
       "Please generate a routine first, then ask follow-up questions about it." st) as (w & ->).
Qed.

(** *** A generation that fails *)



(** *** A follow-up that fails *)



(** *** The head of the transcript *)

Lemma routineGenerated_followup_effect env text st :
  routineGenerated (followup_effect env text st) = routineGenerated st.
Proof.
  unfold followup_effect. cbv zeta.
  destruct (web_entries _) as [web|]; [destruct (chat_reply _ _)|];
    by autorewrite with flag_out.
Qed.

Lemma conversation_followup_effect env text st :
  exists rest,
    conversationMessages (followup_effect env text st) = conversationMessages st ++ rest.
Proof.
  unfold followup_effect. cbv zeta.
  destruct (web_entries _) as [web|]; [destruct (chat_reply _ _)|];
    autorewrite with chat_out; rewrite <- ?app_assoc; by eexists.
Qed.

Lemma conversation_generate_effect env st :
  exists rest,
    conversationMessages (generate_effect env st) = systemInstruction :: rest.
Proof.
  unfold generate_effect. cbv zeta.
  destruct (web_entries _) as [web|]; [destruct (chat_reply _ _)|];
    autorewrite with chat_out; simpl; by eexists.
Qed.

(** X6: the head of the transcript.  From a state whose transcript is
    empty with no routine generated, or starts with the system instruction,
    a click on the generate button and a submission of the chat form, on
    every path, give such a state again: a follow-up is never recorded in
    front of the system instruction, nor in a transcript without it. *)
Theorem transcript_head_kept env st :
  transcript_ok st ->
  transcript_ok (snd (generateBtn_click env st))
  /\ transcript_ok (snd (chatForm_submit env st)).
Proof.
  intros Hok. split.
  - destruct (selectedProducts st) as [|p l] eqn:E.
    + unfold generateBtn_click. rewrite E.
      by destruct (appendMessageToChat_str "assistant"
                     "Please select one or more products first." st) as (w & ->).
    + destruct (generateBtn_click_run env st p l E) as (r & w & ->). cbn [snd].
      unfold transcript_ok. rewrite chat_conv.
      by destruct (conversation_generate_effect env st) as [rest ->].
  - destruct (userInput st) as [value|] eqn:Hin.
    + destruct (nonEmpty value && nonEmpty (trim value)) eqn:Hne.
      * destruct (routineGenerated st) eqn:Hgen.
        -- destruct (chatForm_submit_run env st value Hin Hne Hgen) as (r & w & ->).
           cbn [snd]. unfold transcript_ok in *.
           rewrite chat_conv, chat_routine, routineGenerated_followup_effect.
           destruct (conversation_followup_effect env (trim value) st) as [rest ->].
           destruct (conversationMessages st) as [|m ms]; [congruence|done].
        -- destruct (followup_before_generation env st Hgen) as [Hc Hr].
           unfold transcript_ok in *. by rewrite Hc, Hr.
      * unfold chatForm_submit. rewrite Hin, Hne. done.
    + unfold chatForm_submit. by rewrite Hin.
Qed.

(** The page of the examples starts with an empty transcript and has one
    that starts with the system instruction after a generation and a
    follow-up. *)
Lemma transcript_head_kept_witness :
  let st := Sample.asking "How often?" Sample.generated in
  head (conversationMessages (snd (chatForm_submit Sample.env_search st)))
  = Some systemInstruction.
Proof.
  intros st.
  assert (transcript_ok st) as H by (by vm_compute).
  pose proof (proj2 (transcript_head_kept Sample.env_search st H)) as H2.
  unfold transcript_ok in H2.
  destruct (conversationMessages (snd (chatForm_submit Sample.env_search st))) as [|m ms] eqn:E.
  - by vm_compute in E.
  - simpl. by rewrite H2.
Defined.

(** *** What the handlers return, and when the follow-up throws *)

Lemma push_web_results_throws ws msg st :
  web_entries ws = Throw msg -> push_web_results ws st = (Throw msg, st).
Proof.
  unfold web_entries, push_web_results. destruct ws as [|r rs]; [done|].
  unfold res_bind, bind, lift. by destruct (web_results_message (r :: rs)); intros [= <-].
Qed.

Lemma chatForm_submit_throws env st value msg :
  userInput st = Some value ->
  nonEmpty value && nonEmpty (trim value) = true ->
  routineGenerated st = true ->
  web_entries (search_results env (followup_query (trim value))) = Throw msg ->
  fst (chatForm_submit env st) = Throw msg.
Proof.
  intros Hin Hne Hgen Hweb. unfold chatForm_submit. rewrite Hin, Hne, Hgen. simpl.
  unfold bind at 1 2 3 4 5, push_message. cbv beta iota zeta. chat_step.
  unfold modify at 1. cbv beta iota zeta.
  rewrite performWebSearch_run. cbv beta iota zeta.
  fold (followup_query (trim value)).
  by rewrite (push_web_results_throws _ msg _ Hweb).
Qed.

(** X7: what the two handlers return.  The click handler of the generate
    button never throws.  The submit handler of the chat form does not
    throw when each of the first six results of its search can be shown in
    the block of results: it is not [null], and its title, its URL and its
    snippet can be printed.  When one of the six is [null], and the
    question is sent, the handler throws: the question has been recorded
    and the search made, but no chat call is made, the send button is as it
    was and the input is not emptied. *)
Theorem handler_outcomes env st :
  fst (generateBtn_click env st) = Ok tt
  /\ ((forall value, userInput st = Some value ->
         Forall (fun r => formattable r = true)
                (firstn 6 (search_results env (followup_query (trim value))))) ->
      fst (chatForm_submit env st) = Ok tt)
  /\ (forall value,
        userInput st = Some value -> trim value <> EmptyString ->
        routineGenerated st = true ->
        JNull ∈ firstn 6 (search_results env (followup_query (trim value))) ->
        let st' := snd (chatForm_submit env st) in
        (exists msg, fst (chatForm_submit env st) = Throw msg)
        /\ conversationMessages st'
           = conversationMessages st ++ [mkMessage "user" (Some (JStr (trim value)))]
        /\ netlog st' = netlog st ++ search_call env (followup_query (trim value)) st
        /\ sendBtn st' = sendBtn st
        /\ userInput st' = userInput st).
Proof.
  split; [apply generateBtn_click_returns|]. split.
  - intros H. apply chatForm_submit_returns. intros value Hin.
    apply web_entries_defined. eapply Forall_impl; [by apply H|].
    intros r. apply formattable_not_null.
  - intros value Hin Htext Hgen Hnull st'.
    assert (nonEmpty value && nonEmpty (trim value) = true) as Hne.
    { destruct value; [done|]. simpl. by destruct (trim _). }
    destruct (web_entries_null _ Hnull) as [msg Hweb].
    split; [exists msg; by apply (chatForm_submit_throws env st value)|].
    destruct (chatForm_submit_run env st value Hin Hne Hgen) as (r & w & Hrun).
    unfold st'. rewrite Hrun. cbn [snd]. unfold followup_effect. cbv zeta. rewrite Hweb.
    split; [by autorewrite with chat_out|].
    split; [autorewrite with chat_out log_out; apply f_equal; by apply search_call_frame|].
    split; [by autorewrite with chat_out log_out|].
    unfold after_search. by destruct (search_proxy env).
Qed.

End ConversationFacts.

(** ** Facts about the marks of the grid *)

Module GridFacts.
Import JsString Client Spec PageSpec Events SelectionFacts.
Local Open Scope list_scope.

(** *** Membership in the selection *)

Lemma is_selected_spec (k : Z) (sel : list Product) :
  is_selected k sel = true <-> k ∈ map id sel.
Proof.
  unfold is_selected, some. rewrite existsb_exists. split.
  - intros (p & Hp & Hk). apply Z.eqb_eq in Hk. subst k.
    apply list_elem_of_In in Hp. change (map id sel) with (id <$> sel).
    by apply list_elem_of_fmap_2.
  - intros H. change (map id sel) with (id <$> sel) in H.
    apply list_elem_of_fmap in H as (p & -> & Hp).
    exists p. split; [by apply list_elem_of_In|apply Z.eqb_refl].
Qed.

Lemma is_selected_eq (k : Z) (sel sel' : list Product) :
  (k ∈ map id sel <-> k ∈ map id sel') -> is_selected k sel = is_selected k sel'.
Proof.
  intros H. destruct (is_selected k sel') eqn:E.
  - apply is_selected_spec. apply H. by apply is_selected_spec.
  - destruct (is_selected k sel) eqn:E'; [|done].
    apply is_selected_spec, H, is_selected_spec in E'. congruence.
Qed.

Lemma elem_of_ids_app (k : Z) (sel : list Product) (p : Product) :
  k ∈ map id (sel ++ [p]) <-> k ∈ map id sel \/ k = id p.
Proof.
  rewrite map_app. simpl. rewrite elem_of_app, list_elem_of_singleton. tauto.
Qed.

Lemma elem_of_ids_delete (k : Z) (sel : list Product) (i : nat) (q : Product) :
  NoDup (map id sel) -> sel !! i = Some q ->
  k ∈ map id (delete i sel) <-> k ∈ map id sel /\ k <> id q.
Proof.
  intros Hnd Hq.
  assert (map id sel ≡ₚ id q :: map id (delete i sel)) as Hp.
  { change (map id) with (fmap (M:=list) id). rewrite list_fmap_delete.
    apply delete_Permutation. by rewrite list_lookup_fmap, Hq. }
  rewrite Hp in Hnd. apply NoDup_cons in Hnd as [Hnotin _].
  rewrite Hp, elem_of_cons. split.
  - intros H. split; [by right|]. intros ->. done.
  - intros [[->|H] Hne]; done.
Qed.

(** *** The marks of the grid *)

Lemma mark_card_products (i : nat) (b : bool) (g : Grid) :
  grid_products (mark_card i b g) = grid_products g.
Proof.
  destruct g as [t|cards]; [done|]. unfold grid_products. simpl.
  revert i. induction cards as [|c cards IH]; intros [|i]; simpl; try done.
  f_equal. apply IH.
Qed.

Lemma card_ids_products (g : Grid) :
  map card_id (grid_cards g) = map id (grid_products g).
Proof. unfold grid_products. by rewrite map_map. Qed.

(** The invariant of the grid only depends on the products the cards show,
    on the id-to-product map and on the marks. *)
Lemma GridInv_update st st' :
  GridInv st ->
  productsById st' = productsById st ->
  grid_products (productsContainer st') = grid_products (productsContainer st) ->
  Forall (fun c => card_selected c = is_selected (card_id c) (selectedProducts st'))
         (grid_cards (productsContainer st')) ->
  GridInv st'.
Proof.
  intros [Hnd _ Hknown] Hby Hprod Hmarks. split; [|done|].
  - rewrite card_ids_products, Hprod, <- card_ids_products. done.
  - rewrite Hby.
    assert (Forall (fun p => productsById st !! id p = Some p)
                   (grid_products (productsContainer st))) as H.
    { unfold grid_products. apply Forall_map. by apply (Forall_impl _ _ _ Hknown). }
    rewrite <- Hprod in H. unfold grid_products in H. apply Forall_map in H.
    by apply (Forall_impl _ _ _ H).
Qed.

Lemma grid_lookup_mark (i j : nat) (b : bool) (g : Grid) (c : Card) :
  grid_cards (mark_card i b g) !! j = Some c ->
  exists c0, grid_cards g !! j = Some c0
             /\ card_product c = card_product c0
             /\ ((j = i /\ card_selected c = b) \/ (j <> i /\ c = c0)).
Proof.
  destruct g as [t|cards]; simpl; [by rewrite lookup_nil|].
  destruct (decide (j = i)) as [->|Hne].
  - rewrite list_lookup_alter_eq. destruct (cards !! i) as [c0|]; [|done].
    intros [= <-]. exists c0. split; [done|]. split; [done|]. by left.
  - rewrite list_lookup_alter_ne by done. intros H. exists c. by repeat split; [| right].
Qed.

(** Marking the card of an id, in a grid without two cards of one id, after
    the selection has changed at that id only. *)
Lemma GridInv_mark st st' i card b :
  GridInv st ->
  grid_cards (productsContainer st) !! i = Some card ->
  productsContainer st' = mark_card i b (productsContainer st) ->
  productsById st' = productsById st ->
  (forall k, k <> card_id card ->
     (k ∈ map id (selectedProducts st') <-> k ∈ map id (selectedProducts st))) ->
  is_selected (card_id card) (selectedProducts st') = b ->
  GridInv st'.
Proof.
  intros Hinv Hcard Hgrid Hby Hother Hthis.
  apply (GridInv_update st); [done|done|by rewrite Hgrid, mark_card_products|].
  rewrite Hgrid. apply Forall_lookup. intros j c Hc.
  destruct (grid_lookup_mark i j b _ c Hc) as (c0 & Hc0 & Hp & [[-> Hb]|[Hne ->]]).
  - rewrite Hcard in Hc0. injection Hc0 as <-.
    unfold card_id. rewrite Hp. fold (card_id card). by rewrite Hthis.
  - destruct Hinv as [Hnd Hmarks _].
    rewrite (proj1 (Forall_lookup _ _) Hmarks j c0 Hc0).
    apply is_selected_eq. symmetry. apply Hother. intros Heq.
    apply Hne. apply (NoDup_lookup _ j i (card_id c0) Hnd).
    + by rewrite list_lookup_fmap, Hc0.
    + rewrite list_lookup_fmap, Hcard. simpl. by rewrite Heq.
Qed.

Lemma is_selected_false (k : Z) (sel : list Product) :
  k ∉ map id sel -> is_selected k sel = false.
Proof.
  intros H. destruct (is_selected k sel) eqn:E; [|done]. by apply is_selected_spec in E.
Qed.

Lemma findIndex_id_Some (k : Z) (sel : list Product) (index : nat) :
  findIndex (fun p => id p =? k) sel = Some index ->
  exists q, sel !! index = Some q /\ id q = k.
Proof.
  intros H. destruct (findIndex_Some _ _ _ H) as (q & Hq & Hk & _).
  exists q. split; [done|]. by apply Z.eqb_eq.
Qed.

Lemma toggleSelection_GridInv env i st :
  NoDup (selected_ids st) -> GridInv st -> GridInv (toggleSelection env i st).
Proof.
  intros Hnd Hinv. unfold toggleSelection.
  destruct (grid_cards (productsContainer st) !! i) as [card|] eqn:Hcard; [|done].
  destruct (productsById st !! card_id card) as [product|] eqn:Hprod; [|done].
  assert (product = card_product card) as ->.
  { pose proof (proj1 (Forall_lookup _ _) (grid_known st Hinv) i card Hcard) as H.
    simpl in H. congruence. }
  destruct (findIndex _ (selectedProducts st)) as [index|] eqn:Hf.
  - destruct (findIndex_id_Some _ _ _ Hf) as (q & Hq & Hk).
    apply (GridInv_mark st _ i card false); try done.
    + by rewrite updateSelectedList_grid.
    + by rewrite updateSelectedList_byId.
    + intros k Hne. rewrite updateSelectedList_selected. simpl.
      rewrite (elem_of_ids_delete k _ index q Hnd Hq). rewrite Hk. tauto.
    + rewrite updateSelectedList_selected. simpl. apply is_selected_false.
      rewrite (elem_of_ids_delete _ _ index q Hnd Hq). rewrite Hk. tauto.
  - apply (GridInv_mark st _ i card true); try done.
    + by rewrite updateSelectedList_grid.
    + by rewrite updateSelectedList_byId.
    + intros k Hne. rewrite updateSelectedList_selected. simpl.
      rewrite elem_of_ids_app. fold (card_id card). tauto.
    + rewrite updateSelectedList_selected. simpl. apply is_selected_spec.
      apply elem_of_ids_app. by right.
Qed.

Lemma GridInv_saved env st : GridInv st -> GridInv (saveSelectedToStorage env st).
Proof.
  intros H. apply (GridInv_update st); try done.
  - by rewrite saveSelectedToStorage_byId.
  - by rewrite saveSelectedToStorage_grid.
  - rewrite saveSelectedToStorage_grid, saveSelectedToStorage_selected. apply (grid_marks st H).
Qed.

Lemma GridInv_listed env st : GridInv st -> GridInv (updateSelectedList env st).
Proof.
  intros H. apply (GridInv_update st); try done.
  - by rewrite updateSelectedList_byId.
  - by rewrite updateSelectedList_grid.
  - rewrite updateSelectedList_grid, updateSelectedList_selected. apply (grid_marks st H).
Qed.

Lemma removeChip_GridInv env j st :
  NoDup (selected_ids st) -> GridInv st -> GridInv (removeChip env j st).
Proof.
  intros Hnd Hinv. unfold removeChip.
  destruct (tray_chips (selectedProductsList st) !! j) as [chip|]; [|done].
  apply GridInv_saved, GridInv_listed. cbv zeta.
  set (k := chip_id chip).
  set (st1 := match findIndex (fun p => id p =? k) (selectedProducts st) with
              | Some idx => set_selectedProducts (delete idx (selectedProducts st)) st
              | None => st
              end).
  assert (productsContainer st1 = productsContainer st) as Hg.
  { unfold st1. by destruct (findIndex _ _). }
  assert (productsById st1 = productsById st) as Hb.
  { unfold st1. by destruct (findIndex _ _). }
  assert ((k ∉ map id (selectedProducts st1))
          /\ (forall k', k' <> k ->
                (k' ∈ map id (selectedProducts st1) <-> k' ∈ map id (selectedProducts st))))
    as [Hgone Hother].
  { unfold st1. destruct (findIndex _ _) as [idx|] eqn:Hf.
    - destruct (findIndex_id_Some _ _ _ Hf) as (q & Hq & Hk). simpl. split.
      + rewrite (elem_of_ids_delete _ _ idx q Hnd Hq). rewrite Hk. tauto.
      + intros k' Hne. rewrite (elem_of_ids_delete _ _ idx q Hnd Hq). rewrite Hk. tauto.
    - split; [by apply findIndex_ids_None|done]. }
  clearbody st1. rewrite Hg.
  destruct (findIndex (fun c => card_id c =? k) (grid_cards (productsContainer st)))
    as [n|] eqn:Hc.
  - destruct (findIndex_Some _ _ _ Hc) as (card & Hcard & Hk & _).
    apply Z.eqb_eq in Hk.
    apply (GridInv_mark st _ n card false); try done.
    + intros k' Hne. simpl. apply Hother. by rewrite <- Hk.
    + simpl. apply is_selected_false. by rewrite Hk.
  - apply (GridInv_update st); try done; [by rewrite Hg|].
    rewrite Hg. apply Forall_lookup. intros n c Hn.
    rewrite (proj1 (Forall_lookup _ _) (grid_marks st Hinv) n c Hn).
    apply is_selected_eq. symmetry. apply Hother.
    intros Heq. pose proof (proj1 (findIndex_None _ _) Hc c) as Hno.
    apply list_elem_of_lookup_2 in Hn. apply Hno in Hn. simpl in Hn.
    rewrite Heq, Z.eqb_refl in Hn. discriminate Hn.
Qed.

Lemma clearAllSelections_GridInv env st :
  GridInv st -> GridInv (clearAllSelections env st).
Proof.
  intros Hinv. unfold clearAllSelections. cbv zeta. apply GridInv_listed.
  set (st2 := saveSelectedToStorage env (set_selectedProducts [] st)).
  assert (productsContainer st2 = productsContainer st) as Hg
    by (unfold st2; by rewrite saveSelectedToStorage_grid).
  assert (productsById st2 = productsById st) as Hb
    by (unfold st2; by rewrite saveSelectedToStorage_byId).
  assert (selectedProducts st2 = []) as Hs
    by (unfold st2; by rewrite saveSelectedToStorage_selected).
  clearbody st2.
  apply (GridInv_update st); try done.
  - by destruct (productsContainer st2).
  - rewrite <- Hg. destruct (productsContainer st2) as [t|cards] eqn:E; simpl.
    + by rewrite E.
    + unfold grid_products. simpl. by rewrite map_map.
  - destruct (productsContainer st2) as [t|cards] eqn:E; simpl.
    + rewrite E. constructor.
    + rewrite Hs. apply Forall_map. by apply Forall_true.
Qed.

(** *** The id-to-product map of a grid *)

Lemma foldl_insert_other (products : list Product) (m : gmap Z Product) (k : Z) :
  k ∉ map id products ->
  foldl (fun m p => <[id p := p]> m) m products !! k = m !! k.
Proof.
  revert m. induction products as [|x l IH]; intros m Hk; [done|].
  simpl in *. apply not_elem_of_cons in Hk as [Hne Hk].
  rewrite (IH _ Hk). by apply lookup_insert_ne.
Qed.

Lemma foldl_insert_lookup (products : list Product) (m : gmap Z Product) (p : Product) :
  NoDup (map id products) -> p ∈ products ->
  foldl (fun m p => <[id p := p]> m) m products !! id p = Some p.
Proof.
  revert m. induction products as [|x l IH]; intros m Hnd Hp; [by apply elem_of_nil in Hp|].
  simpl in *. apply NoDup_cons in Hnd as [Hx Hnd].
  apply elem_of_cons in Hp as [->|Hp].
  - rewrite (foldl_insert_other _ _ _ Hx). apply lookup_insert_eq.
  - by apply IH.
Qed.

Lemma displayProducts_GridInv (products : list Product) st :
  NoDup (map id products) -> GridInv (displayProducts products st).
Proof.
  intros Hnd. unfold displayProducts. split; simpl.
  - by rewrite map_map.
  - apply Forall_map. by apply Forall_true.
  - apply Forall_map. apply Forall_forall. intros p Hp. simpl.
    by apply foldl_insert_lookup.
Qed.

Lemma placeholder_GridInv text st : GridInv (set_productsContainer (GridPlaceholder text) st).
Proof. split; simpl; constructor. Qed.

Lemma filterProducts_NoDup (products : list Product) (c t : string) :
  NoDup (map id products) -> NoDup (map id (filterProducts products c t)).
Proof.
  intros H. apply (sublist_NoDup _ (map id products)); [done|].
  apply (fmap_sublist id), filterProducts_sublist.
Qed.

Lemma updateProductGrid_GridInv catalog env st st' :
  NoDup (map id catalog) ->
  (forall c, products_json env = Some c -> c = catalog) ->
  allProducts st = [] \/ allProducts st = catalog ->
  updateProductGrid env st = Ok st' -> GridInv st'.
Proof.
  intros Hnd Henv Hall. unfold updateProductGrid, catalog_for_grid.
  assert (forall products, match allProducts st with
                           | [] => match products_json env with
                                   | Some products => Ok products
                                   | None => Throw "Failed to fetch"
                                   end
                           | _ :: _ => Ok (allProducts st)
                           end = Ok products -> products = catalog) as Hcat.
  { intros products. destruct (allProducts st) as [|a l] eqn:E.
    - destruct (products_json env) as [c|] eqn:Hc; [|done]. intros [= <-]. by apply Henv.
    - intros [= <-]. by destruct Hall. }
  destruct (match allProducts st with [] => _ | _ => _ end) as [products|] eqn:E; [|done].
  rewrite (Hcat products eq_refl).
  destruct (filterProducts catalog _ _) as [|p l] eqn:Hf.
  - intros [= <-]. apply placeholder_GridInv.
  - intros [= <-]. apply displayProducts_GridInv. rewrite <- Hf. by apply filterProducts_NoDup.
Qed.

Lemma updateProductGrid_defined env st :
  allProducts st <> [] \/ products_json env <> None ->
  exists st', updateProductGrid env st = Ok st'.
Proof.
  intros H. unfold updateProductGrid, catalog_for_grid.
  destruct (allProducts st) as [|a l].
  - destruct (products_json env) as [c|]; [|by destruct H].
    destruct (filterProducts c _ _); by eexists.
  - destruct (filterProducts (a :: l) _ _); by eexists.
Qed.

Lemma first_grid_update_GridInv catalog env st :
  NoDup (map id catalog) ->
  (forall c, products_json env = Some c -> c = catalog) ->
  allProducts st = [] \/ allProducts st = catalog ->
  GridInv st \/ products_json env <> None ->
  GridInv (first_grid_update env st).
Proof.
  intros Hnd Henv Hall H. unfold first_grid_update.
  destruct (updateProductGrid env st) as [st'|msg] eqn:E.
  - by apply (updateProductGrid_GridInv catalog env st).
  - destruct H as [H|H]; [done|].
    destruct (updateProductGrid_defined env st (or_intror H)) as [st' Hst']. congruence.
Qed.

Lemma GridInv_frame st st' :
  selectedProducts st' = selectedProducts st ->
  productsById st' = productsById st ->
  productsContainer st' = productsContainer st ->
  GridInv st -> GridInv st'.
Proof.
  intros Hs Hb Hg H. apply (GridInv_update st); try done; [by rewrite Hg|].
  rewrite Hg, Hs. apply (grid_marks st H).
Qed.

Lemma chipClick_GridInv catalog env st :
  NoDup (map id catalog) ->
  (forall c, products_json env = Some c -> c = catalog) ->
  allProducts st = [] \/ allProducts st = catalog ->
  GridInv st -> GridInv (chipClick env st).
Proof.
  intros Hnd Henv Hall Hinv. unfold chipClick. cbv zeta.
  apply (first_grid_update_GridInv catalog); try done.
  - by destruct (categoryFilter st).
  - left. destruct (categoryFilter st); [by apply (GridInv_frame st)|done].
Qed.

Lemma init_GridInv parse catalog env st :
  NoDup (map id catalog) ->
  (forall c, products_json env = Some c -> c = catalog) ->
  GridInv st -> GridInv (init parse env st).
Proof.
  intros Hnd Henv Hinv. unfold init.
  destruct (products_json env) as [products|] eqn:Hp; [|done].
  assert (products = catalog) as -> by (by apply Henv).
  assert (forall st2, allProducts st2 = catalog ->
            GridInv (first_grid_update env (updateSelectedList env st2))) as Hfin.
  { intros st2 H2. apply (first_grid_update_GridInv catalog); try done.
    - intros c Hc. rewrite Hp in Hc. by injection Hc.
    - right. by rewrite updateSelectedList_all.
    - right. by rewrite Hp. }
  simpl. destruct (localStorage st !! STORAGE_KEY) as [raw|]; [|by apply Hfin].
  destruct (nonEmpty raw); simpl; [|by apply Hfin].
  destruct (parse raw) as [[| | | |[|v ids]|]|]; try by apply Hfin.
  by apply (GridInv_frame st).
Qed.

(** X8: the marks of the grid.  Over a catalog whose ids are distinct and
    whose products have a name (the markup of a card cannot be written
    without one), if no two cards of the grid show the same id, every card
    is marked as selected exactly when its product is in the selection and
    resolves to its product in the id-to-product map, then the same holds
    after a toggle of any card, the removal of any chip, the clearing of
    the selection, an update of the grid, a click on a chip and the start
    of the page. *)
Theorem grid_marks_follow_selection parse catalog env st :
  NoDup (map id catalog) ->
  Forall (fun p => name p <> None) catalog ->
  (forall c, products_json env = Some c -> c = catalog) ->
  SelectionInv catalog st ->
  GridInv st ->
  (forall i, GridInv (toggleSelection env i st))
  /\ (forall j, GridInv (removeChip env j st))
  /\ GridInv (clearAllSelections env st)
  /\ (forall st', updateProductGrid env st = Ok st' -> GridInv st')
  /\ GridInv (chipClick env st)
  /\ GridInv (init parse env st).
Proof.
  intros Hnd _ Henv Hsel Hgrid.
  pose proof (inv_nodup _ _ Hsel) as Hids. pose proof (inv_all _ _ Hsel) as Hall.
  split; [|split; [|split; [|split; [|split]]]].
  - intros i. by apply toggleSelection_GridInv.
  - intros j. by apply removeChip_GridInv.
  - by apply clearAllSelections_GridInv.
  - intros st'. by apply (updateProductGrid_GridInv catalog).
  - by apply (chipClick_GridInv catalog).
  - by apply (init_GridInv parse catalog).
Qed.

Lemma both_selected_GridInv : GridInv Sample.both_selected.
Proof.
  split.
  - apply (bool_decide_unpack _). by vm_compute.
  - vm_compute. by repeat constructor.
  - vm_compute. by repeat constructor.
Qed.

(** With gel and cream selected on the sample page, the grid agrees with
    the selection after a click on the first card, after the removal of the
    first chip and after "Clear all". *)
Lemma grid_marks_follow_selection_witness :
  GridInv (toggleSelection Sample.env0 0 Sample.both_selected)
  /\ GridInv (removeChip Sample.env0 0 Sample.both_selected)
  /\ GridInv (clearAllSelections Sample.env0 Sample.both_selected).
Proof.
  assert (Forall (fun p => name p <> None) Sample.catalog) as Hnames by (by repeat constructor).
  destruct (grid_marks_follow_selection Sample.parse_sample Sample.catalog Sample.env0
              Sample.both_selected SelectionClaims.sample_catalog_NoDup Hnames
              SelectionClaims.sample_env_catalog
              SelectionClaims.both_selected_inv both_selected_GridInv) as (H1 & H2 & H3 & _).
  split; [exact (H1 0%nat)|]. split; [exact (H2 0%nat)|exact H3].
Defined.

(** *** A click on a card *)

(** X9: a click on a card of the grid toggles.  When the grid agrees with
    the selection, a click on any of its cards is never ignored: on a card
    that is not marked, the product it shows is appended to the selection
    and the card is marked; on a marked card, the selected product with the
    id of the card is removed (the others keep their order), the id is no
    longer selected and the mark is taken off. *)
Theorem card_click_toggles env i st card :
  GridInv st ->
  NoDup (selected_ids st) ->
  grid_cards (productsContainer st) !! i = Some card ->
  let st' := toggleSelection env i st in
  (card_selected card = false ->
   selectedProducts st' = selectedProducts st ++ [card_product card]
   /\ grid_cards (productsContainer st') !! i = Some (mkCard (card_product card) true))
  /\ (card_selected card = true ->
      (exists index q,
         selectedProducts st !! index = Some q /\ id q = card_id card
         /\ selectedProducts st' = delete index (selectedProducts st))
      /\ (card_id card ∉ selected_ids st')
      /\ grid_cards (productsContainer st') !! i = Some (mkCard (card_product card) false)).
Proof.
  intros Hinv Hnd Hcard st'.
  pose proof (proj1 (Forall_lookup _ _) (grid_known st Hinv) i card Hcard) as Hprod.
  pose proof (proj1 (Forall_lookup _ _) (grid_marks st Hinv) i card Hcard) as Hmark.
  simpl in Hprod, Hmark.
  assert (st' = match findIndex (fun p => id p =? card_id card) (selectedProducts st) with
                | None =>
                    updateSelectedList env
                      (set_productsContainer (mark_card i true (productsContainer st))
                         (set_selectedProducts (selectedProducts st ++ [card_product card]) st))
                | Some index =>
                    updateSelectedList env
                      (set_productsContainer (mark_card i false (productsContainer st))
                         (set_selectedProducts (delete index (selectedProducts st)) st))
                end) as Hst'.
  { unfold st', toggleSelection. by rewrite Hcard, Hprod. }
  split.
  - intros Hoff. rewrite Hoff in Hmark. symmetry in Hmark.
    assert (card_id card ∉ map id (selectedProducts st)) as Hout.
    { intros H. apply is_selected_spec in H. congruence. }
    apply findIndex_ids_None in Hout. rewrite Hout in Hst'. rewrite Hst'.
    rewrite updateSelectedList_selected, updateSelectedList_grid. simpl.
    split; [done|]. by apply grid_cards_mark.
  - intros Hon. rewrite Hon in Hmark. symmetry in Hmark.
    apply is_selected_spec in Hmark.
    destruct (findIndex (fun p => id p =? card_id card) (selectedProducts st))
      as [index|] eqn:Hf; [|by apply findIndex_ids_None in Hf].
    destruct (findIndex_id_Some _ _ _ Hf) as (q & Hq & Hk).
    rewrite Hst'. unfold selected_ids.
    rewrite updateSelectedList_selected, updateSelectedList_grid. simpl.
    split; [by exists index, q|]. split.
    + rewrite (elem_of_ids_delete _ _ index q Hnd Hq). rewrite Hk. tauto.
    + by apply grid_cards_mark.
Qed.

(** With gel selected on the sample page, a click on its card removes it
    from the selection and takes the mark off the card. *)
Lemma card_click_toggles_witness :
  selected_ids (toggleSelection Sample.env0 0 Sample.gel_selected) = []
  /\ grid_cards (productsContainer (toggleSelection Sample.env0 0 Sample.gel_selected)) !! 0%nat
     = Some (mkCard Sample.gel false).
Proof.
  assert (GridInv Sample.gel_selected) as Hinv.
  { split; [apply (bool_decide_unpack _); by vm_compute | |]; vm_compute; repeat constructor. }
  assert (NoDup (selected_ids Sample.gel_selected)) as Hnd
    by (apply (bool_decide_unpack _); by vm_compute).
  destruct (card_click_toggles Sample.env0 0 Sample.gel_selected (mkCard Sample.gel true)
              Hinv Hnd eq_refl) as (_ & H).
  destruct (H eq_refl) as (_ & _ & H3).
  split; [reflexivity|exact H3].
Defined.

End GridFacts.

(** ** Facts about the tray *)

Module TrayFacts.
Import JsString Client Spec PageSpec Events SelectionFacts GridFacts.
Local Open Scope list_scope.







End TrayFacts.

(** ** Facts about a reload and about the chips *)

Module ReloadFacts.
Import JsString Client Spec PageSpec Events SelectionFacts GridClaims GridFacts.
Local Open Scope list_scope.

Lemma ids_include_selected (sel : list Product) (n : Z) :
  ids_include (map (fun p => JNum (id p)) sel) n = is_selected n sel.
Proof.
  unfold ids_include, is_selected, some. induction sel as [|p l IH]; [done|].
  simpl. by rewrite IH.
Qed.

Lemma updateProductGrid_selected env st st' :
  updateProductGrid env st = Ok st' ->
  selectedProducts st' = selectedProducts st
  /\ localStorage st' = localStorage st
  /\ selectedProductsList st' = selectedProductsList st
  /\ categoryFilter st' = categoryFilter st.
Proof.
  unfold updateProductGrid. destruct (catalog_for_grid env st) as [products|]; [|done].
  destruct (filterProducts _ _ _); by intros [= <-].
Qed.

Lemma first_grid_update_selected env st :
  selectedProducts (first_grid_update env st) = selectedProducts st
  /\ localStorage (first_grid_update env st) = localStorage st
  /\ selectedProductsList (first_grid_update env st) = selectedProductsList st
  /\ categoryFilter (first_grid_update env st) = categoryFilter st.
Proof.
  unfold first_grid_update. destruct (updateProductGrid env st) as [st'|] eqn:E; [|done].
  by apply (updateProductGrid_selected env).
Qed.

Lemma stringify_array_nonEmpty (xs : list JSON) :
  nonEmpty (Js.JSON_stringify (JArr xs)) = true.
Proof. done. Qed.

(** Products of a catalog with distinct ids are told apart by their ids. *)
Lemma catalog_id_inj (catalog : list Product) (p q : Product) :
  NoDup (map id catalog) -> p ∈ catalog -> q ∈ catalog -> id p = id q -> p = q.
Proof.
  intros Hnd Hp Hq Heq.
  apply list_elem_of_lookup in Hp as [i Hi]. apply list_elem_of_lookup in Hq as [j Hj].
  assert (i = j) as ->.
  { apply (NoDup_lookup _ i j (id p) Hnd).
    - change (map id catalog) with (id <$> catalog). by rewrite list_lookup_fmap, Hi.
    - change (map id catalog) with (id <$> catalog). rewrite list_lookup_fmap, Hj. simpl.
      by rewrite Heq. }
  congruence.
Qed.

Lemma NoDup_products (l : list Product) : NoDup (map id l) -> NoDup l.
Proof. apply (NoDup_fmap_1 id). Qed.

Lemma rehydrated_permutation (catalog sel : list Product) :
  NoDup (map id catalog) ->
  Forall (fun p => p ∈ catalog) sel ->
  NoDup (map id sel) ->
  List.filter (fun p => is_selected (id p) sel) catalog ≡ₚ sel.
Proof.
  intros Hnd Hin Hsel. apply NoDup_Permutation.
  - apply (sublist_NoDup _ catalog); [by apply NoDup_products|apply List_filter_sublist].
  - by apply NoDup_products.
  - intros p. rewrite list_elem_of_In, List.filter_In, <- list_elem_of_In, is_selected_spec.
    split.
    + intros [Hp Hid]. change (map id sel) with (id <$> sel) in Hid.
      apply list_elem_of_fmap in Hid as (q & Heq & Hq).
      assert (q ∈ catalog) as Hqc by (by apply (proj1 (Forall_forall _ _) Hin)).
      by rewrite (catalog_id_inj catalog p q Hnd Hp Hqc Heq).
    + intros Hp. split; [by apply (proj1 (Forall_forall _ _) Hin)|].
      change (map id sel) with (id <$> sel). by apply list_elem_of_fmap_2.
Qed.

(** X11: what a reload restores.  On a page opened with the ids of a
    selection in storage, as [saveSelectedToStorage] writes them, over a
    catalog with distinct ids that holds the selected products, the
    selection after [init] is the list of the catalog products whose id is
    stored: the same products as the selection that was saved, in the order
    of the catalog, not in the order in which they were selected. *)
Theorem reload_restores_selection parse catalog env st0 sel :
  NoDup (map id catalog) ->
  products_json env = Some catalog ->
  Forall (fun p => p ∈ catalog) sel ->
  NoDup (map id sel) ->
  selectedProducts st0 = [] ->
  localStorage st0 !! STORAGE_KEY = Some (Js.JSON_stringify (ids_json sel)) ->
  parse (Js.JSON_stringify (ids_json sel)) = Some (ids_json sel) ->
  let st := init parse env st0 in
  selectedProducts st = List.filter (fun p => is_selected (id p) sel) catalog
  /\ selectedProducts st ≡ₚ sel
  /\ selectedProducts st `sublist_of` catalog.
Proof.
  intros Hnd Hcat Hin Hsel Hempty Hraw Hparse st.
  assert (List.filter (fun p => is_selected (id p) ([] : list Product)) catalog = []) as Hnone.
  { clear. induction catalog as [|a l IH]; [done|]. exact IH. }
  assert (selectedProducts st = List.filter (fun p => is_selected (id p) sel) catalog) as H.
  { unfold st, init. rewrite Hcat. cbv zeta. simpl. rewrite Hraw.
    change (nonEmpty (Js.JSON_stringify (ids_json sel))) with true.
    cbn [negb]. cbv iota. rewrite Hparse. unfold ids_json.
    destruct sel as [|p l].
    - rewrite Hnone. simpl.
      rewrite (proj1 (first_grid_update_selected _ _)), updateSelectedList_selected.
      simpl. by rewrite Hempty.
    - cbn [map]. rewrite (proj1 (first_grid_update_selected _ _)), updateSelectedList_selected.
      simpl. apply List.filter_ext. intros q.
      exact (ids_include_selected (p :: l) (id q)). }
  split; [done|]. rewrite H. split.
  - by apply rehydrated_permutation.
  - apply List_filter_sublist.
Qed.

(** A visit left "[2,1]" in storage (cream was selected before gel): after
    [init] the selection is gel, cream, in the order of the catalog. *)
Lemma reload_restores_selection_witness :
  let st := init Cases.parse_ids Sample.env0 (Sample.revisited "[2,1]") in
  selectedProducts st = [Sample.gel; Sample.cream]
  /\ selectedProducts st ≡ₚ [Sample.cream; Sample.gel].
Proof.
  assert (Forall (fun p => p ∈ Sample.catalog) [Sample.cream; Sample.gel]) as Hin
    by repeat constructor.
  assert (NoDup (map id [Sample.cream; Sample.gel])) as Hnd
    by (apply (bool_decide_unpack _); by vm_compute).
  destruct (reload_restores_selection Cases.parse_ids Sample.catalog Sample.env0
              (Sample.revisited "[2,1]") [Sample.cream; Sample.gel]
              SelectionClaims.sample_catalog_NoDup eq_refl Hin Hnd eq_refl eq_refl eq_refl)
    as (H1 & H2 & _).
  split; [exact H1|exact H2].
Defined.

(** *** A click on a chip *)

(** X12: a click on a chip shows every match of the search.  Once a
    catalog of products with names is loaded, a click on a chip (outside
    its remove control)
    leaves the selection, the tray and the storage as they are, empties the
    category filter, and leaves in the grid exactly the products of the
    catalog whose name contains the trimmed search term, whatever their
    category and in catalog order: the product of the chip is among them
    when, and only when, its name contains the term. *)
Theorem chip_click_shows_matches env st :
  allProducts st <> [] ->
  Forall (fun p => name p <> None) (allProducts st) ->
  let st' := chipClick env st in
  let shown := grid_products (productsContainer st') in
  selectedProducts st' = selectedProducts st
  /\ selectedProductsList st' = selectedProductsList st
  /\ localStorage st' = localStorage st
  /\ selectedCategory_of st' = EmptyString
  /\ shown = List.filter (passesb EmptyString (trim (search_value st))) (allProducts st)
  /\ (forall p, p ∈ shown <->
                p ∈ allProducts st /\ contains_ci (or_empty (name p)) (trim (search_value st))).
Proof.
  intros Hall _ st' shown.
  set (st1 := match categoryFilter st with
              | Some _ => set_categoryFilter (Some EmptyString) st
              | None => st
              end).
  assert (selectedCategory_of st1 = EmptyString) as Hc.
  { unfold st1, selectedCategory_of. by destruct (categoryFilter st) eqn:E; simpl; rewrite ?E. }
  assert (selectedProducts st1 = selectedProducts st /\ selectedProductsList st1 = selectedProductsList st
          /\ localStorage st1 = localStorage st /\ allProducts st1 = allProducts st
          /\ search_value st1 = search_value st) as (H1 & H2 & H3 & H4 & H5).
  { unfold st1. by destruct (categoryFilter st). }
  assert (st' = first_grid_update env st1) as Hst' by done.
  destruct (first_grid_update_selected env st1) as (G1 & G2 & G3 & G4).
  assert (shown = List.filter (passesb EmptyString (trim (search_value st))) (allProducts st))
    as Hshown.
  { unfold shown. rewrite Hst'. unfold first_grid_update, updateProductGrid, catalog_for_grid.
    rewrite H4. destruct (allProducts st) as [|a l] eqn:E; [done|]. rewrite <- E.
    rewrite Hc, searchTerm_of_trim, filterProducts_passesb, H5.
    destruct (List.filter _ _) as [|p ps] eqn:Hf; [done|].
    rewrite <- Hf. apply displayProducts_grid. }
  split; [by rewrite Hst', G1|]. split; [by rewrite Hst', G3|]. split; [by rewrite Hst', G2|].
  split.
  { unfold selectedCategory_of in *. rewrite Hst', G4. exact Hc. }
  split; [done|].
  intros p. rewrite Hshown, list_elem_of_In, List.filter_In, <- list_elem_of_In, passesb_spec.
  unfold passes. intuition.
Qed.

(** On the sample page with " re" in the search box, a click on a chip
    leaves cream in the grid. *)
Lemma chip_click_shows_matches_witness :
  grid_products (productsContainer (chipClick Sample.env0 (Sample.searching " re")))
  = [Sample.cream].
Proof.
  assert (allProducts (Sample.searching " re") <> []) as H by (by vm_compute).
  assert (Forall (fun p => name p <> None) (allProducts (Sample.searching " re"))) as Hn
    by (by repeat constructor).
  destruct (chip_click_shows_matches Sample.env0 (Sample.searching " re") H Hn)
    as (_ & _ & _ & _ & H5 & _).
  exact H5.
Defined.

End ReloadFacts.

(** ** Facts about the list of sources *)

Module CitationFacts.
Import JsString Client Spec PageSpec EscapeFacts.
Local Open Scope list_scope.











End CitationFacts.

(** ** Facts about a storage that refuses writes *)

Module StorageFacts.
Import JsString Client Spec PageSpec Events SelectionFacts GridFacts.
Local Open Scope list_scope.

Lemma set_localStorage_same st : set_localStorage (localStorage st) st = st.
Proof. by destruct st. Qed.

Lemma set_localStorage_twice m m' st :
  set_localStorage m (set_localStorage m' st) = set_localStorage m st.
Proof. done. Qed.

Lemma saveSelectedToStorage_refusing env st :
  saveSelectedToStorage (refusing env) st = st.
Proof. done. Qed.

Lemma saveSelectedToStorage_reset env st m :
  set_localStorage m (saveSelectedToStorage env st) = set_localStorage m st.
Proof. unfold saveSelectedToStorage. by destruct (storage_accepts env). Qed.

Lemma updateSelectedList_reset env st :
  updateSelectedList (refusing env) st
  = set_localStorage (localStorage st) (updateSelectedList env st).
Proof.
  unfold updateSelectedList. destruct (selectedProductsList st); [|by rewrite set_localStorage_same].
  destruct (selectedProducts st).
  - symmetry. apply (set_localStorage_same (set_selectedProductsList _ st)).
  - rewrite saveSelectedToStorage_refusing, saveSelectedToStorage_reset.
    symmetry. apply (set_localStorage_same (set_selectedProductsList _ st)).
Qed.

(** X14: a storage that refuses writes.  When local storage refuses every
    write, a toggle, the removal of a chip and the clearing of the
    selection do to the selection, the grid and the tray what they do when
    it accepts them, and leave the storage as it was: the failure is
    swallowed and nothing else is lost. *)
Theorem storage_refusal_harmless env st :
  (forall i, toggleSelection (refusing env) i st
             = set_localStorage (localStorage st) (toggleSelection env i st))
  /\ (forall j, removeChip (refusing env) j st
                = set_localStorage (localStorage st) (removeChip env j st))
  /\ clearAllSelections (refusing env) st
     = set_localStorage (localStorage st) (clearAllSelections env st).
Proof.
  split; [|split].
  - intros i. unfold toggleSelection.
    destruct (grid_cards (productsContainer st) !! i) as [card|];
      [|by rewrite set_localStorage_same].
    destruct (productsById st !! card_id card) as [product|];
      [|by rewrite set_localStorage_same].
    destruct (findIndex _ _); by rewrite updateSelectedList_reset.
  - intros j. unfold removeChip.
    destruct (tray_chips (selectedProductsList st) !! j) as [chip|];
      [|by rewrite set_localStorage_same].
    cbv zeta. rewrite saveSelectedToStorage_refusing, saveSelectedToStorage_reset.
    rewrite updateSelectedList_reset. f_equal.
    destruct (findIndex _ (selectedProducts st));
      by destruct (findIndex _ (grid_cards _)).
  - destruct st as [sel byId all conv gen storage log grid tray chat cat search input send btn].
    unfold clearAllSelections, updateSelectedList, saveSelectedToStorage, refusing. simpl.
    destruct (storage_accepts env); destruct grid; destruct tray; reflexivity.
Qed.

End StorageFacts.

(** ** Facts about the two workers *)

Module ProxyFacts.
Import JsString Worker WorkerSpec ProxySpec.
Local Open Scope list_scope.


(** A search logs nothing without a key, and else its one call. *)
Lemma doOpenAISearch_log rr env q max log :
  exists r calls,
    doOpenAISearch rr env q max log = (r, log ++ calls)
    /\ (calls = []
        \/ (truthy_str (OPENAI_API_KEY env) = true
            /\ calls = [PostResponses (Client.or_empty (OPENAI_API_KEY env))
                          (search_prompt max q) 0])).
Proof.
  unfold doOpenAISearch. destruct (truthy_str (OPENAI_API_KEY env)) eqn:Hk; simpl.
  - unfold bind, do_fetch.
    destruct (fetch env _) as [msg|ok st txt j]; simpl.
    + eexists _, _. split; [reflexivity|]. by right.
    + destruct ok; simpl; [|eexists _, _; split; [reflexivity|]; by right].
      destruct j as [j|]; [|eexists _, _; split; [reflexivity|]; by right].
      unfold lift. destruct (rr j max); simpl; eexists _, _; (split; [reflexivity|]); by right.
  - exists (Throw MISSING_KEY), []. rewrite app_nil_r. split; [done|]. by left.
Qed.

Lemma callOpenAIResponses_log at_ env messages log :
  exists r calls,
    callOpenAIResponses at_ env messages log = (r, log ++ calls)
    /\ (calls = []
        \/ (truthy_str (OPENAI_API_KEY env) = true
            /\ exists input,
                 calls = [PostResponses (Client.or_empty (OPENAI_API_KEY env)) input 2])).
Proof.
  unfold callOpenAIResponses. destruct (truthy_str (OPENAI_API_KEY env)) eqn:Hk; simpl.
  - unfold bind, lift, do_fetch. destruct (prompt_parts messages) as [parts|msg]; simpl.
    + destruct (fetch env _) as [msg|ok st txt j]; simpl.
      * eexists _, _. split; [reflexivity|]. right. split; [done|]. by eexists.
      * destruct ok; simpl; [|eexists _, _; split; [reflexivity|]; right; split; [done|]; by eexists].
        destruct j as [j|]; eexists _, _; (split; [reflexivity|]); right; (split; [done|]); by eexists.
    + exists (Throw msg), []. rewrite app_nil_r. split; [done|]. by left.
  - exists (Throw MISSING_KEY), []. rewrite app_nil_r. split; [done|]. by left.
Qed.

Lemma search_step_log rr env q messages log :
  exists r calls,
    search_step rr env q messages log = (r, log ++ calls)
    /\ (exists x, r = Ok x)
    /\ (calls = []
        \/ (truthy_str (OPENAI_API_KEY env) = true
            /\ calls = [PostResponses (Client.or_empty (OPENAI_API_KEY env))
                          (search_prompt 6 (Js.template q)) 0])).
Proof.
  unfold search_step. destruct (Js.truthy q).
  - unfold try_catch, bind.
    destruct (doOpenAISearch_log rr env (Js.template q) 6 log) as (r & calls & -> & Hc).
    destruct r as [webResults|msg]; simpl.
    + destruct (Client.res_mapi format_result 0 webResults) as [lines|msg]; simpl.
      * destruct (nonEmpty (join (LF ++ LF) lines)); eexists _, calls;
          (split; [reflexivity|]); (split; [by eexists|done]).
      * eexists _, calls. split; [reflexivity|]. split; [by eexists|done].
    + eexists _, calls. split; [reflexivity|]. split; [by eexists|done].
  - eexists _, []. rewrite app_nil_r. split; [reflexivity|]. split; [by eexists|by left].
Qed.

(** X15: the calls of the combined worker.  Whatever the request, the
    worker makes two calls to the provider at most, each with the configured
    key; and it makes none unless the request is a POST labelled
    [application/json] to a path that ends in [/chat] or [/search] and the
    key is configured. *)
Theorem combined_outbound_calls rr at_ env request :
  let log := snd (fetch_combined rr at_ env request) in
  (length log <= 2)%nat
  /\ Forall (keyed env) log
  /\ (log <> [] ->
      method request = "POST"
      /\ is_json request = true
      /\ truthy_str (OPENAI_API_KEY env) = true
      /\ (endsWith (dropTrailingSlash (pathname request)) "/chat" = true
          \/ endsWith (dropTrailingSlash (pathname request)) "/search" = true)).
Proof.
  unfold fetch_combined.
  destruct (String.eqb (method request) "OPTIONS"); [simpl; split; [lia|]; by split|].
  destruct (String.eqb (method request) "POST") eqn:Hm; simpl;
    [|split; [lia|]; by split].
  apply String.eqb_eq in Hm.
  destruct (endsWith (dropTrailingSlash (pathname request)) "/chat") eqn:Hchat.
  - unfold chat. destruct (is_json request) eqn:Hj; simpl; [|split; [lia|]; by split].
    destruct (json request) as [body_|]; simpl; [|split; [lia|]; by split].
    unfold bind, lift.
    destruct (Js.prop body_ "messages") as [ms|msg]; simpl; [|split; [lia|]; by split].
    destruct (messageString_of body_) as [q|msg]; simpl; [|split; [lia|]; by split].
    destruct (search_step_log rr env q
                (match Js.asArray ms with Some l => l | None => [] end) [])
      as (r & calls & -> & [found ->] & Hc). simpl.
    destruct (callOpenAIResponses_log at_ env (snd found) calls) as (r2 & calls2 & -> & Hc2).
    assert (length (calls ++ calls2) <= 2)%nat as Hlen.
    { rewrite length_app.
      destruct Hc as [->|[_ ->]]; destruct Hc2 as [->|[_ [input ->]]]; simpl; lia. }
    assert (Forall (keyed env) (calls ++ calls2)) as Hkey.
    { apply Forall_app. split.
      - destruct Hc as [->|[_ ->]]; [done|]. repeat constructor. by eexists _, _.
      - destruct Hc2 as [->|[_ [input ->]]]; [done|]. repeat constructor. by eexists _, _. }
    assert (calls ++ calls2 <> [] -> truthy_str (OPENAI_API_KEY env) = true) as Hne.
    { destruct Hc as [->|[Hk _]]; [|done]. destruct Hc2 as [->|[Hk _]]; done. }
    destruct r2 as [openaiResp|msg]; simpl; (split; [done|]); (split; [done|]);
      intros H; (split; [done|]); (split; [done|]); (split; [by apply Hne|by left]).
  - destruct (endsWith (dropTrailingSlash (pathname request)) "/search") eqn:Hsearch;
      simpl; [|split; [lia|]; by split].
    unfold search. destruct (is_json request) eqn:Hj; simpl; [|split; [lia|]; by split].
    destruct (json request) as [body_|]; simpl; [|split; [lia|]; by split].
    unfold bind, lift.
    destruct (body_q body_) as [v|msg]; simpl; [|split; [lia|]; by split].
    destruct (nonEmpty (query_text v)); simpl; [|split; [lia|]; by split].
    destruct (doOpenAISearch_log rr env (query_text v) 8 []) as (r & calls & -> & Hc).
    simpl.
    assert ((length calls <= 2)%nat /\ Forall (keyed env) calls
            /\ (calls <> [] -> truthy_str (OPENAI_API_KEY env) = true)) as (H1 & H2 & H3).
    { destruct Hc as [->|[Hk ->]]; simpl; (split; [lia|]); split; try done.
      repeat constructor. by eexists _, _. }
    destruct r as [results|msg]; simpl; (split; [done|]); (split; [done|]);
      intros H; (split; [done|]); (split; [done|]); (split; [by apply H3|by right]).
Qed.

(** *** The length of the lists of results *)

Lemma doOpenAISearch_length rr env q max log rs log' :
  doOpenAISearch rr env q max log = (Ok rs, log') -> (length rs <= max)%nat.
Proof.
  unfold doOpenAISearch. destruct (truthy_str (OPENAI_API_KEY env)); simpl; [|done].
  unfold bind, do_fetch, lift. destruct (fetch env _) as [msg|ok st txt j]; simpl; [done|].
  destruct ok; simpl; [|done]. destruct j as [j|]; [|done].
  destruct (rr j max) as [results|]; simpl; [|done].
  intros [= <- _]. rewrite length_firstn. lia.
Qed.

Lemma search_step_length rr env q messages log found log' :
  search_step rr env q messages log = (Ok found, log') -> (length (fst found) <= 6)%nat.
Proof.
  unfold search_step. destruct (Js.truthy q); [|intros [= <- _]; simpl; lia].
  unfold try_catch, bind.
  destruct (doOpenAISearch rr env (Js.template q) 6 log) as [[webResults|msg] log1] eqn:E.
  - apply doOpenAISearch_length in E.
    destruct (Client.res_mapi format_result 0 webResults) as [lines|msg]; simpl.
    + destruct (nonEmpty _); by intros [= <- _].
    + by intros [= <- _].
  - intros [= <- _]. simpl. lia.
Qed.

Lemma provider_results_length answer items_of result_of rs :
  provider_results answer items_of result_of = Ok rs -> (length rs <= 6)%nat.
Proof.
  unfold provider_results. destruct answer as [msg|ok st txt j]; [done|].
  destruct ok; simpl; [|intros [= <-]; simpl; lia].
  destruct j as [j|]; [|done]. unfold Client.res_bind.
  destruct (items_of j) as [items|]; [|done]. unfold first_items.
  destruct (Js.truthy items); simpl; [|intros [= <-]; simpl; lia].
  destruct (Js.asArray items) as [xs|]; [|done].
  intros H. assert (length rs = length (firstn 6 xs)) as ->.
  { revert rs H. generalize (firstn 6 xs). intros l.
    induction l as [|x l IH]; intros rs; simpl; [by intros [= <-]|].
    destruct (result_of x); simpl; [|done].
    destruct (Client.res_map result_of l) as [ys|]; simpl; [|done].
    intros [= <-]. simpl. by rewrite (IH ys eq_refl). }
  rewrite length_firstn. lia.
Qed.

Lemma listed_error (k msg : string) :
  String.eqb "error" k = false -> listed k (internal_error msg) = None.
Proof.
  intros H. unfold listed, internal_error, error_body.
  cbn [body Js.lookup_field Js.asArray]. by rewrite H.
Qed.

(** X18: the lists of results are short.  Whatever the request and the
    provider, the list under [results] of an answer of the combined worker
    has 8 elements at most, the list under [web_results] 6 at most, and the
    list under [results] of an answer of the minimal worker 6 at most. *)
Theorem result_lists_bounded rr at_ env request :
  (forall xs, listed "results" (fst (fetch_combined rr at_ env request)) = Some xs ->
              (length xs <= 8)%nat)
  /\ (forall xs, listed "web_results" (fst (fetch_combined rr at_ env request)) = Some xs ->
                 (length xs <= 6)%nat)
  /\ (forall xs, listed "results" (fst (fetch_minimal env request)) = Some xs ->
                 (length xs <= 6)%nat).
Proof.
  assert (forall msg xs n, listed "results" (internal_error msg) = Some xs -> (length xs <= n)%nat)
    as E1 by (intros msg xs n; by rewrite listed_error).
  assert (forall msg xs n, listed "web_results" (internal_error msg) = Some xs ->
                           (length xs <= n)%nat)
    as E2 by (intros msg xs n; by rewrite listed_error).
  split; [|split].
  - intros xs. unfold fetch_combined.
    destruct (String.eqb (method request) "OPTIONS"); [done|].
    destruct (String.eqb (method request) "POST"
              && endsWith (dropTrailingSlash (pathname request)) "/chat").
    + unfold chat. destruct (is_json request); simpl; [|done].
      destruct (json request) as [body_|]; simpl; [|by apply E1].
      unfold bind, lift.
      destruct (Js.prop body_ "messages") as [ms|]; simpl; [|by apply E1].
      destruct (messageString_of body_) as [q|]; simpl; [|by apply E1].
      destruct (search_step rr env q _ []) as [[found|] log]; simpl; [|by apply E1].
      destruct (callOpenAIResponses at_ env (snd found) log) as [[resp|] log2]; simpl;
        [|by apply E1].
      unfold listed, chat_body. simpl. by destruct (snd resp).
    + destruct (String.eqb (method request) "POST"
                && endsWith (dropTrailingSlash (pathname request)) "/search"); [|done].
      unfold search. destruct (is_json request); simpl; [|done].
      destruct (json request) as [body_|]; simpl; [|by apply E1].
      unfold bind, lift. destruct (body_q body_) as [v|]; simpl; [|by apply E1].
      destruct (nonEmpty (query_text v)); simpl; [|intros [= <-]; simpl; lia].
      destruct (doOpenAISearch rr env (query_text v) 8 []) as [[rs|] log] eqn:E; simpl;
        [|by apply E1].
      intros [= <-]. by apply doOpenAISearch_length in E.
  - intros xs. unfold fetch_combined.
    destruct (String.eqb (method request) "OPTIONS"); [done|].
    destruct (String.eqb (method request) "POST"
              && endsWith (dropTrailingSlash (pathname request)) "/chat").
    + unfold chat. destruct (is_json request); simpl; [|done].
      destruct (json request) as [body_|]; simpl; [|by apply E2].
      unfold bind, lift.
      destruct (Js.prop body_ "messages") as [ms|]; simpl; [|by apply E2].
      destruct (messageString_of body_) as [q|]; simpl; [|by apply E2].
      destruct (search_step rr env q _ []) as [[found|] log] eqn:E; simpl; [|by apply E2].
      apply search_step_length in E.
      destruct (callOpenAIResponses at_ env (snd found) log) as [[resp|] log2]; simpl;
        [|by apply E2].
      unfold listed, chat_body. simpl. destruct (snd resp); simpl; by intros [= <-].
    + destruct (String.eqb (method request) "POST" && _) eqn:Hsearch; [|by cbv].
      unfold search. destruct (is_json request); simpl; [|done].
      destruct (json request) as [body_|]; simpl; [|by apply E2].
      unfold bind, lift. destruct (body_q body_) as [v|]; simpl; [|by apply E2].
      destruct (nonEmpty (query_text v)); simpl; [|done].
      destruct (doOpenAISearch rr env (query_text v) 8 []) as [[rs|] log]; simpl;
        [done|by apply E2].
  - intros xs. unfold fetch_minimal.
    destruct (String.eqb (method request) "OPTIONS"); [done|].
    unfold search_minimal, bind, lift.
    destruct (read_q request) as [v|]; simpl; [|by apply E1].
    destruct (nonEmpty (query_text v)); simpl; [|intros [= <-]; simpl; lia].
    destruct (truthy_str (SERPAPI_KEY env)); simpl.
    + unfold do_fetch.
      destruct (provider_results _ serp_items serp_result) as [rs|] eqn:E; simpl;
        [|by apply E1].
      intros [= <-]. by apply provider_results_length in E.
    + destruct (truthy_str (GOOGLE_API_KEY env) && truthy_str (GOOGLE_CX env)); simpl; [|done].
      unfold do_fetch.
      destruct (provider_results _ google_items google_result) as [rs|] eqn:E; simpl;
        [|by apply E1].
      intros [= <-]. by apply provider_results_length in E.
Qed.

(** *** The provider of the minimal worker *)

(** X19: one provider, SerpAPI first.  Whatever the request, the minimal
    worker calls one provider at most, with a query that is not empty:
    SerpAPI with its key whenever that key is configured, whatever the
    other keys; Google with its key and engine id only when the SerpAPI key
    is not configured and both of them are. *)
Theorem minimal_one_provider env request :
  let log := snd (fetch_minimal env request) in
  (length log <= 1)%nat
  /\ (truthy_str (SERPAPI_KEY env) = true ->
      Forall (fun o => exists q, nonEmpty q = true
                                 /\ o = GetSerpApi q (Client.or_empty (SERPAPI_KEY env))) log)
  /\ (truthy_str (SERPAPI_KEY env) = false ->
      Forall (fun o => exists q, nonEmpty q = true
                                 /\ truthy_str (GOOGLE_API_KEY env) = true
                                 /\ truthy_str (GOOGLE_CX env) = true
                                 /\ o = GetGoogle (Client.or_empty (GOOGLE_API_KEY env))
                                          (Client.or_empty (GOOGLE_CX env)) q) log).
Proof.
  unfold fetch_minimal.
  destruct (String.eqb (method request) "OPTIONS"); [simpl; split; [lia|by split]|].
  unfold search_minimal, bind, lift.
  destruct (read_q request) as [v|]; simpl; [|split; [lia|by split]].
  destruct (nonEmpty (query_text v)) eqn:Hq; simpl; [|split; [lia|by split]].
  destruct (truthy_str (SERPAPI_KEY env)) eqn:Hs; simpl.
  - unfold do_fetch.
    destruct (provider_results _ serp_items serp_result); simpl;
      (split; [lia|]); (split; [|done]); intros _; repeat constructor; by eexists.
  - destruct (truthy_str (GOOGLE_API_KEY env)) eqn:Hg; simpl; [|split; [lia|by split]].
    destruct (truthy_str (GOOGLE_CX env)) eqn:Hc; simpl; [|split; [lia|by split]].
    unfold do_fetch.
    destruct (provider_results _ google_items google_result); simpl;
      (split; [lia|]); (split; [done|]); intros _; repeat constructor; by eexists.
Qed.

(** X20: a provider that fails.  For a query that is not empty and a
    configured provider, the minimal worker answers 200 with an empty list
    of results when the provider answers with a status that is not 2xx: the
    failure is not reported; and it answers 500 with the message of the
    error when the call is rejected. *)
Theorem minimal_provider_failure env request v :
  method request <> "OPTIONS" ->
  read_q request = Ok v ->
  query_text v <> EmptyString ->
  truthy_str (SERPAPI_KEY env) = true
  \/ truthy_str (GOOGLE_API_KEY env) && truthy_str (GOOGLE_CX env) = true ->
  ((forall o, exists st txt j, fetch env o = HttpResponse false st txt j) ->
   fst (fetch_minimal env request) = mkResponse 200 (Some (results_body [])) true)
  /\ (forall msg, (forall o, fetch env o = NetworkError msg) ->
                  fst (fetch_minimal env request) = internal_error msg).
Proof.
  intros Hm Hv Hq Hkey. apply String.eqb_neq in Hm.
  assert (nonEmpty (query_text v) = true) as Hne by (by destruct (query_text v)).
  unfold fetch_minimal. rewrite Hm.
  unfold search_minimal, bind, lift. rewrite Hv. simpl. rewrite Hne. simpl.
  split.
  - intros Hf. destruct (truthy_str (SERPAPI_KEY env)) eqn:Hs; simpl.
    + unfold do_fetch. by destruct (Hf (GetSerpApi (query_text v)
                                        (Client.or_empty (SERPAPI_KEY env))))
        as (st & txt & j & ->).
    + destruct Hkey as [Hkey|Hkey]; [done|]. rewrite Hkey. simpl. unfold do_fetch.
      by destruct (Hf (GetGoogle (Client.or_empty (GOOGLE_API_KEY env))
                         (Client.or_empty (GOOGLE_CX env)) (query_text v)))
        as (st & txt & j & ->).
  - intros msg Hf. destruct (truthy_str (SERPAPI_KEY env)) eqn:Hs; simpl.
    + unfold do_fetch. by rewrite Hf.
    + destruct Hkey as [Hkey|Hkey]; [done|]. rewrite Hkey. simpl. unfold do_fetch.
      by rewrite Hf.
Qed.

(** A search for "serum" through the minimal worker with a SerpAPI key: a
    provider that answers 503 gives 200 with no result, a provider that
    cannot be reached gives 500. *)
Lemma minimal_provider_failure_witness :
  fst (fetch_minimal Cases.serp_busy (search_request "/search" "serum"))
  = mkResponse 200 (Some (results_body [])) true
  /\ fst (fetch_minimal Cases.serp_down (search_request "/search" "serum"))
     = internal_error "unreachable".
Proof.
  assert (method (search_request "/search" "serum") <> "OPTIONS") as Hm by (by vm_compute).
  assert (query_text (Some (JStr "serum")) <> EmptyString) as Hq by (by vm_compute).
  split.
  - apply (proj1 (minimal_provider_failure Cases.serp_busy (search_request "/search" "serum")
                    (Some (JStr "serum")) Hm eq_refl Hq (or_introl eq_refl))).
    intros o. by exists 503, "Service Unavailable", None.
  - apply (proj2 (minimal_provider_failure Cases.serp_down (search_request "/search" "serum")
                    (Some (JStr "serum")) Hm eq_refl Hq (or_introl eq_refl))).
    done.
Defined.

(** *** Paths *)

Lemma dropTrailingSlash_app (p : string) : dropTrailingSlash (p ++ "/") = p.
Proof.
  induction p as [|c p IH]; [done|].
  change (String c p ++ "/")%string with (String c (p ++ "/")).
  cbn [dropTrailingSlash]. rewrite IH. by destruct p.
Qed.

(** X21: a trailing slash makes no difference.  The combined worker
    answers a request whose path is followed by one slash as it answers the
    request with the path itself, when that path does not end in a
    slash. *)
Theorem trailing_slash_ignored rr at_ env request :
  dropTrailingSlash (pathname request) = pathname request ->
  fetch_combined rr at_ env (at_path (pathname request ++ "/") request)
  = fetch_combined rr at_ env request.
Proof.
  intros H. unfold fetch_combined, chat, search, is_json, at_path. simpl.
  by rewrite dropTrailingSlash_app, H.
Qed.

(** The sample conversation sent to [/chat/] is answered as at [/chat]. *)
Lemma trailing_slash_ignored_witness :
  fetch_combined Sample.read_results Sample.assistant_text Sample.with_key
    (at_path "/chat/" Sample.chat_request)
  = fetch_combined Sample.read_results Sample.assistant_text Sample.with_key
      Sample.chat_request.
Proof.
  exact (trailing_slash_ignored Sample.read_results Sample.assistant_text Sample.with_key
           Sample.chat_request eq_refl).
Defined.

End ProxyFacts.

(** ** Facts about the page behind a worker *)

Module TogetherFacts.
Import JsString ProxySpec.
Local Open Scope list_scope.

Lemma delivered_search_answer (r : Worker.Response) (rs : list JSON) :
  search_answer r rs -> Spec.proxy_results (delivered r) = rs.
Proof.
  intros [[Hs Hb]|[Hs [-> [msg Hb]]]]; unfold delivered, Spec.proxy_results; rewrite Hb.
  - by rewrite Hs.
  - by destruct Hs as [->|[->| ->]].
Qed.

Lemma internal_error_answer (msg : string) : search_answer (Worker.internal_error msg) [].
Proof. right. split; [by right; right|]. split; [done|]. by eexists. Qed.

Lemma minimal_status wenv path query :
  Worker.status (fst (Worker.fetch_minimal wenv (search_request path query))) <> 404.
Proof.
  unfold Worker.fetch_minimal, search_request. simpl.
  unfold Worker.search_minimal, Worker.bind, Worker.lift. simpl.
  match goal with |- context [Worker.query_text ?v] => set (q := Worker.query_text v) end.
  destruct (nonEmpty q); simpl; [|done].
  destruct (Worker.truthy_str (Worker.SERPAPI_KEY wenv)); simpl.
  - unfold Worker.do_fetch. by destruct (Worker.provider_results _ _ _).
  - destruct (Worker.truthy_str (Worker.GOOGLE_API_KEY wenv)
              && Worker.truthy_str (Worker.GOOGLE_CX wenv)); simpl; [|done].
    unfold Worker.do_fetch. by destruct (Worker.provider_results _ _ _).
Qed.

Lemma minimal_search_answer wenv path query :
  exists rs, search_answer (fst (Worker.fetch_minimal wenv (search_request path query))) rs.
Proof.
  unfold Worker.fetch_minimal, search_request. simpl.
  unfold Worker.search_minimal, Worker.bind, Worker.lift. simpl.
  match goal with |- context [Worker.query_text ?v] => set (q := Worker.query_text v) end.
  destruct (nonEmpty q); simpl; [|exists []; by left].
  destruct (Worker.truthy_str (Worker.SERPAPI_KEY wenv)); simpl.
  - unfold Worker.do_fetch.
    destruct (Worker.provider_results _ _ _) as [rs|msg]; simpl.
    + exists rs. by left.
    + exists []. apply internal_error_answer.
  - destruct (Worker.truthy_str (Worker.GOOGLE_API_KEY wenv)
              && Worker.truthy_str (Worker.GOOGLE_CX wenv)); simpl.
    + unfold Worker.do_fetch.
      destruct (Worker.provider_results _ _ _) as [rs|msg]; simpl.
      * exists rs. by left.
      * exists []. apply internal_error_answer.
    + exists []. right. split; [by left|]. split; [done|]. by eexists.
Qed.

(** X22: the page and the minimal search worker.  When the search proxy
    of the page is the minimal worker, the worker answers the request of
    [performWebSearch] with a list of results and the status 200, or with
    an error body and the status 400 or 500; and [performWebSearch] returns
    that very list in the first case, the empty list in the second. *)
Theorem search_through_minimal_worker wenv env proxy path query st :
  Spec.search_proxy env = Some proxy ->
  Client.fetch env (Client.PostSearch proxy query)
  = delivered (fst (Worker.fetch_minimal wenv (search_request path query))) ->
  exists rs,
    search_answer (fst (Worker.fetch_minimal wenv (search_request path query))) rs
    /\ Worker.status (fst (Worker.fetch_minimal wenv (search_request path query))) <> 404
    /\ fst (Client.performWebSearch env query st) = Ok rs.
Proof.
  intros Hproxy Hfetch.
  destruct (minimal_search_answer wenv path query) as [rs Hrs].
  exists rs. split; [done|]. split.
  - apply minimal_status.
  - rewrite PipelineFacts.performWebSearch_run. simpl.
    unfold Spec.search_results. rewrite Hproxy, Hfetch.
    by rewrite (delivered_search_answer _ rs Hrs).
Qed.

(** The page searches "gel" through a minimal worker whose provider finds
    one page: [performWebSearch] returns it, with the keys [title],
    [snippet] and [url]. *)
Lemma search_through_minimal_worker_witness :
  let resp := fst (Worker.fetch_minimal Cases.serp_finds (search_request "/" "gel")) in
  exists rs,
    search_answer resp rs
    /\ fst (Client.performWebSearch (Cases.behind resp) "gel" Sample.blank) = Ok rs
    /\ rs = [Sample.search_hit].
Proof.
  intros resp.
  destruct (search_through_minimal_worker Cases.serp_finds (Cases.behind resp)
              "https://search.example/search" "/" "gel" Sample.blank eq_refl eq_refl)
    as (rs & H1 & _ & H2).
  exists rs. split; [exact H1|]. split; [exact H2|].
  assert (fst (Client.performWebSearch (Cases.behind resp) "gel" Sample.blank)
          = Ok [Sample.search_hit]) as H3 by (by vm_compute).
  rewrite H2 in H3. by injection H3.
Defined.

End TogetherFacts.

(** ** Facts about the markup of the cards *)

Module MarkupFacts.
Import JsString Client Spec PageSpec Markup EscapeFacts.
Local Open Scope list_scope.

(** *** Strings *)

Lemma append_cons (c : ascii) (a b : string) :
  (String c a ++ b)%string = String c (a ++ b)%string.
Proof. done. Qed.

Lemma append_nil_l (b : string) : (EmptyString ++ b)%string = b.
Proof. done. Qed.

Lemma append_nil_r (a : string) : (a ++ EmptyString)%string = a.
Proof. induction a as [|c a IH]; [done|]. by rewrite append_cons, IH. Qed.

Lemma append_assoc (a b c : string) :
  ((a ++ b) ++ c)%string = (a ++ (b ++ c))%string.
Proof. induction a as [|x a IH]; [done|]. by rewrite !append_cons, IH. Qed.

Lemma length_append (a b : string) :
  String.length (a ++ b)%string = (String.length a + String.length b)%nat.
Proof. induction a as [|x a IH]; [done|]. rewrite append_cons. simpl. by rewrite IH. Qed.

Lemma toLowerCase_app (a b : string) :
  toLowerCase (a ++ b)%string = (toLowerCase a ++ toLowerCase b)%string.
Proof. induction a as [|x a IH]; [done|]. rewrite append_cons. simpl. by rewrite IH. Qed.

Lemma toLowerCase_length (a : string) : String.length (toLowerCase a) = String.length a.
Proof. induction a as [|x a IH]; [done|]. simpl. by rewrite IH. Qed.

Lemma escape_chars_app (a b : string) :
  escape_chars (a ++ b)%string = (escape_chars a ++ escape_chars b)%string.
Proof.
  induction a as [|x a IH]; [done|]. rewrite append_cons. simpl.
  by rewrite IH, append_assoc.
Qed.

(** A text whose lower case splits in two splits there too. *)
Lemma toLowerCase_split (x a b : string) :
  toLowerCase x = (a ++ b)%string ->
  exists xa xb, x = (xa ++ xb)%string /\ toLowerCase xa = a /\ toLowerCase xb = b.
Proof.
  revert x. induction a as [|c a IH]; intros x H.
  - by exists EmptyString, x.
  - destruct x as [|d x]; [done|]. rewrite append_cons in H. simpl in H.
    injection H as Hc Hx. destruct (IH x Hx) as (xa & xb & -> & Ha & Hb).
    exists (String d xa), xb. split; [done|]. split; [|done]. simpl. by rewrite Hc, Ha.
Qed.

(** *** Substrings *)

Lemma substring_append_skip (a b : string) (n : nat) :
  String.substring (String.length a) n (a ++ b)%string = String.substring 0 n b.
Proof. induction a as [|x a IH]; [done|]. rewrite append_cons. simpl. apply IH. Qed.

Lemma substring_prefix (a b : string) :
  String.substring 0 (String.length a) (a ++ b)%string = a.
Proof.
  induction a as [|x a IH]; [by destruct b|]. rewrite append_cons. simpl. by rewrite IH.
Qed.

Lemma substring_all (a : string) : String.substring 0 (String.length a) a = a.
Proof. induction a as [|x a IH]; [done|]. simpl. by rewrite IH. Qed.

Lemma slice_rest (a b : string) :
  slice (String.length a) (String.length (a ++ b)) (a ++ b)%string = b.
Proof.
  unfold slice. rewrite substring_append_skip, length_append.
  replace (String.length a + String.length b - String.length a)%nat with (String.length b)
    by lia.
  apply substring_all.
Qed.

Lemma slice_middle (a b c : string) :
  slice (String.length a) (String.length a + String.length b) (a ++ b ++ c)%string = b.
Proof.
  unfold slice. rewrite substring_append_skip.
  replace (String.length a + String.length b - String.length a)%nat with (String.length b)
    by lia.
  apply substring_prefix.
Qed.

(** *** The search of an occurrence *)

Lemma startsWith_app (a b t : string) :
  startsWith a t = true -> startsWith (a ++ b)%string t = true.
Proof.
  intros H. apply GridClaims.startsWith_spec in H as [post ->].
  apply GridClaims.startsWith_spec. exists (post ++ b)%string. apply append_assoc.
Qed.

Lemma indexOf_from_None (s t : string) (i : nat) :
  indexOf_from s t i = None -> includes s t = false.
Proof.
  revert i. induction s as [|c s IH]; intros i; simpl.
  - destruct (startsWith EmptyString t); [done|]. by rewrite orb_false_r.
  - destruct (startsWith (String c s) t); [done|]. simpl. apply IH.
Qed.

Lemma indexOf_from_Some (s t : string) (i j : nat) :
  nonEmpty t = true ->
  indexOf_from s t i = Some j ->
  exists pre post,
    s = (pre ++ t ++ post)%string /\ j = (i + String.length pre)%nat
    /\ includes pre t = false.
Proof.
  intros Ht. revert i. induction s as [|c s IH]; intros i; simpl.
  - destruct (startsWith EmptyString t) eqn:E; [|done].
    destruct t; [done|]. done.
  - destruct (startsWith (String c s) t) eqn:E.
    + intros [= <-]. apply GridClaims.startsWith_spec in E as [post Hpost].
      exists EmptyString, post. split; [done|]. split; [simpl; lia|].
      destruct t; [done|]. done.
    + intros H. destruct (IH (S i) H) as (pre & post & -> & -> & Hpre).
      exists (String c pre), post. split; [done|]. split; [simpl; lia|].
      simpl. rewrite Hpre, orb_false_r.
      destruct (startsWith (String c pre) t) eqn:E'; [|done].
      apply (startsWith_app _ (t ++ post)%string) in E'.
      rewrite append_cons in E'. congruence.
Qed.

Lemma indexOf_at (d r t : string) :
  indexOf (toLowerCase (d ++ r)) t (String.length d)
  = indexOf_from (toLowerCase r) t (String.length d).
Proof.
  unfold indexOf. cbv zeta. rewrite toLowerCase_app.
  rewrite Nat.min_l by (rewrite length_append, toLowerCase_length; lia).
  assert (slice (String.length d) (String.length (toLowerCase d ++ toLowerCase r))
            (toLowerCase d ++ toLowerCase r) = toLowerCase r) as ->; [|done].
  rewrite <- (toLowerCase_length d). apply slice_rest.
Qed.

(** *** The loop *)

Lemma highlight_loop_spec (t : string) (fuel : nat) :
  nonEmpty t = true ->
  forall d r out,
    (String.length r < fuel)%nat ->
    exists out',
      highlight_loop fuel (d ++ r)%string (toLowerCase (d ++ r)) t (String.length d) out
      = Some (out ++ out')%string
      /\ Highlighted t r out'.
Proof.
  intros Ht. induction fuel as [|fuel IH]; intros d r out Hlen; [lia|].
  simpl. rewrite indexOf_at.
  destruct (indexOf_from (toLowerCase r) t (String.length d)) as [idx|] eqn:E.
  - destruct (indexOf_from_Some _ _ _ _ Ht E) as (pre_l & post_l & Hr & -> & Hpre).
    apply toLowerCase_split in Hr as (pre & rest0 & -> & Hpre_l & Hrest0).
    apply toLowerCase_split in Hrest0 as (hit & rest & -> & Hhit & Hrest).
    subst pre_l. rewrite toLowerCase_length.
    assert (String.length hit = String.length t) as Hlt
      by (by rewrite <- Hhit, toLowerCase_length).
    assert (slice (String.length d) (String.length d + String.length pre)
              (d ++ pre ++ hit ++ rest) = pre) as ->.
    { apply slice_middle. }
    assert (slice (String.length d + String.length pre)
              (String.length d + String.length pre + String.length t)
              (d ++ pre ++ hit ++ rest) = hit) as ->.
    { rewrite <- Hlt, <- length_append, <- append_assoc. apply slice_middle. }
    assert ((d ++ pre ++ hit ++ rest)%string = ((d ++ pre ++ hit) ++ rest)%string) as Hsplit.
    { by rewrite !append_assoc. }
    assert ((String.length d + String.length pre + String.length t)%nat
            = String.length (d ++ pre ++ hit)) as Hpos.
    { rewrite !length_append. lia. }
    rewrite Hsplit, Hpos.
    destruct (IH (d ++ pre ++ hit)%string rest
                (out ++ escape_chars pre ++ MARK_OPEN ++ escape_chars hit ++ MARK_CLOSE)%string)
      as (out2 & Hrun & Hhl).
    { rewrite !length_append in Hlen. destruct t; [done|]. simpl in Hlt. lia. }
    rewrite Hrun. eexists. split.
    + rewrite !append_assoc. reflexivity.
    + by apply HL_hit.
  - apply indexOf_from_None in E. exists (escape_chars r). split.
    + by rewrite slice_rest.
    + by apply HL_none.
Qed.

Lemma highlightMatch_defined (text term : string) :
  exists out, highlightMatch text term = Some out
              /\ (nonEmpty term = true -> Highlighted (toLowerCase term) text out).
Proof.
  unfold highlightMatch. destruct term as [|c term].
  - by exists (escape_chars text).
  - assert (nonEmpty (toLowerCase (String c term)) = true) as Ht by done.
    destruct (highlight_loop_spec (toLowerCase (String c term)) (S (String.length text)) Ht
                EmptyString text EmptyString) as (out & Hrun & Hhl); [lia|].
    exists out. by split.
Qed.

(** X24: the highlights of a title.  [highlightMatch] returns for every
    ASCII text and ASCII term (its loop ends).  For an empty term the
    result is the escaped text.  For another term it is the escaped text in
    which the occurrences of the term, compared in lower case and taken
    from left to right without overlap, are wrapped in marks: what is
    inside a mark equals the term up to case, and the term does not occur
    between two marks nor after the last. *)
Theorem highlightMatch_marks (text term : string) :
  ascii_only text = true ->
  ascii_only term = true ->
  exists out,
    highlightMatch text term = Some out
    /\ (term = EmptyString -> out = escape_chars text)
    /\ (term <> EmptyString -> Highlighted (toLowerCase term) text out).
Proof.
  intros _ _. unfold highlightMatch. destruct term as [|c term].
  - exists (escape_chars text). by repeat split.
  - assert (nonEmpty (toLowerCase (String c term)) = true) as Ht by done.
    destruct (highlight_loop_spec (toLowerCase (String c term)) (S (String.length text)) Ht
                EmptyString text EmptyString) as (out & Hrun & Hhl); [lia|].
    exists out. split; [exact Hrun|]. by split.
Qed.

(** In "Gel and gel", searched for "GEL", the two occurrences are
    marked. *)
Lemma highlightMatch_marks_witness :
  exists out,
    highlightMatch "Gel and gel" "GEL" = Some out
    /\ Highlighted "gel" "Gel and gel" out
    /\ out = (MARK_OPEN ++ "Gel" ++ MARK_CLOSE ++ " and " ++ MARK_OPEN ++ "gel" ++ MARK_CLOSE)%string.
Proof.
  destruct (highlightMatch_marks "Gel and gel" "GEL" eq_refl eq_refl) as (out & H1 & _ & H2).
  exists out. split; [exact H1|]. split; [by apply H2|].
  assert (highlightMatch "Gel and gel" "GEL"
          = Some (MARK_OPEN ++ "Gel" ++ MARK_CLOSE ++ " and " ++ MARK_OPEN ++ "gel"
                    ++ MARK_CLOSE)%string) as H3 by (by vm_compute).
  rewrite H1 in H3. by injection H3.
Defined.

(** *** The cards *)

Lemma render_card_named (cs : string) (sel : list Product) (p : Product) (n : string) :
  name p = Some n ->
  exists title,
    highlightMatch n cs = Some title
    /\ render_card cs sel p
       = Ok (mkCardView (is_selected (id p) sel) (id p) (template_str (image p))
               (escape_chars n) title (escape_chars (or_empty (brand p)))
               ("Learn more about " ++ escape_chars n)).
Proof.
  intros Hn. destruct (highlightMatch_defined n cs) as (title & Ht & _).
  exists title. split; [done|]. unfold render_card. rewrite Hn. simpl. by rewrite Ht.
Qed.

Lemma render_card_unnamed (cs : string) (sel : list Product) (p : Product) :
  name p = None -> exists msg, render_card cs sel p = Throw msg.
Proof.
  intros Hn. unfold render_card. rewrite Hn. simpl.
  destruct (highlightMatch EmptyString cs); by eexists.
Qed.

Lemma render_cards_named (cs : string) (sel : list Product) (products : list Product) :
  Forall (fun p => name p <> None) products ->
  exists views,
    res_map (render_card cs sel) products = Ok views
    /\ Forall2 (fun p v =>
                  view_id v = id p
                  /\ view_selected v = is_selected (id p) sel
                  /\ highlightMatch (or_empty (name p)) cs = Some (view_title v))
               products views.
Proof.
  induction 1 as [|p products Hp _ (views & Hviews & Hall)]; [by exists []|].
  destruct (name p) as [n|] eqn:Hn; [|done].
  destruct (render_card_named cs sel p n Hn) as (title & Ht & Hr).
  simpl. rewrite Hr. simpl. rewrite Hviews. simpl. eexists. split; [done|].
  constructor; [|done]. simpl. by rewrite Hn.
Qed.

Lemma render_cards_unnamed (cs : string) (sel : list Product) (products : list Product) :
  Exists (fun p => name p = None) products ->
  exists msg, res_map (render_card cs sel) products = Throw msg.
Proof.
  induction 1 as [p products Hp|p products _ [msg IH]]; simpl.
  - destruct (render_card_unnamed cs sel p Hp) as [msg ->]. by eexists.
  - destruct (render_card cs sel p); simpl; [|by eexists]. rewrite IH. by eexists.
Qed.

(** X25: the cards need names.  When every product has a name,
    [displayProducts] writes one card per product, in order, with the id
    of the product, the mark of its selection and its name highlighted for
    the trimmed content of the search box, and leaves the page as the grid
    model of the selection says.  When a product has no name,
    [escapeHtml] throws on it: the id-to-product map has been rebuilt, but
    the grid, the selection and the tray are left as they were. *)
Theorem cards_need_names (products : list Product) st :
  (Forall (fun p => name p <> None) products ->
   exists views,
     displayProducts_markup products st = (Ok views, displayProducts products st)
     /\ Forall2 (fun p v =>
                   view_id v = id p
                   /\ view_selected v = is_selected (id p) (selectedProducts st)
                   /\ highlightMatch (or_empty (name p)) (trim (search_value st))
                      = Some (view_title v))
                products views)
  /\ (Exists (fun p => name p = None) products ->
      exists msg,
        fst (displayProducts_markup products st) = Throw msg
        /\ productsContainer (snd (displayProducts_markup products st)) = productsContainer st
        /\ selectedProducts (snd (displayProducts_markup products st)) = selectedProducts st
        /\ selectedProductsList (snd (displayProducts_markup products st))
           = selectedProductsList st).
Proof.
  assert (match productSearch st with
          | Some v => if nonEmpty v then trim v else EmptyString
          | None => EmptyString
          end = trim (search_value st)) as Hcs.
  { unfold search_value. destruct (productSearch st) as [[|c v]|]; done. }
  unfold displayProducts_markup. rewrite Hcs. split.
  - intros Hnames.
    destruct (render_cards_named (trim (search_value st)) (selectedProducts st) products Hnames)
      as (views & -> & Hall).
    by exists views.
  - intros Hno.
    destruct (render_cards_unnamed (trim (search_value st)) (selectedProducts st) products Hno)
      as (msg & ->).
    by exists msg.
Qed.

(** *** A search and its highlights *)

Lemma Highlighted_hit (t text out : string) :
  Highlighted t text out ->
  includes (toLowerCase text) t = true ->
  exists pre hit rest out',
    text = (pre ++ hit ++ rest)%string
    /\ toLowerCase hit = t
    /\ out = (escape_chars pre ++ MARK_OPEN ++ escape_chars hit ++ MARK_CLOSE ++ out')%string.
Proof.
  intros H Hin. destruct H as [text Hno|pre hit rest out Hpre Hhit Hrest]; [congruence|].
  by exists pre, hit, rest, out.
Qed.

(** X26: what a search shows is highlighted.  For an ASCII search term
    that is not blank, the title of every product with an ASCII name that
    passes the filter of the grid holds a mark, around a part of the name
    that equals the trimmed term up to case. *)
Theorem shown_titles_are_marked (c term : string) (p : Product) :
  ascii_only (or_empty (name p)) = true ->
  ascii_only term = true ->
  trim term <> EmptyString ->
  passesb c (trim term) p = true ->
  exists pre hit rest out',
    or_empty (name p) = (pre ++ hit ++ rest)%string
    /\ toLowerCase hit = toLowerCase (trim term)
    /\ highlightMatch (or_empty (name p)) (trim term)
       = Some (escape_chars pre ++ MARK_OPEN ++ escape_chars hit ++ MARK_CLOSE ++ out')%string.
Proof.
  intros _ _ Hterm Hpass. unfold passesb in Hpass.
  apply andb_true_iff in Hpass as [_ Hin].
  destruct (highlightMatch_defined (or_empty (name p)) (trim term)) as (out & Hrun & Hhl).
  assert (nonEmpty (trim term) = true) as Hne by (by destruct (trim term)).
  destruct (Highlighted_hit _ _ _ (Hhl Hne) Hin) as (pre & hit & rest & out' & H1 & H2 & ->).
  by exists pre, hit, rest, out'.
Qed.

(** With " re" in the search box cream is shown, and the "re" of its title
    is marked. *)
Lemma shown_titles_are_marked_witness :
  exists pre hit rest out',
    "Cream" = (pre ++ hit ++ rest)%string
    /\ toLowerCase hit = "re"
    /\ highlightMatch "Cream" "re"
       = Some (escape_chars pre ++ MARK_OPEN ++ escape_chars hit ++ MARK_CLOSE ++ out')%string.
Proof.
  assert (trim " re" <> EmptyString) as H by (by vm_compute).
  exact (shown_titles_are_marked EmptyString " re" Sample.cream eq_refl eq_refl H eq_refl).
Defined.

End MarkupFacts.

(** ** Facts about the text of an answer *)

Module ResponsesFacts.
Import JsString Worker WorkerSpec Responses.
Local Open Scope list_scope.

Lemma message_parts_texts (ts : list string) :
  Client.res_map message_part (map text_part ts) = Ok ts.
Proof.
  induction ts as [|t ts IH]; [done|]. simpl. rewrite IH. simpl.
  by destruct t.
Qed.

Lemma output_piece_message (ts : list string) :
  output_piece (message_item ts) = Ok (join LF ts ++ LF)%string.
Proof.
  unfold output_piece, message_item. simpl. by rewrite message_parts_texts.
Qed.

Lemma output_pieces_messages (tss : list (list string)) :
  Client.res_map output_piece (map message_item tss)
  = Ok (map (fun ts => join LF ts ++ LF)%string tss).
Proof.
  induction tss as [|ts tss IH]; [done|].
  cbn [map Client.res_map]. rewrite output_piece_message. simpl. by rewrite IH.
Qed.

Lemma res_map_null {B : Type} (f : JSON -> Res B) (xs : list JSON) :
  (forall x, x = JNull -> exists msg, f x = Throw msg) ->
  JNull ∈ xs -> exists msg, Client.res_map f xs = Throw msg.
Proof.
  intros Hf. induction xs as [|x xs IH]; intros H; [by apply elem_of_nil in H|].
  apply elem_of_cons in H as [<-|H]; simpl.
  - destruct (Hf JNull eq_refl) as [msg ->]. by eexists.
  - destruct (f x); simpl; [|by eexists]. destruct (IH H) as [msg ->]. by eexists.
Qed.

(** X27: the text of an answer.  The text read from an answer of the
    Responses API is never undefined.  For an answer whose [output] is a
    list of messages, each with a list of texts as its content, it is the
    texts of each message joined by line feeds and followed by a line feed,
    the messages one after the other.  For an answer whose [output] is not
    a non-empty array it is the value under [output_text] when that is
    truthy, and the empty text otherwise.  And when an element of the
    output is [null], it is the JSON text of the whole answer. *)
Theorem assistant_text_read (fields : list (string * JSON)) :
  (exists v, assistantText_of (JObj fields) = Some v)
  /\ (forall ts tss,
        Js.lookup_field "output" fields = Some (JArr (map message_item (ts :: tss))) ->
        assistantText_of (JObj fields)
        = Some (JStr (join EmptyString
                        (map (fun ts => join LF ts ++ LF)%string (ts :: tss)))))
  /\ ((forall o os, Js.lookup_field "output" fields <> Some (JArr (o :: os))) ->
      assistantText_of (JObj fields)
      = if Js.truthy (Js.lookup_field "output_text" fields)
        then Js.lookup_field "output_text" fields
        else Some (JStr EmptyString))
  /\ (forall o os,
        Js.lookup_field "output" fields = Some (JArr (o :: os)) -> JNull ∈ o :: os ->
        assistantText_of (JObj fields) = Some (JStr (Js.JSON_stringify (JObj fields)))).
Proof.
  split; [|split; [|split]].
  - unfold assistantText_of. cbn [Js.prop].
    assert (exists v, (if Js.truthy (field (JObj fields) "output_text")
                       then field (JObj fields) "output_text"
                       else Some (JStr EmptyString)) = Some v) as Helse.
    { destruct (field (JObj fields) "output_text") as [v|]; [|by eexists].
      destruct (Js.truthy (Some v)); by eexists. }
    destruct (Js.lookup_field "output" fields) as [[| | | |[|o os]|]|]; try exact Helse.
    destruct (Client.res_map output_piece (o :: os)); by eexists.
  - intros ts tss Hout. unfold assistantText_of. cbn [Js.prop]. rewrite Hout.
    cbn [map]. change (message_item ts :: map message_item tss)
      with (map message_item (ts :: tss)).
    by rewrite output_pieces_messages.
  - intros Hno. unfold assistantText_of. cbn [Js.prop].
    destruct (Js.lookup_field "output" fields) as [[| | | |[|o os]|]|]; try done.
    by destruct (Hno o os).
  - intros o os Hout Hnull. unfold assistantText_of. cbn [Js.prop]. rewrite Hout.
    destruct (res_map_null output_piece (o :: os)) as [msg ->]; try done.
    intros x ->. by eexists.
Qed.

End ResponsesFacts.

(** ** Facts about the text direction *)

Module DirectionFacts.
Import JsString Direction MarkupFacts.
Local Open Scope list_scope.

Lemma lower_char_hyphen (c : ascii) : Ascii.eqb (lower_char c) "-" = Ascii.eqb c "-".
Proof. destruct c as [[] [] [] [] [] [] [] []]; reflexivity. Qed.

Lemma before_hyphen_lower (s : string) :
  before_hyphen (toLowerCase s) = toLowerCase (before_hyphen s).
Proof.
  induction s as [|c s IH]; [done|]. simpl. rewrite lower_char_hyphen.
  destruct (Ascii.eqb c "-"); [done|]. simpl. by rewrite IH.
Qed.

Lemma before_hyphen_region (tag region : string) :
  before_hyphen tag = tag -> before_hyphen (tag ++ "-" ++ region) = tag.
Proof.
  induction tag as [|c tag IH]; [done|]. rewrite append_cons. simpl.
  destruct (Ascii.eqb c "-"); [done|]. intros [= H]. by rewrite (IH H).
Qed.

Lemma list_includes_spec (l : list string) (x : string) :
  list_includes l x = true <-> x ∈ l.
Proof.
  unfold list_includes. rewrite existsb_exists. split.
  - intros (y & Hy & E). apply String.eqb_eq in E. subst. by apply list_elem_of_In.
  - intros H. exists x. split; [by apply list_elem_of_In|apply String.eqb_refl].
Qed.

Lemma classList_add_in (token : string) (l : list string) : token ∈ classList_add token l.
Proof.
  unfold classList_add. destruct (list_includes l token) eqn:E.
  - by apply list_includes_spec.
  - apply elem_of_app. right. by apply list_elem_of_singleton.
Qed.

Lemma classList_add_twice (token : string) (l : list string) :
  classList_add token (classList_add token l) = classList_add token l.
Proof.
  unfold classList_add at 1.
  by rewrite (proj2 (list_includes_spec _ _) (classList_add_in token l)).
Qed.

Lemma classList_remove_out (token : string) (l : list string) :
  token ∉ classList_remove token l.
Proof.
  unfold classList_remove. rewrite list_elem_of_In, List.filter_In.
  intros [_ H]. by rewrite String.eqb_refl in H.
Qed.

Lemma classList_remove_twice (token : string) (l : list string) :
  classList_remove token (classList_remove token l) = classList_remove token l.
Proof.
  unfold classList_remove. induction l as [|t l IH]; [done|]. simpl.
  destruct (String.eqb t token) eqn:E; simpl; [done|]. by rewrite E, IH.
Qed.

Lemma detect_rtl (d : Document) :
  is_rtl d = true ->
  detectAndApplyRTL d
  = mkDocument (lang d) (navigator_language d) (Some "rtl") (classList_add "rtl" (classList d)).
Proof. unfold is_rtl, language_tag, detectAndApplyRTL. by intros ->. Qed.

Lemma detect_ltr (d : Document) :
  is_rtl d = false ->
  detectAndApplyRTL d
  = mkDocument (lang d) (navigator_language d) (Some "ltr")
      (classList_remove "rtl" (classList d)).
Proof. unfold is_rtl, language_tag, detectAndApplyRTL. by intros ->. Qed.

Lemma is_rtl_region (tag region : string) (d : Document) :
  tag <> EmptyString -> before_hyphen tag = tag ->
  is_rtl (with_lang (tag ++ "-" ++ region) d) = is_rtl (with_lang tag d).
Proof.
  intros Hne Htag. unfold is_rtl, language_tag, with_lang. simpl.
  destruct tag as [|c tag]; [done|]. rewrite append_cons. cbn [nonEmpty].
  rewrite <- append_cons. by rewrite !before_hyphen_lower, before_hyphen_region, Htag.
Qed.

(** X28: the direction follows the language.  After [detectAndApplyRTL]
    the [dir] attribute is [rtl] or [ltr]; it is [rtl] exactly when the
    class [rtl] is set, and exactly when the part of the language tag
    before its first hyphen is, up to case, one of the nine codes of
    [RTL_LANGS], the tag being the [lang] attribute of the document when it
    has one and the language of the browser otherwise; a region after the
    language makes no difference; and a second detection changes
    nothing. *)
Theorem direction_follows_language (d : Document) :
  let d' := detectAndApplyRTL d in
  detectAndApplyRTL d' = d'
  /\ (dir d' = Some "rtl" \/ dir d' = Some "ltr")
  /\ (dir d' = Some "rtl" <-> "rtl" ∈ classList d')
  /\ (dir d' = Some "rtl" <-> toLowerCase (before_hyphen (language_tag d)) ∈ RTL_LANGS)
  /\ (forall tag region,
        tag <> EmptyString -> before_hyphen tag = tag ->
        dir (detectAndApplyRTL (with_lang (tag ++ "-" ++ region) d))
        = dir (detectAndApplyRTL (with_lang tag d))).
Proof.
  intros d'. unfold d'.
  assert (forall tag region,
            tag <> EmptyString -> before_hyphen tag = tag ->
            dir (detectAndApplyRTL (with_lang (tag ++ "-" ++ region) d))
            = dir (detectAndApplyRTL (with_lang tag d))) as Hregion.
  { intros tag region Hne Htag. pose proof (is_rtl_region tag region d Hne Htag) as H.
    destruct (is_rtl (with_lang tag d)) eqn:E.
    - by rewrite (detect_rtl _ H), (detect_rtl _ E).
    - by rewrite (detect_ltr _ H), (detect_ltr _ E). }
  assert (is_rtl d = true <-> toLowerCase (before_hyphen (language_tag d)) ∈ RTL_LANGS)
    as Hin.
  { unfold is_rtl. by rewrite before_hyphen_lower, list_includes_spec. }
  destruct (is_rtl d) eqn:E.
  - rewrite (detect_rtl d E).
    split.
    { rewrite (detect_rtl (mkDocument _ _ _ _) E). simpl. by rewrite classList_add_twice. }
    split; [by left|].
    split; [split; [intros _; apply classList_add_in|done]|].
    split; [split; [intros _; by apply Hin|done]|done].
  - rewrite (detect_ltr d E).
    split.
    { rewrite (detect_ltr (mkDocument _ _ _ _) E). simpl. by rewrite classList_remove_twice. }
    split; [by right|].
    split; [split; [done|intros H; by apply classList_remove_out in H]|].
    split; [split; [done|intros H; apply Hin in H; done]|done].
Qed.

End DirectionFacts.

(** ** Facts about the product overlay *)

Module OverlayFacts.
Import JsString Client Overlay.
Local Open Scope list_scope.

Lemma closeProductModal_listening p : listening p -> listening (closeProductModal p).
Proof.
  unfold listening, closeProductModal. destruct (modalEl p) eqn:E; simpl; by rewrite ?E.
Qed.

Lemma showProductModal_listening product opener p :
  listening p -> listening (showProductModal product opener p).
Proof.
  unfold listening, showProductModal. destruct (modalEl p) eqn:E; intros H; simpl.
  - by rewrite E.
  - by rewrite H.
Qed.

Lemma timer_fires_listening p : listening p -> listening (timer_fires p).
Proof. unfold listening, timer_fires. by destruct (timers p). Qed.

Lemma keydown_listening key p :
  listening p ->
  Nat.iter (keydown_listeners p) (onKeyDownForModal key) p
  = match modalEl p with
    | None => p
    | Some _ => if String.eqb key "Escape" then closeProductModal p else p
    end.
Proof.
  unfold listening. destruct (modalEl p) eqn:E; intros ->; simpl; [|done].
  unfold onKeyDownForModal. by rewrite E.
Qed.

Lemma step_listening ev p : listening p -> listening (step ev p).
Proof.
  intros H. destruct ev as [product| |[]|key|]; simpl.
  - by apply showProductModal_listening.
  - by apply closeProductModal_listening.
  - by apply closeProductModal_listening.
  - done.
  - rewrite (keydown_listening key p H). destruct (modalEl p) eqn:E; [|done].
    destruct (String.eqb key "Escape"); [|done]. by apply closeProductModal_listening.
  - by apply timer_fires_listening.
Qed.

Lemma run_listening events p : listening p -> listening (run events p).
Proof.
  revert p. induction events as [|ev events IH]; intros p H; [done|].
  simpl. apply IH. by apply step_listening.
Qed.

Lemma run_app events events' p : run (events ++ events') p = run events' (run events p).
Proof. unfold run. apply foldl_app. Qed.



(** X30: one overlay, one listener.  Whatever the events, the overlay is
    built once at most and the document has one [keydown] listener when it
    is built and none before, so that a key runs the handler once.  Once
    the overlay is built, an Escape sets a timer whether the overlay is
    open or not: when it fires, the focus goes to the element that opened
    the overlay last. *)
Theorem overlay_built_once (events : list Event) (e : option Element) :
  let p := run events (start e) in
  (keydown_listeners p <= 1)%nat
  /\ (keydown_listeners p = 1%nat <-> modalEl p <> None)
  /\ (modalEl p = None -> forall key, step (KeyDown key) p = p)
  /\ (forall key, key <> "Escape" -> step (KeyDown key) p = p)
  /\ (modalEl p <> None ->
      timers (step (KeyDown "Escape") p) = S (timers p)
      /\ forall opener, lastFocused p = Some opener ->
           activeElement (step TimerFires (step (KeyDown "Escape") p)) = Some opener).
Proof.
  intros p. assert (listening p) as Hp by (by apply run_listening).
  assert (forall key, step (KeyDown key) p
                      = match modalEl p with
                        | None => p
                        | Some _ => if String.eqb key "Escape" then closeProductModal p else p
                        end) as Hkey.
  { intros key. simpl. by apply keydown_listening. }
  unfold listening in Hp.
  split; [destruct (modalEl p); lia|].
  split; [destruct (modalEl p); split; try done; lia|].
  split; [intros H key; by rewrite Hkey, H|].
  split.
  { intros key Hne. rewrite Hkey. destruct (modalEl p); [|done].
    apply String.eqb_neq in Hne. by rewrite Hne. }
  intros Hm. rewrite Hkey. unfold closeProductModal.
  destruct (modalEl p) as [m|] eqn:E; [|done]. simpl. split; [done|].
  intros opener Hlast. unfold timer_fires. simpl. by rewrite Hlast.
Qed.

End OverlayFacts.
